(** * Tune Stats: the filter evaluator, the genre parser and the chart
      aggregators, embedded from the Python sources.

    Conventions of the embedding.
    - A pandas DataFrame is a list of column labels together with a list of
      rows; a row maps a column label to a cell ([gmap string cell]).
    - A cell is a Python [str], a finite number, the float [nan] that pandas
      stores for a missing value, or [None].  Numbers are exact rationals
      ([Q]); rounding of binary floating point is outside the model.
    - Code that can raise lives in the [result] monad; [try: ... except:] is
      [try_except].
    - Characters are the 256 code points that [ascii] offers.
    - [sort_values] of pandas is read through its [nargsort] and numpy's
      [argsort]; the bar chart takes [argsort] as a parameter, and [Numpy]
      gives the scalar quicksort of numpy to run it with. *)

From Stdlib Require Import QArith Qminmax Qround Qreals Reals Lra Lqa Lia String Ascii List.
From stdpp Require Import base option list strings gmap sorting.

Open Scope string_scope.

(** ** Exceptions and the result monad *)

Module Py.

(** The classes raised by the modelled operations; all of them derive from
    Python's [Exception]. *)
Inductive exc_class := TypeError | KeyError | AttributeError | ValueError | IndexError.

Definition class_name (c : exc_class) : string :=
  match c with
  | TypeError => "TypeError"
  | KeyError => "KeyError"
  | AttributeError => "AttributeError"
  | ValueError => "ValueError"
  | IndexError => "IndexError"
  end.

(** An exception instance: its class, [str(e)], and the text of the stack
    frames that were active when it was raised. *)
Record exn := Exn { exc_type : exc_class; exc_str : string; exc_frames : string }.

Inductive result (A : Type) : Type :=
| Ok (a : A)
| Raise (e : exn).
Arguments Ok {A} a.
Arguments Raise {A} e.

#[global] Instance result_ret : MRet result := fun A a => Ok a.
#[global] Instance result_bind : MBind result := fun A B f m =>
  match m with
  | Ok a => f a
  | Raise e => Raise e
  end.

(** [try: body  except Exception as e: handler(e)] *)
Definition try_except {A} (body : result A) (handler : exn -> result A) : result A :=
  match body with
  | Ok a => Ok a
  | Raise e => handler e
  end.

Definition nl : string := String (ascii_of_nat 10) EmptyString.

Definition raise {A} (c : exc_class) (msg frames : string) : result A :=
  Raise (Exn c msg frames).

(** [traceback.format_exc()] *)
Definition format_exc (e : exn) : string :=
  "Traceback (most recent call last):" +:+ nl +:+ exc_frames e
  +:+ class_name (exc_type e) +:+ ": " +:+ exc_str e +:+ nl.

(** ** Cells *)

Inductive cell :=
| CStr (s : string)
| CNum (q : Q)
| CNaN
| CNone.

(** [bool(x)]: the truth value the [if x and ...] guards test. *)
Definition truthy (x : cell) : bool :=
  match x with
  | CStr s => negb (String.eqb s "")
  | CNum q => negb (Qeq_bool q 0%Q)
  | CNaN => true
  | CNone => false
  end.

(** [x == lit] for a string literal. *)
Definition eq_str (x : cell) (lit : string) : bool :=
  match x with
  | CStr s => String.eqb s lit
  | _ => false
  end.

(** [pd.isna(x)] on a scalar. *)
Definition isna (x : cell) : bool :=
  match x with
  | CNaN | CNone => true
  | _ => false
  end.

Definition type_name (x : cell) : string :=
  match x with
  | CStr _ => "str"
  | CNum _ | CNaN => "float"
  | CNone => "NoneType"
  end.

(** ** Strings *)

(** [sub in s] for two strings. *)
Fixpoint str_contains (sub s : string) : bool :=
  if String.prefix sub s then true
  else match s with
       | EmptyString => false
       | String _ s' => str_contains sub s'
       end.

(** [genre in x]: a substring test on [str], [TypeError] on the rest. *)
Definition py_in (sub : string) (x : cell) : result bool :=
  match x with
  | CStr s => Ok (str_contains sub s)
  | _ => raise TypeError
           ("argument of type '" +:+ type_name x +:+ "' is not iterable")
           ("  in <lambda>" +:+ nl)
  end.

Fixpoint drop_while {A} (p : A -> bool) (l : list A) : list A :=
  match l with
  | [] => []
  | a :: l' => if p a then drop_while p l' else l
  end.

Definition mem_ascii (chars : list ascii) (a : ascii) : bool :=
  existsb (Ascii.eqb a) chars.

(** [s.strip(chars)] *)
Definition strip_chars (chars s : string) : string :=
  let cs := list_ascii_of_string chars in
  let l := drop_while (mem_ascii cs) (list_ascii_of_string s) in
  string_of_list_ascii (rev (drop_while (mem_ascii cs) (rev l))).

(** The code points below 256 on which [str.isspace] holds. *)
Definition whitespace : string :=
  string_of_list_ascii
    (map ascii_of_nat [9; 10; 11; 12; 13; 28; 29; 30; 31; 32; 133; 160]%nat).

(** [s.strip()] *)
Definition strip (s : string) : string := strip_chars whitespace s.

(** [s.split(sep)] for a one-character separator; never the empty list. *)
Fixpoint split_on (sep : ascii) (s : list ascii) : list (list ascii) :=
  match s with
  | [] => [[]]
  | a :: s' =>
      let r := split_on sep s' in
      if Ascii.eqb a sep then [] :: r
      else match r with
           | p :: ps => (a :: p) :: ps
           | [] => [[a]]
           end
  end.

Definition split (sep : ascii) (s : string) : list string :=
  map string_of_list_ascii (split_on sep (list_ascii_of_string s)).

(** [x.strip(chars)] on a cell: only [str] has the method. *)
Definition cell_strip (x : cell) (chars frame : string) : result string :=
  match x with
  | CStr s => Ok (strip_chars chars s)
  | _ => raise AttributeError
           ("'" +:+ type_name x +:+ "' object has no attribute 'strip'") frame
  end.

Definition nonempty (s : string) : bool := negb (String.eqb s "").

(** The single and the double quote, which the parsers strip from a token. *)
Definition quotes : string :=
  String "'"%char (String (ascii_of_nat 34) EmptyString).

End Py.
Import Py.

(** ** DataFrames *)

Module Pandas.

Abbreviation row := (gmap string cell).

Record table := Table { columns : list string; rows : list row }.

(** [len(df)] *)
Definition len (df : table) : nat := length (rows df).

(** ["c" in df.columns] *)
Definition has_column (df : table) (c : string) : bool :=
  bool_decide (c ∈ columns df).

(** The cell of a row under a column label; a row that lacks the label
    reads as missing. *)
Definition at_col (c : string) (r : row) : cell := default CNaN (r !! c).

(** [df[c]]: the column as a Series, [KeyError] when there is no such
    column. *)
Definition getitem (df : table) (c frame : string) : result (list cell) :=
  if has_column df c then Ok (map (at_col c) (rows df))
  else raise KeyError ("'" +:+ c +:+ "'") frame.


(** [df[mask]]: the rows whose mask entry is [True], in order. *)
Fixpoint boolean_index (rs : list row) (mask : list bool) : list row :=
  match rs, mask with
  | r :: rs', b :: mask' =>
      if b then r :: boolean_index rs' mask' else boolean_index rs' mask'
  | _, _ => []
  end.

Definition getitem_mask (df : table) (mask : list bool) : table :=
  Table (columns df) (boolean_index (rows df) mask).

(** A Series used as the key of [df[key]].  pandas reads a Series of
    booleans as a row mask and any other Series as a list of column
    labels. *)
Inductive series_key :=
| BoolSeries (mask : list bool)
| LabelSeries (labels : list cell).

(** [series.apply(f)] for an [f] that returns booleans.  On an empty Series
    [f] is never called and the result is an empty Series of the dtype of
    [series], which is not a Series of booleans; otherwise the results are
    collected into a Series of booleans. *)
Definition series_apply (f : cell -> result bool) (s : list cell) : result series_key :=
  match s with
  | [] => Ok (LabelSeries [])
  | _ => mask ← mapM f s; Ok (BoolSeries mask)
  end.

(** The column labels that a key names; each must be a column. *)
Fixpoint labels_of (df : table) (labels : list cell) (frame : string)
  : result (list string) :=
  match labels with
  | [] => Ok []
  | CStr c :: rest =>
      if has_column df c then cs ← labels_of df rest frame; Ok (c :: cs)
      else raise KeyError ("['" +:+ c +:+ "'] not in index") frame
  | _ :: _ => raise KeyError "not in index" frame
  end.

(** [df[labels]]: the rows cut down to the columns named. *)
Definition take_columns (df : table) (cs : list string) : table :=
  Table cs (map (fun r : row => filter (fun kv => kv.1 ∈ cs) r) (rows df)).

(** [df[key]] for a Series key. *)
Definition getitem_series (df : table) (key : series_key) (frame : string)
  : result table :=
  match key with
  | BoolSeries mask => Ok (getitem_mask df mask)
  | LabelSeries labels => cs ← labels_of df labels frame; Ok (take_columns df cs)
  end.

(** [series >= v] and [series <= v], element by element.  A missing value
    compares false; a [str] cannot be ordered against a float. *)
Definition cmp_cell (op : Q -> Q -> bool) (sym : string) (v : Q) (frame : string)
  (x : cell) : result bool :=
  match x with
  | CNum q => Ok (op q v)
  | CNaN | CNone => Ok false
  | CStr _ => raise TypeError
                ("'" +:+ sym +:+ "' not supported between instances of 'str' and 'float'")
                frame
  end.

Definition Qge_bool (a b : Q) : bool := Qle_bool b a.

Definition series_ge (s : list cell) (v : Q) (frame : string) : result (list bool) :=
  mapM (cmp_cell Qge_bool ">=" v frame) s.

Definition series_le (s : list cell) (v : Q) (frame : string) : result (list bool) :=
  mapM (cmp_cell Qle_bool "<=" v frame) s.

(** [series / d] for a non-zero constant. *)
Definition div_cell (d : Q) (frame : string) (x : cell) : result cell :=
  match x with
  | CNum q => Ok (CNum (q / d)%Q)
  | CNaN | CNone => Ok CNaN
  | CStr _ => raise TypeError "unsupported operand type(s) for /: 'str' and 'int'" frame
  end.

Definition series_div (s : list cell) (d : Q) (frame : string) : result (list cell) :=
  mapM (div_cell d frame) s.

(** [mask1 & mask2] *)
Definition mask_and (m1 m2 : list bool) : list bool :=
  zip_with andb m1 m2.

(** [series.isin(values)] for a list of strings. *)
Definition isin (values : list string) (x : cell) : bool :=
  match x with
  | CStr s => bool_decide (s ∈ values)
  | _ => false
  end.

(** [row[c]] on a row that [df.iterrows()] yields. *)
Definition row_getitem (df : table) (r : row) (c frame : string) : result cell :=
  if has_column df c then Ok (at_col c r)
  else raise KeyError ("'" +:+ c +:+ "'") frame.

(** [series.dropna()] *)
Definition dropna (s : list cell) : list cell :=
  List.filter (fun x => negb (isna x)) s.

(** [series.mean()]: the mean of the values that are present, [None] for
    pandas' NA when there is none. *)
Fixpoint present (s : list cell) (frame : string) : result (list Q) :=
  match s with
  | [] => Ok []
  | CNum q :: s' => qs ← present s' frame; Ok (q :: qs)
  | CStr _ :: _ => raise TypeError "Could not convert string to numeric" frame
  | _ :: s' => present s' frame
  end.

Definition Qsum (l : list Q) : Q := fold_right Qplus 0%Q l.

Definition Qmean (l : list Q) : Q := (Qsum l / inject_Z (Z.of_nat (length l)))%Q.

Definition series_mean (s : list cell) (frame : string) : result (option Q) :=
  qs ← present s frame;
  Ok (match qs with [] => None | _ => Some (Qmean qs) end).

(** [pd.to_numeric(x, errors='coerce')] on one cell; [None] is [nan].
    [str_to_num] is the number that pandas reads from a string, if any. *)
Definition to_numeric (str_to_num : string -> option Q) (x : cell) : option Q :=
  match x with
  | CNum q => Some q
  | CStr s => str_to_num s
  | CNaN | CNone => None
  end.

End Pandas.
Import Pandas.

(** ** Filter_component.py *)

Module Filter_component.

(** The filter set.  The numeric bounds are the numbers that
    [float(filters[...])] yields. *)
Record filters := Filters {
  genre_multiselect_filter : list string;
  artist_multiselect_filter : list string;
  popularity_min : Q;   popularity_max : Q;
  energy_min : Q;       energy_max : Q;
  danceability_min : Q; danceability_max : Q;
  valence_min : Q;      valence_max : Q;
  tempo_min : Q;        tempo_max : Q;
  duration_min : Q;     duration_max : Q
}.

(** The defaults that [component()] gives the controls. *)
Definition default_filters : filters :=
  Filters ["all"] ["all"] 0%Q 100%Q 0%Q 1%Q 0%Q 1%Q 0%Q 1%Q 0%Q 220%Q 18%Q 5400%Q.

Definition frame : string := "  in filter_data" +:+ nl.

(** [any(genre in x for genre in selected_genres)] *)
Fixpoint any_genre_in (selected_genres : list string) (x : cell) : result bool :=
  match selected_genres with
  | [] => Ok false
  | genre :: rest =>
      b ← py_in genre x;
      if b : bool then Ok true else any_genre_in rest x
  end.

(** [lambda x: any(...) if x and x != "[]" else False] *)
Definition genre_lambda (selected_genres : list string) (x : cell) : result bool :=
  if truthy x && negb (eq_str x "[]") then any_genre_in selected_genres x
  else Ok false.

(** [len(sel) > 0 and "all" not in sel] *)
Definition active (sel : list string) : bool :=
  (0 <? length sel)%nat && negb (bool_decide ("all" ∈ sel)).

Definition filter_genre (f : filters) (df : table) : result table :=
  if active (genre_multiselect_filter f) then
    genres ← getitem df "genres" frame;
    mask ← series_apply (genre_lambda (genre_multiselect_filter f)) genres;
    getitem_series df mask frame
  else Ok df.

Definition filter_artist (f : filters) (df : table) : result table :=
  if active (artist_multiselect_filter f) then
    artists ← getitem df "artists" frame;
    Ok (getitem_mask df (map (isin (artist_multiselect_filter f)) artists))
  else Ok df.

(** [if c in df.columns: df = df[df[c] >= lo]; df = df[df[c] <= hi]] *)
Definition filter_range (c : string) (lo hi : Q) (df : table) : result table :=
  if has_column df c then
    s ← getitem df c frame;
    m ← series_ge s lo frame;
    let df := getitem_mask df m in
    s ← getitem df c frame;
    m ← series_le s hi frame;
    Ok (getitem_mask df m)
  else Ok df.

(** The duration filter: one mask over [duration_ms / 1000]. *)
Definition filter_duration (lo hi : Q) (df : table) : result table :=
  if has_column df "duration_ms" then
    s ← getitem df "duration_ms" frame;
    duration_seconds ← series_div s 1000%Q frame;
    m1 ← series_ge duration_seconds lo frame;
    m2 ← series_le duration_seconds hi frame;
    Ok (getitem_mask df (mask_and m1 m2))
  else Ok df.

Definition filter_data (df : table) (f : filters) : result table :=
  df ← filter_genre f df;
  df ← filter_artist f df;
  df ← filter_range "popularity" (popularity_min f) (popularity_max f) df;
  df ← filter_range "energy" (energy_min f) (energy_max f) df;
  df ← filter_range "danceability" (danceability_min f) (danceability_max f) df;
  df ← filter_range "valence" (valence_min f) (valence_max f) df;
  df ← filter_range "tempo" (tempo_min f) (tempo_max f) df;
  filter_duration (duration_min f) (duration_max f) df.

(** [display_count]: the two counts that the row-count text shows,
    filtered first. *)
Definition display_count (data : table) (f : filters) : result (nat * nat) :=
  let count := len data in
  filtered_df ← filter_data data f;
  let filtered_count := len filtered_df in
  Ok (filtered_count, count).

End Filter_component.

(** ** The genre list parser *)

Module Genre_Evolution_line_chart.

Definition frame : string := "  in _update_logic" +:+ nl.

(** The body of the [try] that [_update_logic] runs on [row['genres']]:
    the tokens the row contributes to [df_expanded]. *)
Definition row_genres_body (genres_str : cell) : result (list string) :=
  if eq_str genres_str "[]" || isna genres_str then Ok []
  else
    genres_str ← cell_strip genres_str "[]" frame;
    if negb (nonempty genres_str) then Ok []
    else
      let genres :=
        map (fun g => strip_chars quotes (strip g)) (split ","%char genres_str) in
      let genres := List.filter nonempty genres in
      Ok (List.filter nonempty genres).

(** [try: ... except: continue] around one row. *)
Definition row_genres (df : table) (r : row) : result (list string) :=
  try_except
    (genres_str ← row_getitem df r "genres" frame; row_genres_body genres_str)
    (fun _ => Ok []).

(** The parser on the serialized list alone. *)
Definition parse (genres_str : cell) : result (list string) :=
  try_except (row_genres_body genres_str) (fun _ => Ok []).

(** [df_expanded]: a copy of the row for each of its tokens. *)
Definition df_expanded (df : table) : result (list (row * string)) :=
  per_row ← mapM (fun r => gs ← row_genres df r; Ok (map (pair r) gs)) (rows df);
  Ok (concat per_row).

End Genre_Evolution_line_chart.

Module Filter_component_genres.

Definition frame : string := "  in component" +:+ nl.

(** The loop body of [component()] for one entry of
    [df["genres"].dropna()]. *)
Definition entry_genres_body (genre_list_str : cell) : result (list string) :=
  genre_list_str ← cell_strip genre_list_str "[]" frame;
  if nonempty genre_list_str then
    let genres :=
      map (fun g => strip_chars quotes (strip g)) (split ","%char genre_list_str) in
    Ok (List.filter nonempty genres)
  else Ok [].

Definition entry_genres (genre_list_str : cell) : result (list string) :=
  if truthy genre_list_str && negb (eq_str genre_list_str "[]") then
    try_except (entry_genres_body genre_list_str) (fun _ => Ok [])
  else Ok [].

(** [all_genres] after the loop. *)
Definition all_genres (df : table) : result (list string) :=
  genres ← getitem df "genres" frame;
  per_entry ← mapM entry_genres (dropna genres);
  Ok (concat per_entry).

End Filter_component_genres.

(** ** Figures *)

Module Plotly.

(** A figure is either an empty [go.Figure()] whose layout carries a title
    and one annotation text, or a chart with a payload. *)
Inductive figure (P : Type) : Type :=
| Message (title text : string)
| Chart (payload : P).
Arguments Message {P} title text.
Arguments Chart {P} payload.

(** The summary cards next to a chart: [html.Div()] or the two cards. *)
Inductive summary :=
| NoCards
| Cards (total_tracks : nat) (avg_popularity : Q).

(** The body that every [_create_summary_cards] shares: no card for an empty
    table, else the number of tracks and the mean popularity, which is then
    formatted with one decimal. *)
Definition summary_cards_of (frame_cards : string) (df : table) : result summary :=
  if (len df =? 0)%nat then Ok NoCards
  else
    let total_tracks := len df in
    popularity ← getitem df "popularity" frame_cards;
    avg_popularity ← series_mean popularity frame_cards;
    match avg_popularity with
    | Some a => Ok (Cards total_tracks a)
    | None => raise TypeError "unsupported format string passed to NAType.__format__"
                frame_cards
    end.

(** The text that every chart callback builds in its [except] branch:
    [f"Error updating chart: {str(e)}\n{traceback.format_exc()}"]. *)
Definition error_msg (e : exn) : string :=
  "Error updating chart: " +:+ exc_str e +:+ nl +:+ format_exc e.

End Plotly.
Import Plotly.

(** ** Audio_correlation_heatmap_chart.py *)

Module Audio_correlation_heatmap_chart.
Import Filter_component.

Definition frame : string := "  in _update_logic" +:+ nl.
Definition frame_cards : string := frame +:+ "  in _create_summary_cards" +:+ nl.

(** The keyword arguments of the callback: the filter set and the two
    controls of the component ([None] is Python's [None]). *)
Record kwargs := Kwargs {
  filter_kwargs : filters;
  features : option (list string);
  significance : list string
}.

Definition _create_summary_cards (df : table) : result summary :=
  summary_cards_of frame_cards df.

(** Pearson's coefficient as [DataFrame.corr()] computes it on two complete
    columns of equal length: the sums are exact, the quotient is a real
    number, and a zero divisor gives [nan] ([None]). *)
Definition deviations (xs : list Q) : list Q :=
  map (fun x => (x - Qmean xs)%Q) xs.

Definition dot (a b : list Q) : Q := Qsum (zip_with Qmult a b).

Definition pearson (xs ys : list Q) : option R :=
  let dx := deviations xs in
  let dy := deviations ys in
  let d := (dot dx dx * dot dy dy)%Q in
  if Qeq_bool d 0%Q then None
  else Some (Q2R (dot dx dy) / sqrt (Q2R d))%R.

(** The heatmap payload: [z] and the selected features that label both
    axes, and whether significance stars are shown. *)
Record heatmap := HeatmapData {
  z : list (list (option R));
  axes : list string;
  stars : bool
}.

Section ToNumeric.

(** The number that [pd.to_numeric] reads from a string, if any. *)
Variable str_to_num : string -> option Q.


(** [df[selected_features]], coerced column by column. *)
Definition feature_data (df : table) (selected_features : list string)
  : list (list (option Q)) :=
  map (fun r => map (fun f => to_numeric str_to_num (at_col f r)) selected_features)
    (rows df).

(** [feature_data.dropna()]: the rows without a missing value. *)
Fixpoint complete (r : list (option Q)) : option (list Q) :=
  match r with
  | [] => Some []
  | Some q :: r' => option_map (cons q) (complete r')
  | None :: _ => None
  end.

Fixpoint dropna_rows (d : list (list (option Q))) : list (list Q) :=
  match d with
  | [] => []
  | r :: d' =>
      match complete r with
      | Some qs => qs :: dropna_rows d'
      | None => dropna_rows d'
      end
  end.

Definition column (i : nat) (d : list (list Q)) : list Q :=
  map (fun r => nth i r 0%Q) d.

(** [feature_data.corr()] over [n] columns. *)
Definition corr (n : nat) (d : list (list Q)) : list (list (option R)) :=
  map (fun i => map (fun j => pearson (column i d) (column j d)) (seq 0 n)) (seq 0 n).

Definition no_data : figure heatmap :=
  Message "No data available" "No data is available to display".
Definition select_at_least_2 : figure heatmap :=
  Message "Select at least 2 features"
    "Please select at least 2 audio features to display correlation matrix".
Definition no_valid_data : figure heatmap :=
  Message "No valid data" "No valid numeric data available for selected features".

(** [_update_logic] from the filtered table on. *)
Definition chart_of (df : table) (kw : kwargs) : result (figure heatmap * summary) :=
  summary_cards ← _create_summary_cards df;
  if (len df =? 0)%nat then Ok (no_data, summary_cards)
  else
    let show_significance := bool_decide ("enabled" ∈ significance kw) in
    match features kw with
    | None => Ok (select_at_least_2, summary_cards)
    | Some selected_features =>
        if (length selected_features <? 2)%nat then Ok (select_at_least_2, summary_cards)
        else
          (* df[selected_features] *)
          match List.find (fun f => negb (has_column df f)) selected_features with
          | Some f => raise KeyError ("['" +:+ f +:+ "'] not in index") frame
          | None =>
              (* a label selected twice makes feature_data[col] a frame *)
              if negb (bool_decide (NoDup selected_features)) then
                raise TypeError "arg must be a list, tuple, 1-d array, or Series" frame
              else
                let feature_data := dropna_rows (feature_data df selected_features) in
                if (length feature_data =? 0)%nat then Ok (no_valid_data, summary_cards)
                else
                  let corr_matrix := corr (length selected_features) feature_data in
                  Ok (Chart (HeatmapData corr_matrix selected_features show_significance),
                      summary_cards)
          end
    end.

Definition _update_logic (data : table) (kw : kwargs)
  : result (figure heatmap * summary) :=
  df ← filter_data data (filter_kwargs kw);
  chart_of df kw.

Definition empty_fig : figure heatmap :=
  Message "Error in chart" "An error occurred while updating this chart".

(** The callback: the figure, the error text and the summary cards. *)
Definition update (data : table) (kw : kwargs)
  : result (figure heatmap * string * summary) :=
  try_except
    (r ← _update_logic data kw;
     let '(figure, summary_cards) := r in
     Ok (figure, "", summary_cards))
    (fun e => Ok (empty_fig, error_msg e, NoCards)).

End ToNumeric.

End Audio_correlation_heatmap_chart.

(** ** Data_cards.py *)

Module Data_cards.
Import Filter_component.

Definition frame : string := "  in update" +:+ nl.

(** The three card values: the texts "No Data", the texts "Error", or the
    track count with the two averages before they are formatted. *)
Inductive cards :=
| NoData
| Values (total_tracks : nat) (avg_popularity avg_duration_minutes : Q)
| Error.

Definition format_mean (m : option Q) : result Q :=
  match m with
  | Some a => Ok a
  | None => raise TypeError "unsupported format string passed to NAType.__format__" frame
  end.

(** The [try] block of [update]. *)
Definition update_try (data : table) (f : filters) : result cards :=
  df ← filter_data data f;
  if (len df =? 0)%nat then Ok NoData
  else
    let total_tracks := len df in
    popularity ← getitem df "popularity" frame;
    avg_popularity ← series_mean popularity frame;
    duration_ms ← getitem df "duration_ms" frame;
    avg_duration ← series_mean duration_ms frame;
    let avg_duration_minutes := option_map (fun a => (a / 60000)%Q) avg_duration in
    p ← format_mean avg_popularity;
    d ← format_mean avg_duration_minutes;
    Ok (Values total_tracks p d).

(** The callback: on any exception the three cards read "Error"; the
    diagnostic is printed, not returned. *)
Definition update (data : table) (f : filters) : result cards :=
  try_except (update_try data f) (fun _ => Ok Error).



End Data_cards.

(** ** Tempo_energy_chart.py *)

Module Tempo_energy_chart.
Import Filter_component.

Definition frame : string := "  in _update_logic" +:+ nl.
Definition frame_cards : string := frame +:+ "  in _create_summary_cards" +:+ nl.

(** The keyword arguments of the callback: the filter set and the controls
    of the component.  The two number inputs give a number or [None]. *)
Record kwargs := Kwargs {
  filter_kwargs : filters;
  plot_tempo_min : option Q;
  plot_tempo_max : option Q;
  genre_overlay : string
}.

Definition _create_summary_cards (df : table) : result summary :=
  summary_cards_of frame_cards df.

(** What [px.density_heatmap] is given: the tempo and the energy of every
    track in range, and whether the genre clusters are drawn over it (the
    cluster traces themselves are not modelled). *)
Record density := Density { points : list (Q * Q); overlay : bool }.

Section ToNumeric.

Variable str_to_num : string -> option Q.

(** The text of a float in an f-string. *)
Variable float_str : Q -> string.

Definition no_data : figure density :=
  Message "No data available" "No data is available to display".

Definition no_tracks_in_range (tempo_min tempo_max : Q) : figure density :=
  Message "No data in selected tempo range"
    ("No tracks found in tempo range " +:+ float_str tempo_min +:+ "-"
     +:+ float_str tempo_max +:+ " BPM").

(** [df.dropna(subset=['tempo', 'energy'])] on the two coerced columns. *)
Fixpoint dropna_pairs (tempo energy : list (option Q)) : list (Q * Q) :=
  match tempo, energy with
  | Some t :: tempo', Some e :: energy' => (t, e) :: dropna_pairs tempo' energy'
  | _ :: tempo', _ :: energy' => dropna_pairs tempo' energy'
  | _, _ => []
  end.

(** The mask [(df['tempo'] >= tempo_min) & (df['tempo'] <= tempo_max)]. *)
Definition in_tempo_range (tempo_min tempo_max : Q) (p : Q * Q) : bool :=
  Qle_bool tempo_min (fst p) && Qle_bool (fst p) tempo_max.

Definition _update_logic (data : table) (kw : kwargs)
  : result (figure density * summary) :=
  df ← filter_data data (filter_kwargs kw);
  summary_cards ← _create_summary_cards df;
  if (len df =? 0)%nat then Ok (no_data, summary_cards)
  else
    let tempo_min := default 60%Q (plot_tempo_min kw) in
    let tempo_max := default 180%Q (plot_tempo_max kw) in
    tempo ← getitem df "tempo" frame;
    energy ← getitem df "energy" frame;
    let df := dropna_pairs (map (to_numeric str_to_num) tempo)
                           (map (to_numeric str_to_num) energy) in
    let df_filtered := List.filter (in_tempo_range tempo_min tempo_max) df in
    if (length df_filtered =? 0)%nat then
      Ok (no_tracks_in_range tempo_min tempo_max, summary_cards)
    else
      Ok (Chart (Density df_filtered (String.eqb (genre_overlay kw) "show")),
          summary_cards).

Definition empty_fig : figure density :=
  Message "Error in chart" "An error occurred while updating this chart".

Definition update (data : table) (kw : kwargs)
  : result (figure density * string * summary) :=
  try_except
    (r ← _update_logic data kw;
     let '(figure, summary_cards) := r in
     Ok (figure, "", summary_cards))
    (fun e => Ok (empty_fig, error_msg e, NoCards)).

End ToNumeric.

End Tempo_energy_chart.

(** ** Genre_fingerprint_chart.py: the normalization of the heatmap *)

Module Genre_fingerprint_chart.

Definition frame : string := "  in _update_logic" +:+ nl.

Definition audio_features : list string :=
  ["acousticness"; "danceability"; "energy"; "instrumentalness";
   "liveness"; "speechiness"; "valence"].

(** [heatmap_data]: one row per genre, one entry per audio feature. *)
Abbreviation matrix := (list (list Q)).

(** [a[:, i]] *)
Fixpoint get_column (a : matrix) (i : nat) : result (list Q) :=
  match a with
  | [] => Ok []
  | r :: a' =>
      match r !! i with
      | Some v => vs ← get_column a' i; Ok (v :: vs)
      | None => raise IndexError "index is out of bounds for axis 1" frame
      end
  end.

(** [a[:, i] = values], row by row. *)
Fixpoint set_column (i : nat) (values : list Q) (a : matrix) : matrix :=
  match a, values with
  | r :: a', v :: values' => <[i := v]> r :: set_column i values' a'
  | _, _ => a
  end.

(** [a[:, i] = c] for a scalar. *)
Definition fill_column (i : nat) (c : Q) (a : matrix) : matrix :=
  map (fun r => <[i := c]> r) a.

(** [np.zeros_like(a)] *)
Definition zeros_like (a : matrix) : matrix :=
  map (map (fun _ => 0%Q)) a.

Definition zero_size (op : string) : string :=
  "zero-size array to reduction operation " +:+ op +:+ " which has no identity".

(** [np.min(a)] and [np.max(a)]; an empty array has neither. *)
Definition np_min (a : list Q) : result Q :=
  match a with
  | [] => raise ValueError (zero_size "minimum") frame
  | x :: xs => Ok (fold_left Qmin xs x)
  end.

Definition np_max (a : list Q) : result Q :=
  match a with
  | [] => raise ValueError (zero_size "maximum") frame
  | x :: xs => Ok (fold_left Qmax xs x)
  end.

Definition Qlt_bool (a b : Q) : bool := negb (Qle_bool b a).

(** One round of the loop over [enumerate(audio_features)]. *)
Definition normalize_feature (heatmap_data heatmap_data_normalized : matrix) (i : nat)
  : result matrix :=
  feature_values ← get_column heatmap_data i;
  min_val ← np_min feature_values;
  max_val ← np_max feature_values;
  if Qlt_bool min_val max_val then
    Ok (set_column i
          (map (fun v => ((v - min_val) / (max_val - min_val))%Q) feature_values)
          heatmap_data_normalized)
  else
    Ok (fill_column i (1 # 2)%Q heatmap_data_normalized).

Fixpoint normalize_loop (heatmap_data acc : matrix) (indices : list nat)
  : result matrix :=
  match indices with
  | [] => Ok acc
  | i :: rest =>
      acc' ← normalize_feature heatmap_data acc i;
      normalize_loop heatmap_data acc' rest
  end.

(** The branch [if normalization == 'normalized'] of [_update_logic]. *)
Definition normalize (heatmap_data : matrix) : result matrix :=
  normalize_loop heatmap_data (zeros_like heatmap_data)
    (seq 0 (length audio_features)).

End Genre_fingerprint_chart.

(** ** numpy: the argsort behind [sort_values]

    pandas sorts a column with [numpy.argsort(kind='quicksort')].  The
    definitions follow the scalar introsort of numpy
    ([npysort/quicksort.cpp], [aquicksort_]): median of three, partitions of
    at most 16 entries left to an insertion sort. *)

#[global] Instance Q_inhabited : Inhabited Q := populate 0%Q.

Module Numpy.

Definition SMALL_QUICKSORT : nat := 16.

(** [a < b] on two keys that are not [nan]. *)
Definition less (a b : Q) : bool := negb (Qle_bool b a).

(** [npy_get_msb]: the position of the highest bit that is set. *)
Definition npy_get_msb (n : nat) : Z := Z.log2 (Z.of_nat n).

Section Quicksort.

(** The keys; [tosort] holds indices into them. *)
Variable v : list Q.

Definition key (tosort : list nat) (p : nat) : Q := v !!! (tosort !!! p).

(** [INTP_SWAP] of the entries at [p] and [q]. *)
Definition swap (p q : nat) (tosort : list nat) : list nat :=
  <[q := tosort !!! p]> (<[p := tosort !!! q]> tosort).

Definition swap_if_less (p q : nat) (tosort : list nat) : list nat :=
  if less (key tosort p) (key tosort q) then swap p q tosort else tosort.

(** [do { ++pi; } while (less(v[*pi], vp));] *)
Fixpoint scan_up (fuel : nat) (tosort : list nat) (vp : Q) (pi : nat) : nat :=
  match fuel with
  | O => pi
  | S fuel' =>
      let pi := S pi in
      if less (key tosort pi) vp then scan_up fuel' tosort vp pi else pi
  end.

(** [do { --pj; } while (less(vp, v[*pj]));] *)
Fixpoint scan_down (fuel : nat) (tosort : list nat) (vp : Q) (pj : nat) : nat :=
  match fuel with
  | O => pj
  | S fuel' =>
      let pj := Nat.pred pj in
      if less vp (key tosort pj) then scan_down fuel' tosort vp pj else pj
  end.

(** The [for (;;)] loop of the partition; returns the array and [pi]. *)
Fixpoint partition_loop (fuel : nat) (tosort : list nat) (vp : Q) (pi pj : nat)
  : list nat * nat :=
  match fuel with
  | O => (tosort, pi)
  | S fuel' =>
      let pi := scan_up (length tosort) tosort vp pi in
      let pj := scan_down (length tosort) tosort vp pj in
      if (pj <=? pi)%nat then (tosort, pi)
      else partition_loop fuel' (swap pi pj tosort) vp pi pj
  end.

(** The inner [while (pj > pl && less(vp, v[*pk]))] of the insertion sort. *)
Fixpoint shift_right (fuel : nat) (tosort : list nat) (vp : Q) (pl pj : nat)
  : list nat * nat :=
  match fuel with
  | O => (tosort, pj)
  | S fuel' =>
      if (pl <? pj)%nat && less vp (key tosort (Nat.pred pj)) then
        shift_right fuel' (<[pj := tosort !!! Nat.pred pj]> tosort) vp pl (Nat.pred pj)
      else (tosort, pj)
  end.

Definition insert_at (pl : nat) (tosort : list nat) (pi : nat) : list nat :=
  let vi := tosort !!! pi in
  let vp := v !!! vi in
  let '(tosort, pj) := shift_right (length tosort) tosort vp pl pi in
  <[pj := vi]> tosort.

(** [for (pi = pl + 1; pi <= pr; ++pi)] *)
Definition insertion_sort (tosort : list nat) (pl pr : nat) : list nat :=
  fold_left (insert_at pl) (seq (S pl) (pr - pl)) tosort.

(** The saved partitions: [pl], [pr] and the depth left. *)
Abbreviation stack := (list (nat * nat * Z)).

(** [while ((pr - pl) > SMALL_QUICKSORT)]: partition around the median of
    three, push the larger side and go on with the smaller. *)
Fixpoint partition_while (fuel : nat) (tosort : list nat) (pl pr : nat) (cdepth : Z)
  (saved : stack) : list nat * nat * nat * stack :=
  match fuel with
  | O => (tosort, pl, pr, saved)
  | S fuel' =>
      if (SMALL_QUICKSORT <? pr - pl)%nat then
        let pm := (pl + (pr - pl) / 2)%nat in
        let tosort := swap_if_less pm pl tosort in
        let tosort := swap_if_less pr pm tosort in
        let tosort := swap_if_less pm pl tosort in
        let vp := key tosort pm in
        let pj := Nat.pred pr in
        let tosort := swap pm pj tosort in
        let '(tosort, pi) := partition_loop (length tosort) tosort vp pl pj in
        let pk := Nat.pred pr in
        let tosort := swap pi pk tosort in
        let cdepth := (cdepth - 1)%Z in
        if (pi - pl <? pr - pi)%nat then
          partition_while fuel' tosort pl (Nat.pred pi) cdepth
            ((S pi, pr, cdepth) :: saved)
        else
          partition_while fuel' tosort (S pi) pr cdepth
            ((pl, Nat.pred pi, cdepth) :: saved)
      else (tosort, pl, pr, saved)
  end.

(** The outer [while (1)].  [None] stands for the heap sort that takes over
    when the depth is used up, which is not modelled, and for the fuel
    running out. *)
Fixpoint quicksort_loop (fuel : nat) (tosort : list nat) (pl pr : nat) (cdepth : Z)
  (saved : stack) : option (list nat) :=
  match fuel with
  | O => None
  | S fuel' =>
      if (cdepth <? 0)%Z then None
      else
        let '(tosort, pl, pr, saved) :=
          partition_while (length tosort) tosort pl pr cdepth saved in
        let tosort := insertion_sort tosort pl pr in
        match saved with
        | [] => Some tosort
        | (pl, pr, cdepth) :: saved => quicksort_loop fuel' tosort pl pr cdepth saved
        end
  end.

End Quicksort.

(** [aquicksort_]: the argsort behind [kind='quicksort'] where numpy runs its
    generic code. *)
Definition aquicksort (v : list Q) : option (list nat) :=
  let num := length v in
  quicksort_loop v (S num) (seq 0 num) 0 (Nat.pred num) (npy_get_msb num * 2) [].

(** [numpy.argsort(v, kind='quicksort')] *)
Definition argsort (v : list Q) : list nat := default [] (aquicksort v).

End Numpy.

(** ** Bar_chart.py *)

Module Bar_chart.
Import Filter_component.

Definition frame : string := "  in _update_logic" +:+ nl.

(** The keyword arguments of the callback: the filter set, the column to
    group by and the number of bars ([None] is Python's [None]). *)
Record kwargs := Kwargs {
  filter_kwargs : filters;
  groupby : option string;
  limit : option nat
}.

Definition key_names : list (Z * string) :=
  [(0, "C"); (1, "C#"); (2, "D"); (3, "D#"); (4, "E"); (5, "F");
   (6, "F#"); (7, "G"); (8, "G#"); (9, "A"); (10, "A#"); (11, "B")]%Z.

Definition mode_names : list (Z * string) := [(0, "Minor"); (1, "Major")]%Z.

Fixpoint dict_get (names : list (Z * string)) (k : Z) : option string :=
  match names with
  | [] => None
  | (k', name) :: rest => if (k =? k')%Z then Some name else dict_get rest k
  end.

(** [series.map(names)]: the name of a key of the dict, [nan] for any other
    value. *)
Definition map_names (names : list (Z * string)) (x : cell) : cell :=
  match x with
  | CNum q =>
      if Qeq_bool q (inject_Z (Qfloor q)) then
        match dict_get names (Qfloor q) with
        | Some name => CStr name
        | None => CNaN
        end
      else CNaN
  | _ => CNaN
  end.

(** The label of a row in the group column; a missing label puts the row
    in no group. *)
Definition label_of (x : cell) : option string :=
  match x with
  | CStr s => Some s
  | _ => None
  end.

(** The order of Python on [str]. *)
Definition str_le (a b : string) : Prop := String.leb a b = true.

#[global] Instance str_le_dec : RelDecision str_le :=
  fun a b => decide (String.leb a b = true).

(** The groups of [df.groupby(column)]: every label once, ascending. *)
Definition group_labels (keys : list cell) : list string :=
  merge_sort str_le (remove_dups (omap label_of keys)).

(** The values of the rows of one group. *)
Fixpoint group_values (label : string) (keys values : list cell) : list cell :=
  match keys, values with
  | k :: keys', x :: values' =>
      if eq_str k label then x :: group_values label keys' values'
      else group_values label keys' values'
  | _, _ => []
  end.

(** [df.groupby(column)['popularity'].mean().reset_index()] *)
Definition groupby_mean (keys popularity : list cell)
  : result (list (string * option Q)) :=
  mapM (fun label =>
          m ← series_mean (group_values label keys popularity) frame;
          Ok (label, m))
       (group_labels keys).

Section Sorting.

(** [numpy.argsort(v, kind='quicksort')], which pandas calls. *)
Variable argsort : list Q -> list nat.

(** The present entries of a column with their positions. *)
Fixpoint non_nan (i : nat) (items : list (option Q)) : list (nat * Q) :=
  match items with
  | [] => []
  | Some q :: items' => (i, q) :: non_nan (S i) items'
  | None :: items' => non_nan (S i) items'
  end.

Fixpoint nan_idx (i : nat) (items : list (option Q)) : list nat :=
  match items with
  | [] => []
  | Some _ :: items' => nan_idx (S i) items'
  | None :: items' => i :: nan_idx (S i) items'
  end.

(** pandas' [nargsort(items, kind='quicksort', ascending=False,
    na_position='last')]: the present values are reversed, sorted ascending
    by [argsort], and the result is reversed again; the missing ones go
    last. *)
Definition nargsort (items : list (option Q)) : list nat :=
  let non_nans := reverse (map snd (non_nan 0 items)) in
  let non_nan_idx := reverse (map fst (non_nan 0 items)) in
  let indexer := map (fun p => non_nan_idx !!! p) (argsort non_nans) in
  reverse indexer ++ nan_idx 0 items.

(** [grouped.sort_values('popularity', ascending=False)] *)
Definition sort_values (grouped : list (string * option Q)) : list (string * option Q) :=
  omap (fun i => grouped !! i) (nargsort (map snd grouped)).

(** One bar: the text over it formats the mean, which fails on NA. *)
Definition bar (g : string * option Q) : result (string * Q) :=
  match snd g with
  | Some m => Ok (fst g, m)
  | None => raise TypeError "unsupported format string passed to NAType.__format__" frame
  end.

Definition no_data : figure (list (string * Q)) :=
  Message "No data available" "No data is available to display".

(** The group column: the artists, or the names of the keys or modes. *)
Definition group_keys (df : table) (groupby_value : string) : result (list cell) :=
  if String.eqb groupby_value "key" then
    key ← getitem df "key" frame;
    Ok (map (map_names key_names) key)
  else if String.eqb groupby_value "mode" then
    mode ← getitem df "mode" frame;
    Ok (map (map_names mode_names) mode)
  else getitem df "artists" frame.

Definition _update_logic (data : table) (kw : kwargs)
  : result (figure (list (string * Q)) * summary) :=
  df ← filter_data data (filter_kwargs kw);
  if (len df =? 0)%nat then Ok (no_data, NoCards)
  else
    let groupby_value := default "artists" (groupby kw) in
    let limit_value := default 15%nat (limit kw) in
    let total_tracks := len df in
    popularity ← getitem df "popularity" frame;
    avg_popularity ← series_mean popularity frame;
    keys ← group_keys df groupby_value;
    grouped ← groupby_mean keys popularity;
    let grouped := take limit_value (sort_values grouped) in
    bars ← mapM bar grouped;
    match avg_popularity with
    | Some a => Ok (Chart bars, Cards total_tracks a)
    | None => raise TypeError "unsupported format string passed to NAType.__format__" frame
    end.

Definition empty_fig : figure (list (string * Q)) :=
  Message "Error in chart" "An error occurred while updating this chart".

Definition update (data : table) (kw : kwargs)
  : result (figure (list (string * Q)) * string * summary) :=
  try_except
    (r ← _update_logic data kw;
     let '(figure, summary_cards) := r in
     Ok (figure, "", summary_cards))
    (fun e => Ok (empty_fig, error_msg e, NoCards)).

End Sorting.

End Bar_chart.

(** ** Filter_component.py: the options of the genre control *)

Module Filter_component_options.

(** [sorted(...)] on a list of [str]. *)
Definition sorted (l : list string) : list string := merge_sort Bar_chart.str_le l.

(** [unique_genres = sorted(list(set(all_genres)))] *)
Definition unique_genres (df : table) : result (list string) :=
  all_genres ← Filter_component_genres.all_genres df;
  Ok (sorted (remove_dups all_genres)).

(** The values of the options of the genre dropdown:
    [[{"label": "All", "value": "all"}] + [... for g in unique_genres]]. *)
Definition genre_options (df : table) : result (list string) :=
  unique_genres ← unique_genres df;
  Ok ("all" :: unique_genres).

End Filter_component_options.

(** ** Genre_fingerprint_chart.py: the tracks of every genre *)

Module Genre_fingerprint_tracks.
Import Filter_component.

Definition frame : string := "  in _update_logic" +:+ nl.

(** The columns that the loop copies into an entry of [genre_tracks]. *)
Definition track_features : list string :=
  ["acousticness"; "danceability"; "energy"; "instrumentalness"; "liveness";
   "speechiness"; "valence"; "popularity"].

(** An entry of [genre_tracks]: the genre and the values of
    [track_features] of the row. *)
Abbreviation genre_track := (string * list cell)%type.

(** The body of the [try] for one row of [df.iterrows()]. *)
Definition row_tracks_body (df : table) (r : row) : result (list genre_track) :=
  genres_str ← row_getitem df r "genres" frame;
  if truthy genres_str && negb (eq_str genres_str "[]") then
    genres_str ← cell_strip genres_str "[]" frame;
    if nonempty genres_str then
      let genres :=
        map (fun g => strip_chars quotes (strip g)) (split ","%char genres_str) in
      let genres := List.filter nonempty genres in
      mapM (fun genre =>
              values ← mapM (fun c => row_getitem df r c frame) track_features;
              Ok (genre, values))
           genres
    else Ok []
  else Ok [].

(** [try: ... except Exception as e: continue] *)
Definition row_tracks (df : table) (r : row) : result (list genre_track) :=
  try_except (row_tracks_body df r) (fun _ => Ok []).

Definition genre_tracks (df : table) : result (list genre_track) :=
  per_row ← mapM (row_tracks df) (rows df);
  Ok (concat per_row).

Section Aggregation.

(** The payload of the heatmap, and the part of [_update_logic] that builds
    it from a non-empty [genre_tracks]. *)
Variable P : Type.
Variable heatmap_of : table -> list genre_track -> result (figure P * summary).

Definition no_data : figure P :=
  Message "No data available" "No data is available to display".
Definition no_genre_data : figure P :=
  Message "No genre data available" "No valid genre data found in the filtered dataset".

Definition _update_logic (data : table) (f : filters) : result (figure P * summary) :=
  df ← filter_data data f;
  if (len df =? 0)%nat then Ok (no_data, NoCards)
  else
    genre_tracks ← genre_tracks df;
    match genre_tracks with
    | [] => Ok (no_genre_data, NoCards)
    | _ => heatmap_of df genre_tracks
    end.

End Aggregation.

End Genre_fingerprint_tracks.

(** ** More of Python's [str] *)

Module Py_str.

(** [s.title()] for a text of ASCII characters: a letter after a letter is
    put in lower case, any other letter in upper case. *)
Definition is_lower (c : ascii) : bool :=
  (97 <=? nat_of_ascii c)%nat && (nat_of_ascii c <=? 122)%nat.
Definition is_upper (c : ascii) : bool :=
  (65 <=? nat_of_ascii c)%nat && (nat_of_ascii c <=? 90)%nat.
Definition upper (c : ascii) : ascii :=
  if is_lower c then ascii_of_nat (nat_of_ascii c - 32) else c.
Definition lower (c : ascii) : ascii :=
  if is_upper c then ascii_of_nat (nat_of_ascii c + 32) else c.

Fixpoint title_from (previous_is_cased : bool) (s : string) : string :=
  match s with
  | EmptyString => EmptyString
  | String c s' =>
      if is_lower c || is_upper c then
        String (if previous_is_cased then lower c else upper c) (title_from true s')
      else String c (title_from false s')
  end.

Definition title (s : string) : string := title_from false s.

(** [s.replace(c, d)] for two characters. *)
Definition replace_char (c d : ascii) (s : string) : string :=
  string_of_list_ascii
    (map (fun a => if Ascii.eqb a c then d else a) (list_ascii_of_string s)).

End Py_str.

(** ** Artist_spotlight_radar_chart.py *)

Module Artist_spotlight_radar_chart.
Import Filter_component Py_str.

Definition frame : string := "  in _update_logic" +:+ nl.

(** The keyword arguments of the callback: the filter set, the artist of
    the dropdown and the value of the checklist ([None] is Python's
    [None]). *)
Record kwargs := Kwargs {
  filter_kwargs : filters;
  artist : option string;
  compare : option (list string)
}.

Definition audio_features : list string :=
  ["acousticness"; "danceability"; "energy"; "instrumentalness";
   "liveness"; "speechiness"; "valence"].

(** The two traces of the radar: the averages of the artist with their
    labels, and the averages of the whole filtered table when the
    comparison is on. *)
Record radar := Radar {
  name : string;
  r : list (option Q);
  theta : list string;
  dataset_average : option (list (option Q))
}.

Definition no_data : figure radar :=
  Message "No data available" "No data is available to display".
Definition please_select : figure radar :=
  Message "Please select an artist" "Please select an artist from the dropdown".
Definition no_data_for (selected_artist : string) : figure radar :=
  Message "No data for selected artist" ("No data available for " +:+ selected_artist).
Definition no_features : figure radar :=
  Message "No audio features available"
    "No audio features data available for this artist".

(** The loop over [audio_features] that fills [artist_values] and
    [feature_labels]: a feature that is not a column is skipped. *)
Fixpoint averages (df : table) (features : list string)
  : result (list (option Q) * list string) :=
  match features with
  | [] => Ok ([], [])
  | feature :: rest =>
      if has_column df feature then
        column ← getitem df feature frame;
        avg_value ← series_mean column frame;
        r ← averages df rest;
        Ok (avg_value :: r.1, title feature :: r.2)
      else averages df rest
  end.

(** ['enabled' in kwargs.get(..., [])] *)
Definition enabled (compare : option (list string)) : result bool :=
  match compare with
  | Some values => Ok (bool_decide ("enabled" ∈ values))
  | None => raise TypeError "argument of type 'NoneType' is not iterable" frame
  end.

Definition _update_logic (data : table) (kw : kwargs) : result (figure radar) :=
  df ← filter_data data (filter_kwargs kw);
  if (len df =? 0)%nat then Ok no_data
  else
    compare_enabled ← enabled (compare kw);
    match artist kw with
    | None => Ok please_select
    | Some selected_artist =>
        if negb (nonempty selected_artist) then Ok please_select
        else
          artists ← getitem df "artists" frame;
          let artist_df :=
            getitem_mask df (map (fun x => eq_str x selected_artist) artists) in
          if (len artist_df =? 0)%nat then Ok (no_data_for selected_artist)
          else
            artist ← averages artist_df audio_features;
            let '(artist_values, feature_labels) := artist in
            match artist_values with
            | [] => Ok no_features
            | _ =>
                if compare_enabled : bool then
                  genre ← averages df audio_features;
                  let genre_values := genre.1 in
                  match genre_values with
                  | [] => Ok (Chart (Radar selected_artist artist_values feature_labels None))
                  | _ => Ok (Chart (Radar selected_artist artist_values feature_labels
                                      (Some genre_values)))
                  end
                else Ok (Chart (Radar selected_artist artist_values feature_labels None))
            end
    end.

Definition empty_fig : figure radar :=
  Message "Error in chart" "An error occurred while updating this chart".

Definition update (data : table) (kw : kwargs) : result (figure radar * string) :=
  try_except
    (figure ← _update_logic data kw; Ok (figure, ""))
    (fun e => Ok (empty_fig, error_msg e)).

End Artist_spotlight_radar_chart.

(** ** Audio_feature_box_plot_chart.py *)

Module Audio_feature_box_plot_chart.
Import Filter_component.

Definition frame : string := "  in _update_logic" +:+ nl.

(** The keyword arguments of the callback: the filter set, the feature of
    the dropdown and the genres to compare ([None] is Python's [None]). *)
Record kwargs := Kwargs {
  filter_kwargs : filters;
  feature : option string;
  genres : option (list string)
}.

(** [s.replace(c, empty)] for one character [c] and the empty text. *)
Definition remove_char (c : ascii) (s : list ascii) : list ascii :=
  List.filter (fun a => negb (Ascii.eqb a c)) s.

Fixpoint is_prefix (sep s : list ascii) : bool :=
  match sep, s with
  | [], _ => true
  | a :: sep', b :: s' => Ascii.eqb a b && is_prefix sep' s'
  | _ :: _, [] => false
  end.

Definition cons_head (a : ascii) (pieces : list (list ascii)) : list (list ascii) :=
  match pieces with
  | p :: ps => (a :: p) :: ps
  | [] => [[a]]
  end.

(** [s.split(sep)] for a separator that is not empty: the text is cut at
    each occurrence of [sep], found from the left; [skip] counts the
    characters of an occurrence that are still to be passed over. *)
Fixpoint split_from (sep : list ascii) (skip : nat) (s : list ascii)
  : list (list ascii) :=
  match s with
  | [] => [[]]
  | a :: s' =>
      match skip with
      | S skip' => split_from sep skip' s'
      | O =>
          if is_prefix sep s then [] :: split_from sep (Nat.pred (length sep)) s'
          else cons_head a (split_from sep 0 s')
      end
  end.

Definition split_str (sep s : string) : list string :=
  map string_of_list_ascii
    (split_from (list_ascii_of_string sep) 0 (list_ascii_of_string s)).

(** The genres of a row: the brackets are stripped, every single and
    every double quote is removed, the text is split at each comma followed
    by a space, and the pieces that [strip()] does not empty are kept,
    stripped. *)
Definition row_genres (genre_str : string) : list string :=
  let body := list_ascii_of_string (strip_chars "[]" genre_str) in
  let body := remove_char (ascii_of_nat 34) (remove_char "'"%char body) in
  let genres := split_str ", " (string_of_list_ascii body) in
  map strip (List.filter (fun g => nonempty (strip g)) genres).

(** An entry of [plot_data]. *)
Record point := Point { genre : string; feature_value : cell; artist : cell }.

(** The entries that one row of [df.iterrows()] adds to [plot_data]. *)
Definition row_points (df : table) (selected_feature : string)
  (selected_genres : list string) (r : row) : result (list point) :=
  genre_str ← row_getitem df r "genres" frame;
  if negb (eq_str genre_str "[]") then
    genres ← match genre_str with
             | CStr s => Ok (row_genres s)
             | _ => raise AttributeError
                      ("'" +:+ type_name genre_str +:+ "' object has no attribute 'strip'")
                      frame
             end;
    per_genre ← mapM (fun genre =>
                  if bool_decide (genre ∈ selected_genres) then
                    value ← row_getitem df r selected_feature frame;
                    artist ← row_getitem df r "artists" frame;
                    Ok [Point genre value artist]
                  else Ok [])
                 genres;
    Ok (concat per_genre)
  else Ok [].

(** The two texts next to the chart: "0" and "0", or the number of tracks
    and the average popularity before they are formatted. *)
Inductive counts :=
| Zeros
| Counts (total_tracks : nat) (avg_popularity : Q).

Definition format_counts (total_tracks : nat) (avg_popularity : option Q) : result counts :=
  match avg_popularity with
  | Some a => Ok (Counts total_tracks a)
  | None => raise TypeError "unsupported format string passed to NAType.__format__" frame
  end.

Definition no_data : figure (list point) := Message "" "No data available".
Definition please_select : figure (list point) :=
  Message "" "Please select at least one genre to compare".
Definition no_data_for_genres : figure (list point) :=
  Message "" "No data available for selected genres".

Definition _update_logic (data : table) (kw : kwargs)
  : result (figure (list point) * counts) :=
  df ← filter_data data (filter_kwargs kw);
  if (len df =? 0)%nat then Ok (no_data, Zeros)
  else
    let total_tracks := len df in
    popularity ← getitem df "popularity" frame;
    avg_popularity ← series_mean popularity frame;
    let selected_feature := default "valence" (feature kw) in
    match genres kw with
    | None | Some [] =>
        c ← format_counts total_tracks avg_popularity; Ok (please_select, c)
    | Some selected_genres =>
        per_row ← mapM (row_points df selected_feature selected_genres) (rows df);
        let plot_data := concat per_row in
        match plot_data with
        | [] => c ← format_counts total_tracks avg_popularity; Ok (no_data_for_genres, c)
        | _ => c ← format_counts total_tracks avg_popularity; Ok (Chart plot_data, c)
        end
    end.

Definition empty_fig : figure (list point) :=
  Message "" "An error occurred while updating this chart".

Definition update (data : table) (kw : kwargs)
  : result (figure (list point) * string * counts) :=
  try_except
    (r ← _update_logic data kw;
     let '(figure, c) := r in
     Ok (figure, "", c))
    (fun e => Ok (empty_fig, error_msg e, Zeros)).

End Audio_feature_box_plot_chart.

(** ** Data_table.py *)

Module Data_table.
Import Filter_component Py_str.

Definition frame : string := "  in _update_logic" +:+ nl.

Definition important_columns : list string :=
  ["artists"; "genres"; "popularity"; "danceability"; "energy"; "valence";
   "acousticness"; "tempo"].

(** What the three dtype tests of pandas say about a column. *)
Inductive kind := Datetime | Numeric | Text | Other.

(** A column definition of the grid; the keys that a definition may lack
    are optional. *)
Inductive filter_value := FilterOn | FilterNamed (component : string).

Record col_def := ColDef {
  headerName : string;
  field : string;
  filter : filter_value;
  sortable : bool;
  type : option string;
  valueFormatter : option string;
  width : option nat
}.

Section Dtypes.

(** The dtype that the loader gave the column. *)
Variable dtype : string -> kind.

Definition make_col_def (col : string) : col_def :=
  let headerName := title (replace_char "_" " " col) in
  match dtype col with
  | Datetime =>
      ColDef headerName col FilterOn true None
        (Some "d3.timeFormat('%Y-%m-%d')(new Date(params.value))") None
  | Numeric =>
      ColDef headerName col (FilterNamed "agNumberColumnFilter") true (Some "numericColumn")
        (if bool_decide (col ∈ ["popularity"; "danceability"; "energy"; "valence";
                                "acousticness"])
         then Some "params.value?.toFixed(2)" else None)
        None
  | Text =>
      ColDef headerName col (FilterNamed "agTextColumnFilter") true None None
        (if bool_decide (col ∈ ["artists"; "genres"]) then Some 200%nat else None)
  | Other => ColDef headerName col FilterOn true None None None
  end.

(** The loop over [df.columns]; [n] is [len(column_defs)] so far. *)
Fixpoint column_defs (n : nat) (cols : list string) : list col_def :=
  match cols with
  | [] => []
  | col :: rest =>
      if String.prefix "_" col || String.eqb col "index" then column_defs n rest
      else if bool_decide (col ∈ important_columns) || (n <? 15)%nat then
        make_col_def col :: column_defs (S n) rest
      else column_defs n rest
  end.

(** A value of [row_data]: the empty text of a numeric column becomes
    [nan], and every missing value becomes [None]. *)
Definition clean (col : string) (x : cell) : cell :=
  let x := match dtype col with
           | Numeric => if eq_str x "" then CNaN else x
           | _ => x
           end in
  if isna x then CNone else x.

(** [df_cleaned.to_dict('records')], cleaned: one dict for each row, keyed
    by the columns. *)
Definition records (df : table) : list (gmap string cell) :=
  map (fun r => list_to_map (map (fun col => (col, clean col (at_col col r))) (columns df)))
    (rows df).

(** [df.head(n)] *)
Definition head (n : nat) (df : table) : table := Table (columns df) (take n (rows df)).

Definition _update_logic (data : table) (f : filters)
  : result (list col_def * list (gmap string cell)) :=
  df ← filter_data data f;
  if (len df =? 0)%nat then Ok ([], [])
  else
    let df := head (100 * 100) df in
    Ok (column_defs 0 (columns df), records df).

(** The callback of the grid: on an exception both outputs are empty. *)
Definition update_table (data : table) (f : filters)
  : result (list col_def * list (gmap string cell)) :=
  try_except (_update_logic data f) (fun _ => Ok ([], [])).

End Dtypes.

(** The summary over the grid: a text, or the two cards. *)
Inductive table_summary :=
| NoData
| SummaryCards (total_tracks : nat) (avg_popularity : Q)
| ErrorLoading.

(** The [try] block of [update_summary]. *)
Definition update_summary_try (data : table) (f : filters) : result table_summary :=
  df ← filter_data data f;
  if (len df =? 0)%nat then Ok NoData
  else
    let total_tracks := len df in
    avg_popularity ←
      (if has_column df "popularity" then
         popularity ← getitem df "popularity" frame;
         series_mean popularity frame
       else Ok (Some 0%Q));
    match avg_popularity with
    | Some a => Ok (SummaryCards total_tracks a)
    | None => raise TypeError "unsupported format string passed to NAType.__format__" frame
    end.

Definition update_summary (data : table) (f : filters) : result table_summary :=
  try_except (update_summary_try data f) (fun _ => Ok ErrorLoading).

End Data_table.

(** * Vocabulary of the properties *)

Import Filter_component.

(** ** Rows that the filter evaluator keeps *)

(** A present number between the bounds, both inclusive. *)
Definition in_range (lo hi : Q) (x : cell) : bool :=
  match x with
  | CNum q => Qle_bool lo q && Qle_bool q hi
  | _ => false
  end.

(** The duration cell in seconds. *)
Definition seconds (x : cell) : cell :=
  match x with
  | CNum q => CNum (q / 1000)%Q
  | _ => CNaN
  end.

Definition genre_cols (f : filters) (cols : list string) : Prop :=
  active (genre_multiselect_filter f) = true -> "genres" ∈ cols.
Definition genre_ok (f : filters) (cols : list string) (r : row) : Prop :=
  active (genre_multiselect_filter f) = true ->
  genre_lambda (genre_multiselect_filter f) (at_col "genres" r) = Ok true.
Definition artist_cols (f : filters) (cols : list string) : Prop :=
  active (artist_multiselect_filter f) = true -> "artists" ∈ cols.
Definition artist_ok (f : filters) (cols : list string) (r : row) : Prop :=
  active (artist_multiselect_filter f) = true ->
  isin (artist_multiselect_filter f) (at_col "artists" r) = true.
Definition range_ok (c : string) (lo hi : Q) (cols : list string) (r : row) : Prop :=
  c ∈ cols -> in_range lo hi (at_col c r) = true.
Definition duration_ok (lo hi : Q) (cols : list string) (r : row) : Prop :=
  "duration_ms" ∈ cols -> in_range lo hi (seconds (at_col "duration_ms" r)) = true.

(** The filters that [filter_data] applies after the genre filter. *)
Definition filter_rest (f : filters) (df : table) : result table :=
  df ← filter_artist f df;
  df ← filter_range "popularity" (popularity_min f) (popularity_max f) df;
  df ← filter_range "energy" (energy_min f) (energy_max f) df;
  df ← filter_range "danceability" (danceability_min f) (danceability_max f) df;
  df ← filter_range "valence" (valence_min f) (valence_max f) df;
  df ← filter_range "tempo" (tempo_min f) (tempo_max f) df;
  filter_duration (duration_min f) (duration_max f) df.

(** The genre filter reads the genres as a row mask: it is off, or the
    table has a row. *)
Definition masks_rows (f : filters) (df : table) : Prop :=
  active (genre_multiselect_filter f) = false \/ rows df <> [].

(** The columns an active category filter reads. *)
Definition cols_ok (f : filters) (cols : list string) : Prop :=
  genre_cols f cols /\ artist_cols f cols.

(** The conjunction of all predicates of a filter set on one row. *)
Definition row_ok (f : filters) (cols : list string) (r : row) : Prop :=
  genre_ok f cols r /\ artist_ok f cols r /\
  range_ok "popularity" (popularity_min f) (popularity_max f) cols r /\
  range_ok "energy" (energy_min f) (energy_max f) cols r /\
  range_ok "danceability" (danceability_min f) (danceability_max f) cols r /\
  range_ok "valence" (valence_min f) (valence_max f) cols r /\
  range_ok "tempo" (tempo_min f) (tempo_max f) cols r /\
  duration_ok (duration_min f) (duration_max f) cols r.

(** The predicates of the filters after the genre filter. *)
Definition rest_ok (f : filters) (cols : list string) (r : row) : Prop :=
  artist_ok f cols r /\
  range_ok "popularity" (popularity_min f) (popularity_max f) cols r /\
  range_ok "energy" (energy_min f) (energy_max f) cols r /\
  range_ok "danceability" (danceability_min f) (danceability_max f) cols r /\
  range_ok "valence" (valence_min f) (valence_max f) cols r /\
  range_ok "tempo" (tempo_min f) (tempo_max f) cols r /\
  duration_ok (duration_min f) (duration_max f) cols r.

(** A row whose numeric filter columns, where the table has them, hold a
    number inside the default range of the control. *)
Definition within_defaults (cols : list string) (r : row) : Prop :=
  range_ok "popularity" 0 100 cols r /\
  range_ok "energy" 0 1 cols r /\
  range_ok "danceability" 0 1 cols r /\
  range_ok "valence" 0 1 cols r /\
  range_ok "tempo" 0 220 cols r /\
  duration_ok 18 5400 cols r.

(** Some range filter of the set has its bounds swapped on a column that the
    table has. *)
Definition inverted (f : filters) (cols : list string) : Prop :=
  ((popularity_max f < popularity_min f)%Q /\ "popularity" ∈ cols) \/
  ((energy_max f < energy_min f)%Q /\ "energy" ∈ cols) \/
  ((danceability_max f < danceability_min f)%Q /\ "danceability" ∈ cols) \/
  ((valence_max f < valence_min f)%Q /\ "valence" ∈ cols) \/
  ((tempo_max f < tempo_min f)%Q /\ "tempo" ∈ cols) \/
  ((duration_max f < duration_min f)%Q /\ "duration_ms" ∈ cols).

(** The numeric columns that the range filters read. *)
Definition numeric_filter_columns : list string :=
  ["popularity"; "energy"; "danceability"; "valence"; "tempo"; "duration_ms"].

(** The typing of the cells that the filters read, as the loader produces
    it when no genres field is empty: the genres of a track are a string or
    [None], and a numeric filter column holds no string. *)
Definition filter_typed (r : row) : Prop :=
  match at_col "genres" r with
  | CStr _ | CNone => True
  | _ => False
  end /\
  Forall (fun c => forall s, at_col c r <> CStr s) numeric_filter_columns.

(** A stage returns on every table that has the columns [C] asks for and
    whose rows satisfy [W]. *)
Definition returns_on (S : table -> result table)
  (C : list string -> Prop) (W : row -> Prop) : Prop :=
  forall df, C (columns df) -> Forall W (rows df) -> exists df', S df = Ok df'.

(** What it means for a stage of [filter_data] to select rows: on success
    the columns are kept, the rows are a sublist, the column condition [C]
    held and every surviving row satisfies [P]; and a table that already
    satisfies both is returned as it is. *)
Record row_filter (S : table -> result table)
  (C : list string -> Prop) (P : list string -> row -> Prop) : Prop := RowFilter {
  rf_sound : forall df df', S df = Ok df' ->
    columns df' = columns df /\ sublist (rows df') (rows df) /\
    C (columns df) /\ Forall (P (columns df)) (rows df');
  rf_fix : forall df, C (columns df) -> Forall (P (columns df)) (rows df) -> S df = Ok df
}.

(** ** Text *)

(** [sub] occurs in [s]. *)
Definition occurs_in (sub s : string) : Prop :=
  exists before after, s = before +:+ sub +:+ after.


(** ** Correlation *)

(** A column with two different values. *)
Definition nonconstant (xs : list Q) : Prop :=
  exists a b, a ∈ xs /\ b ∈ xs /\ ~ (a == b)%Q.

(** ** Normalization *)

Section NormalizationVocabulary.
Import Genre_fingerprint_chart.

(** [n] rows of [w] entries each. *)
Definition rect (n w : nat) (a : matrix) : Prop :=
  length a = n /\ Forall (fun r => length r = w) a.

Definition unit_interval (v : Q) : Prop := (0 <= v)%Q /\ (v <= 1)%Q.

Definition unit_entries (a : matrix) : Prop := Forall (Forall unit_interval) a.

(** The feature whose maximum over the genres equals its minimum. *)
Definition constant_column (a : matrix) (i : nat) : Prop :=
  exists vs lo hi,
    get_column a i = Ok vs /\ np_min vs = Ok lo /\ np_max vs = Ok hi /\ (hi == lo)%Q.

End NormalizationVocabulary.

(** ** Sorting *)

#[global] Instance Qle_dec : RelDecision Qle :=
  fun x y => decide (Qnum x * Zpos (Qden y) <= Qnum y * Zpos (Qden x))%Z.

(** [argsort] sorts the array [v]: it lists every position once, and the
    values at the positions ascend. *)
Definition sorts (argsort : list Q -> list nat) (v : list Q) : Prop :=
  argsort v ≡ₚ seq 0 (length v) /\ Sorted Qle (map (fun p => v !!! p) (argsort v)).

(** The array that [sort_values] hands to [argsort]: the means of the
    groups, last group first. *)
Definition sorted_column (keys popularity : list cell) : list Q :=
  match Bar_chart.groupby_mean keys popularity with
  | Ok grouped => reverse (omap snd grouped)
  | Raise _ => []
  end.

(** A group with its mean, as a row of [grouped]. *)
Definition group_row (g : string * Q) : string * option Q := (g.1, Some g.2).

(** ** Example inputs *)

Definition track (genres artists : cell)
  (popularity energy danceability valence tempo duration_ms : Q) : row :=
  <["genres" := genres]> (<["artists" := artists]> (<["popularity" := CNum popularity]>
  (<["energy" := CNum energy]> (<["danceability" := CNum danceability]>
  (<["valence" := CNum valence]> (<["tempo" := CNum tempo]>
  (<["duration_ms" := CNum duration_ms]> ∅))))))).

Definition track_columns : list string :=
  ["genres"; "artists"; "popularity"; "energy"; "danceability"; "valence"; "tempo";
   "duration_ms"].

Definition pop_track : row :=
  track (CStr "['pop', 'rock']") (CStr "Abba") 50 (1 # 2) (1 # 2) (1 # 2) 120 200000.
Definition calm_track : row :=
  track (CStr "['ambient']") (CStr "Eno") 35 (2 # 10) (7 # 10) (4 # 10) 80 240000.
(** A track faster than the upper default of the tempo control. *)
Definition fast_track : row :=
  track (CStr "['speedcore']") (CStr "Moby") 40 (9 # 10) (3 # 10) (2 # 10) 250 200000.
(** A track whose genres field was empty in the file: pandas reads [nan]. *)
Definition untagged_track : row :=
  track CNaN (CStr "Anon") 30 (4 # 10) (6 # 10) (7 # 10) 90 180000.

Definition small_table : table := Table track_columns [pop_track].
Definition calm_table : table := Table track_columns [calm_track].
Definition two_tracks : table := Table track_columns [pop_track; calm_track].
Definition fast_table : table := Table track_columns [pop_track; fast_track].
Definition untagged_table : table := Table track_columns [pop_track; untagged_track].

(** Pop selected, every range at its default. *)
Definition pop_only : filters :=
  Filters ["pop"] ["all"] 0 100 0 1 0 1 0 1 0 220 18 5400.

(** Pop selected, and the tempo bounds swapped. *)
Definition inverted_tempo : filters :=
  Filters ["pop"] ["all"] 0 100 0 1 0 1 0 1 200 100 18 5400.

(** The controls of the correlation heatmap with one and with two features
    ticked. *)
Definition one_feature : Audio_correlation_heatmap_chart.kwargs :=
  Audio_correlation_heatmap_chart.Kwargs default_filters (Some ["energy"]) [].
Definition two_features : Audio_correlation_heatmap_chart.kwargs :=
  Audio_correlation_heatmap_chart.Kwargs default_filters
    (Some ["energy"; "danceability"]) [].
Definition pop_inverted : Audio_correlation_heatmap_chart.kwargs :=
  Audio_correlation_heatmap_chart.Kwargs inverted_tempo
    (Some ["energy"; "danceability"]) [].

(** The controls of the tempo and energy chart at their defaults, under the
    filter set with the swapped tempo bounds. *)
Definition tempo_inverted : Tempo_energy_chart.kwargs :=
  Tempo_energy_chart.Kwargs inverted_tempo (Some 60%Q) (Some 180%Q) "none".

(** A [to_numeric] that reads no string as a number, and a float format
    that prints nothing. *)
Definition no_numeral : string -> option Q := fun _ => None.
Definition no_digits : Q -> string := fun _ => "".

(** Averages of three genres: the second feature is the same everywhere. *)
Definition three_genres : Genre_fingerprint_chart.matrix :=
  [[1 # 10; 2 # 10; 3 # 10; 4 # 10; 5 # 10; 6 # 10; 7 # 10];
   [3 # 10; 2 # 10; 1 # 10; 4 # 10; 9 # 10; 6 # 10; 1 # 10];
   [2 # 10; 2 # 10; 5 # 10; 4 # 10; 7 # 10; 6 # 10; 4 # 10]]%Q.

Definition artist_track (name : string) : row :=
  track (CStr "['pop']") (CStr name) 50 (1 # 2) (1 # 2) (1 # 2) 120 200000.

Definition artist_names : list string :=
  ["a00"; "a01"; "a02"; "a03"; "a04"; "a05"; "a06"; "a07"; "a08"; "a09";
   "a10"; "a11"; "a12"; "a13"; "a14"; "a15"; "a16"; "a17"].

(** Eighteen artists with one track each, all of popularity 50. *)
Definition tied_artists : table := Table track_columns (map artist_track artist_names).

Definition tied_groups : list (string * Q) := map (fun a => (a, 50%Q)) artist_names.

(** The bar chart by artist, ten bars and the default number of bars. *)
Definition top_ten : Bar_chart.kwargs := Bar_chart.Kwargs default_filters None (Some 10%nat).
Definition by_artist : Bar_chart.kwargs := Bar_chart.Kwargs default_filters None None.

(** * Further vocabulary *)

(** ** Rows that a stage selects *)

#[global] Instance exc_class_eq_dec : EqDecision exc_class.
Proof. solve_decision. Defined.
#[global] Instance exn_eq_dec : EqDecision exn.
Proof. solve_decision. Defined.
#[global] Instance result_eq_dec {A} `{EqDecision A} : EqDecision (result A).
Proof. solve_decision. Defined.

#[global] Instance row_ok_dec f cols r : Decision (row_ok f cols r).
Proof.
  unfold row_ok, genre_ok, artist_ok, range_ok, duration_ok. apply _.
Defined.

#[global] Instance rest_ok_dec f cols r : Decision (rest_ok f cols r).
Proof.
  unfold rest_ok, genre_ok, artist_ok, range_ok, duration_ok. apply _.
Defined.

#[global] Instance genre_ok_dec f cols r : Decision (genre_ok f cols r).
Proof. unfold genre_ok. apply _. Defined.
#[global] Instance artist_ok_dec f cols r : Decision (artist_ok f cols r).
Proof. unfold artist_ok. apply _. Defined.
#[global] Instance range_ok_dec c lo hi cols r : Decision (range_ok c lo hi cols r).
Proof. unfold range_ok. apply _. Defined.
#[global] Instance duration_ok_dec lo hi cols r : Decision (duration_ok lo hi cols r).
Proof. unfold duration_ok. apply _. Defined.

(** A stage selects the rows that satisfy [P]: on success it keeps the
    columns and returns exactly those rows, in order. *)
Definition selects (S : table -> result table) (P : list string -> row -> Prop)
  `{Hdec1 : !forall cols r, Decision (P cols r)} : Prop :=
  forall df df', S df = Ok df' ->
    columns df' = columns df /\ rows df' = filter (P (columns df)) (rows df).


(** Two filter sets agree wherever the table can tell them apart: the same
    selections, and the same bounds for each numeric column among [cols]. *)
Definition same_on (cols : list string) (f f' : filters) : Prop :=
  genre_multiselect_filter f = genre_multiselect_filter f' /\
  artist_multiselect_filter f = artist_multiselect_filter f' /\
  ("popularity" ∈ cols ->
   popularity_min f = popularity_min f' /\ popularity_max f = popularity_max f') /\
  ("energy" ∈ cols -> energy_min f = energy_min f' /\ energy_max f = energy_max f') /\
  ("danceability" ∈ cols ->
   danceability_min f = danceability_min f' /\ danceability_max f = danceability_max f') /\
  ("valence" ∈ cols -> valence_min f = valence_min f' /\ valence_max f = valence_max f') /\
  ("tempo" ∈ cols -> tempo_min f = tempo_min f' /\ tempo_max f = tempo_max f') /\
  ("duration_ms" ∈ cols ->
   duration_min f = duration_min f' /\ duration_max f = duration_max f').


(** ** Tokens and runs of text *)

(** [s] begins, ends with the character [a]; [a] occurs in [s]. *)
Definition starts_with (a : ascii) (s : string) : Prop := exists t, s = String a t.
Definition ends_with (a : ascii) (s : string) : Prop :=
  exists t, s = t +:+ String a EmptyString.
Definition has_char (a : ascii) (s : string) : Prop := a ∈ list_ascii_of_string s.

(** A token as the parsers produce it: it is not empty, holds no comma, and
    neither begins nor ends with a quote. *)
Definition clean_token (t : string) : Prop :=
  t <> "" /\ ~ has_char ","%char t /\
  forall q, has_char q quotes -> ~ starts_with q t /\ ~ ends_with q t.

(** [k] is a run of consecutive entries of [l]. *)
Definition run {A} (k l : list A) : Prop := exists a b, l = (a ++ k ++ b)%list.

(** What [strip] leaves: a run of the text, that neither begins nor ends
    with a character of the set. *)
Definition stripped {A} (p : A -> bool) (l : list A) : list A :=
  rev (drop_while p (rev (drop_while p l))).


(** ** The bar chart *)

(** A label that a bar may carry: a pitch-class name when the bars are
    grouped by key, Minor or Major when grouped by mode, else the artist of
    a track of the dataset. *)
Definition bar_label (kw : Bar_chart.kwargs) (data : table) (l : string) : Prop :=
  let groupby_value := default "artists" (Bar_chart.groupby kw) in
  if String.eqb groupby_value "key" then l ∈ map snd Bar_chart.key_names
  else if String.eqb groupby_value "mode" then l ∈ map snd Bar_chart.mode_names
  else exists r, r ∈ rows data /\ at_col "artists" r = CStr l.


(** The column that the bar chart groups by: any value of the control
    other than key and mode groups by artist. *)
Definition group_column (kw : Bar_chart.kwargs) : string :=
  let groupby_value := default "artists" (Bar_chart.groupby kw) in
  if String.eqb groupby_value "key" then "key"
  else if String.eqb groupby_value "mode" then "mode"
  else "artists".

(** ** Further example inputs *)

(** Every range at its default but the tempo, which stops at 100. *)
Definition slow_only : filters :=
  Filters ["all"] ["all"] 0 100 0 1 0 1 0 1 0 100 18 5400.

(** A table of tracks that has no tempo column. *)
Definition no_tempo_columns : list string :=
  ["genres"; "artists"; "popularity"; "energy"; "danceability"; "valence"; "duration_ms"].
Definition no_tempo_table : table := Table no_tempo_columns [pop_track; calm_track].

(** A table of tracks without the category columns. *)
Definition numbers_only : table :=
  Table ["popularity"; "energy"; "danceability"; "valence"; "tempo"; "duration_ms"]
    [pop_track].

(** Abba selected, everything else at its default. *)
Definition abba_only : filters :=
  Filters ["all"] ["Abba"] 0 100 0 1 0 1 0 1 0 220 18 5400.

(** A track with its key and mode, and a table of three such tracks. *)
Definition keyed_track (artists : string) (popularity key mode : Q) : row :=
  <["key" := CNum key]> (<["mode" := CNum mode]>
    (track (CStr "['pop']") (CStr artists) popularity (1 # 2) (1 # 2) (1 # 2) 120 200000)).

Definition keyed_table : table :=
  Table ("key" :: "mode" :: track_columns)
    [keyed_track "Abba" 50 0 1; keyed_track "Eno" 35 9 0; keyed_track "Abba" 70 0 1].

Definition by_key : Bar_chart.kwargs := Bar_chart.Kwargs default_filters (Some "key") None.

(** The controls of the correlation heatmap with a feature that the example
    tables lack. *)
Definition unknown_feature : Audio_correlation_heatmap_chart.kwargs :=
  Audio_correlation_heatmap_chart.Kwargs default_filters (Some ["energy"; "loudness"]) [].

(** The controls of the tempo and energy chart with every input at its
    default. *)
Definition tempo_defaults : Tempo_energy_chart.kwargs :=
  Tempo_energy_chart.Kwargs default_filters None None "none".

(** ** The radar chart *)

(** The bounds that the filter puts on the feature with this label of the
    radar, if it filters on that feature. *)
Definition radar_bounds (f : filters) (label : string) : option (Q * Q) :=
  if String.eqb label "Danceability" then Some (danceability_min f, danceability_max f)
  else if String.eqb label "Energy" then Some (energy_min f, energy_max f)
  else if String.eqb label "Valence" then Some (valence_min f, valence_max f)
  else None.

(** The radar of Abba with the comparison on, and of Moby under a filter
    that selects Abba. *)
Definition abba_compared : Artist_spotlight_radar_chart.kwargs :=
  Artist_spotlight_radar_chart.Kwargs default_filters (Some "Abba") (Some ["enabled"]).
Definition moby_among_abba : Artist_spotlight_radar_chart.kwargs :=
  Artist_spotlight_radar_chart.Kwargs abba_only (Some "Moby") (Some []).

(** The bounds that the filter puts on a feature of the radar. *)
Definition feature_bounds (f : filters) (feature : string) : option (Q * Q) :=
  if String.eqb feature "danceability" then Some (danceability_min f, danceability_max f)
  else if String.eqb feature "energy" then Some (energy_min f, energy_max f)
  else if String.eqb feature "valence" then Some (valence_min f, valence_max f)
  else None.

(** The box plot of pop and rock, and a table with a track that has no
    genres value among its rows. *)
Definition pop_and_rock : Audio_feature_box_plot_chart.kwargs :=
  Audio_feature_box_plot_chart.Kwargs default_filters None (Some ["pop"; "rock"]).

(** The dtypes of the example tables: text for the artists and the genres,
    numbers elsewhere. *)
Definition track_dtype (col : string) : Data_table.kind :=
  if bool_decide (col ∈ ["artists"; "genres"]) then Data_table.Text else Data_table.Numeric.

(** A track with every feature that the fingerprint chart reads. *)
Definition profiled_track : row :=
  <["acousticness" := CNum (1 # 10)]> (<["instrumentalness" := CNum 0]>
    (<["liveness" := CNum (2 # 10)]> (<["speechiness" := CNum (1 # 20)]> pop_track))).

Definition profiled_table : table :=
  Table ("acousticness" :: "instrumentalness" :: "liveness" :: "speechiness" :: track_columns)
    [profiled_track].

(** * Properties *)

(** ** The result monad *)

Lemma bind_Ok {A B} (m : result A) (k : A -> result B) (b : B) :
  m ≫= k = Ok b -> exists a, m = Ok a /\ k a = Ok b.
Proof. destruct m as [a|e]; simpl; [eauto | discriminate]. Qed.

Lemma mapM_Ok {A B} (f : A -> result B) (l : list A) (k : list B) :
  mapM f l = Ok k <-> Forall2 (fun x y => f x = Ok y) l k.
Proof.
  revert k. induction l as [|x l IH]; intros k; simpl.
  - split.
    + intros [= <-]. constructor.
    + intros H. inversion H. reflexivity.
  - split.
    + intros H. apply bind_Ok in H as (y & Hy & H).
      apply bind_Ok in H as (k' & Hk' & H). injection H as <-.
      constructor; [exact Hy | apply IH, Hk'].
    + intros H. inversion H as [|? y ? k' Hy Hk']; subst.
      rewrite Hy. simpl. apply IH in Hk'. rewrite Hk'. reflexivity.
Qed.

Lemma boolean_index_sublist (rs : list row) (mask : list bool) :
  sublist (boolean_index rs mask) rs.
Proof.
  revert mask. induction rs as [|r rs IH]; intros [|[] mask]; simpl;
    try apply sublist_nil_l; [apply sublist_skip | apply sublist_cons]; apply IH.
Qed.

Lemma boolean_index_Forall (Q0 : row -> bool -> Prop) (P : row -> Prop) rs mask :
  (forall r, Q0 r true -> P r) ->
  Forall2 Q0 rs mask -> Forall P (boolean_index rs mask).
Proof.
  intros HQ H. induction H as [|r b rs mask Hrb _ IH]; simpl; [constructor|].
  destruct b; [constructor; auto | exact IH].
Qed.

Lemma Forall_sublist {A} (P : A -> Prop) (l k : list A) :
  sublist k l -> Forall P l -> Forall P k.
Proof.
  intros Hs Hl. rewrite Forall_forall in *. intros x Hx.
  apply Hl. eapply elem_of_sublist; eauto.
Qed.

Lemma mapM_map_Ok {A B C} (f : B -> result C) (g : A -> B) (l : list A) (k : list C) :
  mapM f (map g l) = Ok k <-> Forall2 (fun x y => f (g x) = Ok y) l k.
Proof.
  rewrite mapM_Ok. revert k. induction l as [|x l IH]; intros k; simpl.
  - split; intros H; inversion H; constructor.
  - split; intros H; inversion H; subst; constructor; auto; by apply IH.
Qed.

(** A mask computed cell by cell keeps rows on which the test says [True]. *)
Lemma mask_sound (f : cell -> result bool) (c : string) (rs : list row) (m : list bool) :
  mapM f (map (at_col c) rs) = Ok m ->
  sublist (boolean_index rs m) rs /\
  Forall (fun r => f (at_col c r) = Ok true) (boolean_index rs m).
Proof.
  intros H. split; [apply boolean_index_sublist|].
  apply mapM_map_Ok in H.
  eapply boolean_index_Forall; [|exact H]. auto.
Qed.

Lemma mask_fix (f : cell -> result bool) (c : string) (rs : list row) :
  Forall (fun r => f (at_col c r) = Ok true) rs ->
  exists m, mapM f (map (at_col c) rs) = Ok m /\ boolean_index rs m = rs.
Proof.
  induction 1 as [|r rs Hr _ (m & Hm & Hb)]; simpl.
  - exists []. done.
  - exists (true :: m). rewrite Hr. simpl. rewrite Hm. simpl. by rewrite Hb.
Qed.

Lemma getitem_Ok df c fr s :
  getitem df c fr = Ok s -> c ∈ columns df /\ s = map (at_col c) (rows df).
Proof.
  unfold getitem, has_column. case_bool_decide; [|discriminate].
  intros [= <-]. done.
Qed.

Lemma getitem_has df c fr :
  c ∈ columns df -> getitem df c fr = Ok (map (at_col c) (rows df)).
Proof. intros H. unfold getitem, has_column. by rewrite bool_decide_eq_true_2. Qed.

Lemma table_eta df : Table (columns df) (rows df) = df.
Proof. by destruct df. Qed.


Lemma row_filter_bind S1 S2 C1 P1 C2 P2 :
  row_filter S1 C1 P1 -> row_filter S2 C2 P2 ->
  row_filter (fun df => S1 df ≫= S2)
    (fun cols => C1 cols /\ C2 cols) (fun cols r => P1 cols r /\ P2 cols r).
Proof.
  intros [s1 f1] [s2 f2]. split.
  - intros df df' H. apply bind_Ok in H as (d1 & H1 & H2).
    apply s1 in H1 as (Hc1 & Hs1 & HC1 & HP1).
    apply s2 in H2 as (Hc2 & Hs2 & HC2 & HP2).
    rewrite Hc1 in *. split; [done|]. split; [by etrans|]. split; [done|].
    apply Forall_and. split; [|done]. eapply Forall_sublist; eauto.
  - intros df [HC1 HC2] HP. apply Forall_and in HP as [HP1 HP2].
    rewrite (f1 df HC1 HP1). simpl. by apply f2.
Qed.

(** ** The stages of [filter_data] *)


Lemma cmp_ge_true lo fr x :
  cmp_cell Qge_bool ">=" lo fr x = Ok true <->
  exists q, x = CNum q /\ Qle_bool lo q = true.
Proof.
  destruct x; simpl; unfold raise, Qge_bool; split;
    try (intros [=]); try (intros (? & [=] & ?)); subst; eauto.
  by f_equal.
Qed.

Lemma cmp_le_true hi fr x :
  cmp_cell Qle_bool "<=" hi fr x = Ok true <->
  exists q, x = CNum q /\ Qle_bool q hi = true.
Proof.
  destruct x; simpl; unfold raise; split;
    try (intros [=]); try (intros (? & [=] & ?)); subst; eauto.
  by f_equal.
Qed.

Lemma in_range_spec lo hi x :
  in_range lo hi x = true <->
  exists q, x = CNum q /\ Qle_bool lo q = true /\ Qle_bool q hi = true.
Proof.
  destruct x as [s|q| |]; simpl.
  2:{ split.
      - intros [? ?]%andb_true_iff. eauto.
      - intros (? & [= <-] & -> & ->). done. }
  all: split; [discriminate | intros (? & [=] & _)].
Qed.

Lemma in_range_cmp lo hi fr x :
  in_range lo hi x = true <->
  cmp_cell Qge_bool ">=" lo fr x = Ok true /\ cmp_cell Qle_bool "<=" hi fr x = Ok true.
Proof.
  rewrite in_range_spec, cmp_ge_true, cmp_le_true. split.
  - intros (q & -> & ? & ?). split; exists q; auto.
  - intros [(q & -> & ?) (q' & [= <-] & ?)]. exists q. auto.
Qed.

Lemma sublist_nonempty {A} (k l : list A) : sublist k l -> k <> [] -> l <> [].
Proof. intros Hs Hk ->. apply sublist_nil_r in Hs. done. Qed.

(** The genre filter on a table with a row, or switched off, selects rows;
    on an empty table the key is read as an empty list of column labels. *)
Lemma filter_genre_sound f df df' :
  filter_genre f df = Ok df' ->
  sublist (rows df') (rows df) /\
  (masks_rows f df ->
   columns df' = columns df /\ genre_cols f (columns df) /\
   Forall (genre_ok f (columns df)) (rows df')).
Proof.
  unfold filter_genre, genre_cols, genre_ok, masks_rows.
  destruct (active _) eqn:Hact.
  - intros H. apply bind_Ok in H as (s & Hs & H).
    apply bind_Ok in H as (key & Hkey & H).
    apply getitem_Ok in Hs as [Hc ->].
    destruct (rows df) as [|r rs] eqn:Hrows.
    + simpl in Hkey. injection Hkey as <-. simpl in H. injection H as <-.
      unfold take_columns. rewrite Hrows. simpl. split; [done|].
      intros [?|?]; done.
    + simpl map in Hkey. unfold series_apply in Hkey.
      apply bind_Ok in Hkey as (m & Hm & [= <-]). simpl in H. injection H as <-.
      rewrite <- Hrows in *. change (mapM _ (_ :: _)) with
        (mapM (genre_lambda (genre_multiselect_filter f))
           (map (at_col "genres") (r :: rs))) in Hm.
      rewrite <- Hrows in Hm. apply mask_sound in Hm as [Hsub Hm].
      simpl. split; [done|]. intros _. split; [done|]. split; [done|].
      eapply Forall_impl; [exact Hm|]. auto.
  - intros [= <-]. split; [done|]. intros _. split; [done|]. split; [done|].
    apply Forall_forall. done.
Qed.

Lemma filter_genre_fix f df :
  masks_rows f df -> genre_cols f (columns df) ->
  Forall (genre_ok f (columns df)) (rows df) -> filter_genre f df = Ok df.
Proof.
  unfold filter_genre, genre_cols, genre_ok, masks_rows. intros Hm HC HP.
  destruct (active _) eqn:Hact; [|done].
  destruct Hm as [?|Hne]; [done|].
  rewrite getitem_has by auto. simpl.
  destruct (mask_fix (genre_lambda (genre_multiselect_filter f)) "genres" (rows df))
    as (m & Hmask & Hb).
  { eapply Forall_impl; [exact HP|]. auto. }
  unfold series_apply. destruct (rows df) as [|r rs] eqn:Hrows; [done|].
  rewrite <- Hrows in *.
  assert (Hcons : map (at_col "genres") (rows df) <> []) by (rewrite Hrows; done).
  destruct (map (at_col "genres") (rows df)) as [|x xs] eqn:Hcells; [done|].
  rewrite Hmask. simpl. unfold getitem_mask. by rewrite Hb, table_eta.
Qed.

(** On an empty table that has the genres column, an active genre filter
    returns a table without columns. *)
Lemma filter_genre_empty f df :
  active (genre_multiselect_filter f) = true -> rows df = [] ->
  "genres" ∈ columns df -> filter_genre f df = Ok (Table [] []).
Proof.
  intros Hact Hrows Hc. unfold filter_genre. rewrite Hact.
  rewrite getitem_has by done. simpl. rewrite Hrows. simpl.
  unfold take_columns. by rewrite Hrows.
Qed.

Lemma map_mask_sound (g : cell -> bool) (c : string) (rs : list row) :
  sublist (boolean_index rs (map g (map (at_col c) rs))) rs /\
  Forall (fun r => g (at_col c r) = true) (boolean_index rs (map g (map (at_col c) rs))).
Proof.
  split; [apply boolean_index_sublist|].
  induction rs as [|r rs IH]; simpl; [constructor|].
  destruct (g (at_col c r)) eqn:E; [constructor|]; auto.
Qed.

Lemma map_mask_fix (g : cell -> bool) (c : string) (rs : list row) :
  Forall (fun r => g (at_col c r) = true) rs ->
  boolean_index rs (map g (map (at_col c) rs)) = rs.
Proof.
  induction 1 as [|r rs Hr _ IH]; simpl; [done|]. by rewrite Hr, IH.
Qed.

Lemma filter_artist_spec f :
  row_filter (filter_artist f) (artist_cols f) (artist_ok f).
Proof.
  unfold filter_artist, artist_cols, artist_ok. split.
  - intros df df'. destruct (active _).
    + intros H. apply bind_Ok in H as (s & Hs & [= <-]).
      apply getitem_Ok in Hs as [Hc ->].
      destruct (map_mask_sound (isin (artist_multiselect_filter f)) "artists" (rows df))
        as [Hsub Hall].
      simpl. repeat split; auto.
      eapply Forall_impl; [exact Hall|]. auto.
    + intros [= <-]. repeat split; try done. apply Forall_forall. done.
  - intros df HC HP. destruct (active _); [|done].
    rewrite getitem_has by auto. simpl. unfold getitem_mask.
    rewrite map_mask_fix; [by rewrite table_eta|].
    eapply Forall_impl; [exact HP|]. auto.
Qed.

Lemma has_column_true df c : has_column df c = true <-> c ∈ columns df.
Proof. unfold has_column. apply bool_decide_eq_true. Qed.

Lemma filter_range_spec c lo hi :
  row_filter (filter_range c lo hi) (fun _ => True) (range_ok c lo hi).
Proof.
  unfold filter_range, range_ok. split.
  - intros df df'. destruct (has_column df c) eqn:Hc.
    + apply has_column_true in Hc. intros H.
      apply bind_Ok in H as (s & Hs & H). apply getitem_Ok in Hs as [_ ->].
      apply bind_Ok in H as (m & Hm & H).
      apply bind_Ok in H as (s' & Hs' & H). apply getitem_Ok in Hs' as [_ ->].
      apply bind_Ok in H as (m' & Hm' & [= <-]). simpl in *.
      apply mask_sound in Hm as [Hsub Hge]. apply mask_sound in Hm' as [Hsub' Hle].
      repeat split; auto; [by etrans|].
      eapply Forall_sublist in Hge; [|exact Hsub'].
      rewrite Forall_forall in *. intros r Hr _.
      apply (in_range_cmp lo hi frame). split; auto.
    + intros [= <-]. repeat split; try done. apply Forall_forall.
      intros r _ Hin. apply has_column_true in Hin. congruence.
  - intros df _ HP. destruct (has_column df c) eqn:Hc; [|done].
    apply has_column_true in Hc.
    assert (Hboth : Forall (fun r =>
        cmp_cell Qge_bool ">=" lo frame (at_col c r) = Ok true /\
        cmp_cell Qle_bool "<=" hi frame (at_col c r) = Ok true) (rows df)).
    { eapply Forall_impl; [exact HP|]. intros r Hr. apply in_range_cmp. auto. }
    apply Forall_and in Hboth as [Hge Hle].
    apply mask_fix in Hge as (m & Hm & Hb). apply mask_fix in Hle as (m' & Hm' & Hb').
    assert (Hid : getitem_mask df m = df).
    { unfold getitem_mask. by rewrite Hb, table_eta. }
    assert (Hid' : getitem_mask df m' = df).
    { unfold getitem_mask. by rewrite Hb', table_eta. }
    rewrite getitem_has by done. simpl. unfold series_ge. rewrite Hm. simpl.
    rewrite Hid. rewrite getitem_has by done. simpl.
    unfold series_le. rewrite Hm'. simpl. by rewrite Hid'.
Qed.

Lemma div_cell_seconds fr x y : div_cell 1000 fr x = Ok y -> y = seconds x.
Proof. destruct x; simpl; unfold raise; intros [=]; done. Qed.

Lemma duration_mask_sound lo hi c fr (rs : list row) ds m1 m2 :
  mapM (div_cell 1000 fr) (map (at_col c) rs) = Ok ds ->
  mapM (cmp_cell Qge_bool ">=" lo fr) ds = Ok m1 ->
  mapM (cmp_cell Qle_bool "<=" hi fr) ds = Ok m2 ->
  Forall (fun r => in_range lo hi (seconds (at_col c r)) = true)
    (boolean_index rs (mask_and m1 m2)).
Proof.
  revert ds m1 m2. induction rs as [|r rs IH]; intros ds m1 m2 Hd H1 H2; simpl in *.
  { constructor. }
  apply bind_Ok in Hd as (d & Hd & Hds). apply bind_Ok in Hds as (ds' & Hds & [= <-]).
  simpl in H1, H2.
  apply bind_Ok in H1 as (b1 & Hb1 & H1). apply bind_Ok in H1 as (m1' & H1 & [= <-]).
  apply bind_Ok in H2 as (b2 & Hb2 & H2). apply bind_Ok in H2 as (m2' & H2 & [= <-]).
  apply div_cell_seconds in Hd as ->. simpl.
  specialize (IH _ _ _ Hds H1 H2).
  destruct b1, b2; simpl; auto.
  constructor; [|exact IH]. apply (in_range_cmp lo hi fr). auto.
Qed.

Lemma duration_mask_fix lo hi c fr (rs : list row) :
  Forall (fun r => in_range lo hi (seconds (at_col c r)) = true) rs ->
  exists ds m1 m2,
    mapM (div_cell 1000 fr) (map (at_col c) rs) = Ok ds /\
    mapM (cmp_cell Qge_bool ">=" lo fr) ds = Ok m1 /\
    mapM (cmp_cell Qle_bool "<=" hi fr) ds = Ok m2 /\
    boolean_index rs (mask_and m1 m2) = rs.
Proof.
  induction 1 as [|r rs Hr _ (ds & m1 & m2 & Hd & H1 & H2 & Hb)]; simpl.
  { exists [], [], []. done. }
  pose proof Hr as Hr'. apply (in_range_cmp lo hi fr) in Hr' as [Hge Hle].
  assert (Hdiv : div_cell 1000 fr (at_col c r) = Ok (seconds (at_col c r))).
  { destruct (at_col c r); simpl in *; try done. }
  exists (seconds (at_col c r) :: ds), (true :: m1), (true :: m2).
  rewrite Hdiv. simpl. rewrite Hd. simpl. rewrite Hge, Hle. simpl.
  rewrite H1, H2. simpl. by rewrite Hb.
Qed.

Lemma filter_duration_spec lo hi :
  row_filter (filter_duration lo hi) (fun _ => True) (duration_ok lo hi).
Proof.
  unfold filter_duration, duration_ok. split.
  - intros df df'. destruct (has_column df "duration_ms") eqn:Hc.
    + intros H.
      apply bind_Ok in H as (s & Hs & H). apply getitem_Ok in Hs as [_ ->].
      apply bind_Ok in H as (ds & Hds & H).
      apply bind_Ok in H as (m1 & Hm1 & H).
      apply bind_Ok in H as (m2 & Hm2 & [= <-]). simpl.
      repeat split; auto; [apply boolean_index_sublist|].
      eapply Forall_impl; [eapply duration_mask_sound; eauto|]. auto.
    + intros [= <-]. repeat split; try done. apply Forall_forall.
      intros r _ Hin. apply has_column_true in Hin. congruence.
  - intros df _ HP. destruct (has_column df "duration_ms") eqn:Hc; [|done].
    apply has_column_true in Hc.
    destruct (duration_mask_fix lo hi "duration_ms" frame (rows df))
      as (ds & m1 & m2 & Hd & H1 & H2 & Hb).
    { eapply Forall_impl; [exact HP|]. auto. }
    rewrite getitem_has by done. simpl. unfold series_div. rewrite Hd. simpl.
    unfold series_ge. rewrite H1. simpl. unfold series_le. rewrite H2. simpl.
    unfold getitem_mask. by rewrite Hb, table_eta.
Qed.


Lemma row_filter_iff S C P C' P' :
  (forall cols, C cols <-> C' cols) -> (forall cols r, P cols r <-> P' cols r) ->
  row_filter S C P -> row_filter S C' P'.
Proof.
  intros HC HP [s f]. split.
  - intros df df' H. apply s in H as (? & ? & ? & HF). repeat split; auto.
    + by apply HC.
    + eapply Forall_impl; [exact HF|]. intros r. apply HP.
  - intros df HC' HP'. apply f; [by apply HC|].
    eapply Forall_impl; [exact HP'|]. intros r. apply HP.
Qed.

Lemma filter_rest_spec f :
  row_filter (filter_rest f) (artist_cols f) (rest_ok f).
Proof.
  eapply row_filter_iff; cycle 2.
  - unfold filter_rest.
    apply row_filter_bind; [apply filter_artist_spec|].
    apply row_filter_bind; [apply filter_range_spec|].
    apply row_filter_bind; [apply filter_range_spec|].
    apply row_filter_bind; [apply filter_range_spec|].
    apply row_filter_bind; [apply filter_range_spec|].
    apply row_filter_bind; [apply filter_range_spec|].
    apply filter_duration_spec.
  - intros cols. simpl. tauto.
  - intros cols r. unfold rest_ok. simpl. tauto.
Qed.

Lemma filter_data_stages df f : filter_data df f = filter_genre f df ≫= filter_rest f.
Proof. reflexivity. Qed.

(** ** The filter evaluator as a whole *)

(** Closed decidable facts about the example inputs. *)
Ltac decide_closed :=
  match goal with |- ?P => apply (proj1 (bool_decide_eq_true P)) end;
  vm_compute; reflexivity.


Lemma filter_data_keeps (T T' : table) (F : filters) :
  filter_data T F = Ok T' ->
  sublist (rows T') (rows T) /\
  (masks_rows F T ->
   columns T' = columns T /\ cols_ok F (columns T) /\
   Forall (row_ok F (columns T)) (rows T')).
Proof.
  rewrite filter_data_stages. intros H. apply bind_Ok in H as (T1 & H1 & H2).
  apply filter_genre_sound in H1 as [Hs1 H1].
  apply (rf_sound _ _ _ (filter_rest_spec F)) in H2 as (Hc2 & Hs2 & HC2 & HP2).
  split; [by etrans|]. intros Hm. destruct (H1 Hm) as (Hc1 & HC1 & HP1).
  rewrite Hc1 in *. split; [done|]. split; [done|].
  apply Forall_and. split; [eapply Forall_sublist; eauto | done].
Qed.

Lemma filter_data_fixed (T : table) (F : filters) :
  masks_rows F T -> cols_ok F (columns T) -> Forall (row_ok F (columns T)) (rows T) ->
  filter_data T F = Ok T.
Proof.
  intros Hm [HC1 HC2] HP. apply Forall_and in HP as [HP1 HP2].
  rewrite filter_data_stages, (filter_genre_fix F T Hm HC1 HP1). simpl.
  by apply (rf_fix _ _ _ (filter_rest_spec F)).
Qed.

Lemma masks_rows_sublist (T T' : table) (F : filters) :
  sublist (rows T') (rows T) -> masks_rows F T' -> masks_rows F T.
Proof. intros Hs [?|Hne]; [by left | right; eapply sublist_nonempty; eauto]. Qed.

(** Filtering again changes nothing when the genre filter reads a row
    mask on the filtered table. *)
Lemma filter_data_again (T T' : table) (F : filters) :
  filter_data T F = Ok T' -> masks_rows F T' -> filter_data T' F = Ok T'.
Proof.
  intros H Hm. apply filter_data_keeps in H as (Hs & H).
  destruct H as (Hc & HC & HP); [eapply masks_rows_sublist; eauto|].
  apply filter_data_fixed; [done| |]; by rewrite Hc.
Qed.

Lemma row_ok_defaults (cols : list string) (r : row) :
  row_ok default_filters cols r <-> within_defaults cols r.
Proof.
  unfold row_ok, within_defaults, genre_ok, artist_ok. simpl. split.
  - tauto.
  - intros H. split; [discriminate|]. split; [discriminate|]. exact H.
Qed.

Lemma range_ok_inverted (c : string) (lo hi : Q) (cols : list string) (r : row) :
  (hi < lo)%Q -> c ∈ cols -> range_ok c lo hi cols r -> False.
Proof.
  intros Hlt Hc H. apply H, in_range_spec in Hc as (q & _ & Hlo & Hhi).
  apply Qle_bool_iff in Hlo, Hhi. lra.
Qed.

Lemma duration_ok_inverted (lo hi : Q) (cols : list string) (r : row) :
  (hi < lo)%Q -> "duration_ms" ∈ cols -> duration_ok lo hi cols r -> False.
Proof.
  intros Hlt Hc H. apply H, in_range_spec in Hc as (q & _ & Hlo & Hhi).
  apply Qle_bool_iff in Hlo, Hhi. lra.
Qed.

(** When the evaluator returns under a filter set with swapped bounds on a
    present column, it returns no row. *)
Lemma inverted_range_no_rows (T T' : table) (F : filters) :
  filter_data T F = Ok T' -> inverted F (columns T) -> rows T' = [].
Proof.
  intros H Hinv. apply filter_data_keeps in H as (Hs & H).
  destruct (rows T') as [|r rs] eqn:E; [done|]. exfalso.
  destruct H as (_ & _ & HP).
  { right. eapply sublist_nonempty; [exact Hs | done]. }
  inversion HP as [|? ? (_ & _ & Hp & He & Hd & Hv & Ht & Hdur) _]; subst.
  destruct Hinv as [[? ?]|[[? ?]|[[? ?]|[[? ?]|[[? ?]|[? ?]]]]]];
    eauto using range_ok_inverted, duration_ok_inverted.
Qed.

(** ** When the filter evaluator returns *)

Lemma mapM_total {A B} (f : A -> result B) (l : list A) :
  Forall (fun x => exists y, f x = Ok y) l -> exists k, mapM f l = Ok k.
Proof.
  induction 1 as [|x l (y & Hy) _ (k & Hk)]; simpl.
  - by exists [].
  - exists (y :: k). rewrite Hy. simpl. by rewrite Hk.
Qed.

Lemma returns_bind S1 S2 C1 P1 C2 W :
  row_filter S1 C1 P1 -> returns_on S1 C1 W -> returns_on S2 C2 W ->
  returns_on (fun df => S1 df ≫= S2) (fun cols => C1 cols /\ C2 cols) W.
Proof.
  intros [sound _] H1 H2 df [HC1 HC2] HW.
  destruct (H1 df HC1 HW) as (d1 & Hd1). rewrite Hd1. simpl.
  apply sound in Hd1 as (Hc & Hs & _). apply H2; [by rewrite Hc|].
  eapply Forall_sublist; eauto.
Qed.

Lemma any_genre_in_str (selected_genres : list string) (s : string) :
  exists b, any_genre_in selected_genres (CStr s) = Ok b.
Proof.
  induction selected_genres as [|g gs (b & IH)]; simpl; [eauto|].
  destruct (str_contains g s); eauto.
Qed.

Lemma genre_lambda_typed (selected_genres : list string) (r : row) :
  filter_typed r -> exists b, genre_lambda selected_genres (at_col "genres" r) = Ok b.
Proof.
  intros [Hg _]. unfold genre_lambda.
  destruct (at_col "genres" r) as [s| | |]; try done; simpl; [|eauto].
  destruct (_ && _); [apply any_genre_in_str | eauto].
Qed.

Lemma filter_typed_numeric (c : string) (r : row) :
  c ∈ numeric_filter_columns -> filter_typed r ->
  forall op sym v fr, exists b, cmp_cell op sym v fr (at_col c r) = Ok b.
Proof.
  intros Hc [_ Hnum] op sym v fr. rewrite Forall_forall in Hnum.
  specialize (Hnum c Hc). destruct (at_col c r) as [s| | |]; simpl; eauto.
  by destruct (Hnum s).
Qed.

Lemma filter_artist_returns f : returns_on (filter_artist f) (artist_cols f) filter_typed.
Proof.
  intros df HC _. unfold filter_artist. destruct (active _) eqn:Hact; [|eauto].
  rewrite getitem_has by (by apply HC). simpl. eexists. reflexivity.
Qed.

Lemma filter_range_returns c lo hi :
  c ∈ numeric_filter_columns ->
  returns_on (filter_range c lo hi) (fun _ => True) filter_typed.
Proof.
  intros Hnum df _ HW. unfold filter_range.
  destruct (has_column df c) eqn:Hc; [|eauto]. apply has_column_true in Hc.
  rewrite getitem_has by done. simpl.
  destruct (mapM_total (cmp_cell Qge_bool ">=" lo Filter_component.frame)
              (map (at_col c) (rows df))) as (m & Hm).
  { apply Forall_forall. intros x Hx.
    apply list_elem_of_In, in_map_iff in Hx as (r & <- & Hr). apply list_elem_of_In in Hr.
    rewrite Forall_forall in HW. by apply filter_typed_numeric; auto. }
  unfold series_ge. rewrite Hm. simpl. rewrite getitem_has by done. simpl.
  destruct (mapM_total (cmp_cell Qle_bool "<=" hi Filter_component.frame)
              (map (at_col c) (boolean_index (rows df) m))) as (m' & Hm').
  { apply Forall_forall. intros x Hx.
    apply list_elem_of_In, in_map_iff in Hx as (r & <- & Hr). apply list_elem_of_In in Hr.
    rewrite Forall_forall in HW. apply filter_typed_numeric; [done|]. apply HW.
    eapply elem_of_sublist; [exact Hr | apply boolean_index_sublist]. }
  unfold series_le. rewrite Hm'. simpl. eauto.
Qed.

Lemma filter_duration_returns lo hi :
  returns_on (filter_duration lo hi) (fun _ => True) filter_typed.
Proof.
  intros df _ HW. unfold filter_duration.
  destruct (has_column df "duration_ms") eqn:Hc; [|eauto]. apply has_column_true in Hc.
  rewrite getitem_has by done. simpl.
  assert (Hd : mapM (div_cell 1000 Filter_component.frame)
                 (map (at_col "duration_ms") (rows df))
               = Ok (map (fun r => seconds (at_col "duration_ms" r)) (rows df))).
  { clear Hc. induction HW as [|r rs [_ Hr] _ IH]; simpl; [done|].
    rewrite Forall_forall in Hr.
    assert (Hin : "duration_ms" ∈ numeric_filter_columns) by decide_closed.
    specialize (Hr _ Hin).
    destruct (at_col "duration_ms" r) as [s| | |] eqn:E; simpl;
      try (by destruct (Hr s)); rewrite IH; simpl; reflexivity. }
  unfold series_div. rewrite Hd. simpl.
  assert (Hcmp : forall op sym v, exists m,
             mapM (cmp_cell op sym v Filter_component.frame)
               (map (fun r => seconds (at_col "duration_ms" r)) (rows df)) = Ok m).
  { intros op sym v. apply mapM_total, Forall_forall. intros x Hx.
    apply list_elem_of_In, in_map_iff in Hx as (r & <- & _).
    destruct (at_col "duration_ms" r); simpl; eauto. }
  destruct (Hcmp Qge_bool ">=" lo) as (m1 & Hm1).
  destruct (Hcmp Qle_bool "<=" hi) as (m2 & Hm2).
  unfold series_ge, series_le. rewrite Hm1. simpl. rewrite Hm2. simpl. eauto.
Qed.

Lemma filter_rest_returns f : returns_on (filter_rest f) (artist_cols f) filter_typed.
Proof.
  intros df HC HW.
  assert (H : returns_on (filter_rest f)
    (fun cols => artist_cols f cols /\ True /\ True /\ True /\ True /\ True /\ True)
    filter_typed).
  { unfold filter_rest.
    eapply returns_bind; [apply filter_artist_spec | apply filter_artist_returns |].
    eapply returns_bind; [apply filter_range_spec | apply filter_range_returns; decide_closed |].
    eapply returns_bind; [apply filter_range_spec | apply filter_range_returns; decide_closed |].
    eapply returns_bind; [apply filter_range_spec | apply filter_range_returns; decide_closed |].
    eapply returns_bind; [apply filter_range_spec | apply filter_range_returns; decide_closed |].
    eapply returns_bind; [apply filter_range_spec | apply filter_range_returns; decide_closed |].
    apply filter_duration_returns. }
  apply H; [tauto | done].
Qed.

Lemma filter_genre_returns f df :
  masks_rows f df -> genre_cols f (columns df) -> Forall filter_typed (rows df) ->
  exists df', filter_genre f df = Ok df'.
Proof.
  intros Hm HC HW. unfold filter_genre. destruct (active _) eqn:Hact; [|eauto].
  destruct Hm as [?|Hne]; [congruence|]. rewrite getitem_has by (by apply HC). simpl.
  destruct (mapM_total (genre_lambda (genre_multiselect_filter f))
              (map (at_col "genres") (rows df))) as (m & Hmask).
  { apply Forall_forall. intros x Hx.
    apply list_elem_of_In, in_map_iff in Hx as (r & <- & Hr). apply list_elem_of_In in Hr.
    rewrite Forall_forall in HW. apply genre_lambda_typed. auto. }
  unfold series_apply. destruct (rows df) as [|r rs] eqn:Hrows; [done|].
  rewrite <- Hrows in *.
  destruct (map (at_col "genres") (rows df)) as [|x xs] eqn:Hcells.
  { rewrite Hrows in Hcells. discriminate. }
  rewrite Hmask. simpl. eauto.
Qed.

(** On a table whose filter cells are typed as the loader types them, and
    which has the columns that the active category filters read, the
    evaluator returns; with swapped bounds on a present column it returns
    no row. *)
Lemma filter_data_returns (T : table) (F : filters) :
  masks_rows F T -> cols_ok F (columns T) -> Forall filter_typed (rows T) ->
  exists T', filter_data T F = Ok T' /\ (inverted F (columns T) -> rows T' = []).
Proof.
  intros Hm [HC1 HC2] HW.
  destruct (filter_genre_returns F T Hm HC1 HW) as (T1 & H1).
  pose proof H1 as H1'. apply filter_genre_sound in H1' as [Hs1 Hk1].
  destruct (Hk1 Hm) as (Hc1 & _).
  destruct (filter_rest_returns F T1) as (T' & H2).
  { by rewrite Hc1. }
  { eapply Forall_sublist; eauto. }
  assert (H : filter_data T F = Ok T') by (rewrite filter_data_stages, H1; exact H2).
  exists T'. split; [exact H|]. by apply inverted_range_no_rows.
Qed.

(** C1 (counterexample): with every control at its default the evaluator
    drops the track whose tempo is 250, so the table that comes back is not
    the table that went in. *)
Lemma default_filters_drop_fast_track :
  filter_data fast_table default_filters = Ok small_table /\ small_table <> fast_table.
Proof. split; [vm_compute; reflexivity | discriminate]. Qed.

(** C1 (amended): with every control at its default, [filter_data] returns
    the table unchanged exactly when every row holds, in each numeric filter
    column that the table has, a number inside the default range of the
    control (popularity 0..100, energy, danceability and valence 0..1, tempo
    0..220, duration 18..5400 seconds). *)
Theorem default_filters_identity (T : table) :
  filter_data T default_filters = Ok T <-> Forall (within_defaults (columns T)) (rows T).
Proof.
  split.
  - intros H. apply filter_data_keeps in H as (_ & H).
    destruct H as (_ & _ & HP); [by left|].
    eapply Forall_impl; [exact HP|]. intros r. apply row_ok_defaults.
  - intros H. apply filter_data_fixed.
    + by left.
    + split; intros Hact; vm_compute in Hact; discriminate.
    + eapply Forall_impl; [exact H|]. intros r. apply row_ok_defaults.
Qed.

Lemma default_filters_identity_witness :
  filter_data two_tracks default_filters = Ok two_tracks.
Proof.
  apply (proj2 (default_filters_identity two_tracks)).
  repeat constructor; intros _; vm_compute; reflexivity.
Defined.

(** C3 (the code at the failing input): pop is selected, the tempo bounds
    are swapped and the table has a tempo column, but one track has no
    genres value.  The genre test raises [TypeError] before any range
    filter runs, so [filter_data] returns no empty table, and the tempo and
    energy chart shows "Error in chart" with the diagnostic instead of an
    empty state. *)
Theorem inverted_tempo_raises_on_untagged_track :
  let e := Exn TypeError "argument of type 'float' is not iterable"
             ("  in <lambda>" +:+ nl) in
  (tempo_max inverted_tempo < tempo_min inverted_tempo)%Q /\
  "tempo" ∈ columns untagged_table /\
  filter_data untagged_table inverted_tempo = Raise e /\
  Tempo_energy_chart.update no_numeral no_digits untagged_table tempo_inverted
    = Ok (Tempo_energy_chart.empty_fig, error_msg e, NoCards).
Proof.
  split; [reflexivity|]. split; [decide_closed|].
  split; vm_compute; reflexivity.
Qed.

(** C9 (the code at the failing input): pop is selected and the only track
    is an ambient one.  Filtering once gives the empty table with the
    columns of the input; filtering that table again gives a table without
    columns, because the genre test applied to an empty column is not a row
    mask; so filtering twice does not give what filtering once gives. *)
Theorem filter_twice_drops_columns :
  filter_data calm_table pop_only = Ok (Table track_columns []) /\
  filter_data (Table track_columns []) pop_only = Ok (Table [] []) /\
  (filter_data calm_table pop_only ≫= fun T' => filter_data T' pop_only)
    <> filter_data calm_table pop_only.
Proof.
  assert (H1 : filter_data calm_table pop_only = Ok (Table track_columns []))
    by (vm_compute; reflexivity).
  assert (H2 : filter_data (Table track_columns []) pop_only = Ok (Table [] []))
    by (vm_compute; reflexivity).
  split; [exact H1|]. split; [exact H2|].
  rewrite H1. simpl. rewrite H2. discriminate.
Qed.

(** C10: the rows of the table that [filter_data] returns are rows of the
    input, unchanged and in their order, and when there is any the columns
    are those of the input; the filtered count that [display_count] shows
    never exceeds the total. *)
Theorem filter_data_row_subset (T : table) (F : filters) (T' : table)
  (H : filter_data T F = Ok T') :
  sublist (rows T') (rows T) /\
  (forall r, r ∈ rows T' -> r ∈ rows T) /\
  (rows T' <> [] -> columns T' = columns T) /\
  display_count T F = Ok (len T', len T) /\ (len T' <= len T)%nat.
Proof.
  pose proof H as H'. apply filter_data_keeps in H' as (Hs & Hkeep).
  split; [done|]. split; [|split; [|split]].
  - intros r Hr. eapply elem_of_sublist; eauto.
  - intros Hne. apply Hkeep. right. eapply sublist_nonempty; eauto.
  - unfold display_count. rewrite H. reflexivity.
  - by apply sublist_length.
Qed.

Lemma filter_data_row_subset_witness :
  filter_data fast_table default_filters = Ok small_table /\
  sublist (rows small_table) (rows fast_table) /\
  (forall r, r ∈ rows small_table -> r ∈ rows fast_table) /\
  (rows small_table <> [] -> columns small_table = columns fast_table) /\
  display_count fast_table default_filters = Ok (len small_table, len fast_table) /\
  (len small_table <= len fast_table)%nat.
Proof.
  assert (H : filter_data fast_table default_filters = Ok small_table)
    by (vm_compute; reflexivity).
  split; [exact H|]. exact (filter_data_row_subset fast_table default_filters small_table H).
Defined.

(** ** The genre list parser *)

Lemma row_genres_body_str (s : string) :
  exists tokens, Genre_Evolution_line_chart.row_genres_body (CStr s) = Ok tokens.
Proof.
  unfold Genre_Evolution_line_chart.row_genres_body. simpl.
  destruct (_ || _); [eauto|]. destruct (negb _); eauto.
Qed.

Lemma parse_total (genres_str : cell) :
  exists tokens, Genre_Evolution_line_chart.parse genres_str = Ok tokens.
Proof.
  unfold Genre_Evolution_line_chart.parse.
  destruct (Genre_Evolution_line_chart.row_genres_body genres_str); simpl; eauto.
Qed.

Lemma row_genres_total (df : table) (r : row) :
  exists tokens, Genre_Evolution_line_chart.row_genres df r = Ok tokens.
Proof.
  unfold Genre_Evolution_line_chart.row_genres.
  match goal with |- context [try_except ?b _] => destruct b end; simpl; eauto.
Qed.

Lemma entry_genres_total (genre_list_str : cell) :
  exists tokens, Filter_component_genres.entry_genres genre_list_str = Ok tokens.
Proof.
  unfold Filter_component_genres.entry_genres.
  destruct (_ && _); [|eauto].
  destruct (Filter_component_genres.entry_genres_body genre_list_str); simpl; eauto.
Qed.

(** C4: both copies of the parser give no token for the text of the empty
    list and the two tokens pop and rock for the text of that list; [None]
    and [nan] give no token; and neither copy raises, whatever the cell (and
    whatever the row and the columns of the table it is read from). *)
Theorem genre_parser_total :
  Genre_Evolution_line_chart.parse (CStr "[]") = Ok [] /\
  Genre_Evolution_line_chart.parse (CStr "['pop', 'rock']") = Ok ["pop"; "rock"] /\
  Genre_Evolution_line_chart.parse CNone = Ok [] /\
  Genre_Evolution_line_chart.parse CNaN = Ok [] /\
  Filter_component_genres.entry_genres (CStr "[]") = Ok [] /\
  Filter_component_genres.entry_genres (CStr "['pop', 'rock']") = Ok ["pop"; "rock"] /\
  Filter_component_genres.entry_genres CNone = Ok [] /\
  Filter_component_genres.entry_genres CNaN = Ok [] /\
  (forall genres_str, exists tokens,
     Genre_Evolution_line_chart.parse genres_str = Ok tokens) /\
  (forall df r, exists tokens, Genre_Evolution_line_chart.row_genres df r = Ok tokens) /\
  (forall genre_list_str, exists tokens,
     Filter_component_genres.entry_genres genre_list_str = Ok tokens).
Proof.
  repeat split; try (vm_compute; reflexivity).
  - apply parse_total.
  - apply row_genres_total.
  - apply entry_genres_total.
Qed.

(** ** The correlation heatmap *)

(** After filtering, the popularity column holds numbers only, so the
    summary cards can be made. *)
Lemma present_numbers fr (s : list cell) :
  Forall (fun x => exists q, x = CNum q) s ->
  exists qs, present s fr = Ok qs /\ length qs = length s.
Proof.
  induction 1 as [|x s (q & ->) _ (qs & Hqs & Hl)]; simpl.
  - exists []. done.
  - exists (q :: qs). rewrite Hqs. simpl. by rewrite Hl.
Qed.

Lemma filtered_popularity data F df :
  filter_data data F = Ok df -> "popularity" ∈ columns data -> rows df <> [] ->
  columns df = columns data /\
  Forall (fun x => exists q, x = CNum q) (map (at_col "popularity") (rows df)).
Proof.
  intros H Hc Hne. apply filter_data_keeps in H as (Hs & H).
  destruct H as (Hcols & _ & HP); [right; eapply sublist_nonempty; eauto|].
  split; [done|].
  apply Forall_forall. intros x Hx. apply list_elem_of_In, in_map_iff in Hx as (r & <- & Hr).
  apply list_elem_of_In in Hr. rewrite Forall_forall in HP. specialize (HP r Hr).
  destruct HP as (_ & _ & Hpop & _). apply Hpop, in_range_spec in Hc as (q & -> & _).
  eauto.
Qed.

Lemma summary_cards_filtered fr data F df :
  filter_data data F = Ok df -> "popularity" ∈ columns data -> rows df <> [] ->
  exists avg, summary_cards_of fr df = Ok (Cards (len df) avg).
Proof.
  intros H Hc Hne. destruct (filtered_popularity _ _ _ H Hc Hne) as [Hcols Hnum].
  unfold summary_cards_of, len.
  destruct (rows df) as [|r rs] eqn:E; [done|]. simpl length. simpl Nat.eqb. cbv iota.
  rewrite getitem_has by (by rewrite Hcols). simpl. rewrite E.
  destruct (present_numbers fr _ Hnum) as (qs & Hqs & Hl).
  unfold series_mean. rewrite Hqs. simpl.
  destruct qs as [|q qs]; [simpl in Hl; discriminate|]. eauto.
Qed.

Section Heatmap.
Import Audio_correlation_heatmap_chart.
Variable str_to_num : string -> option Q.


(** C7: on a dataset with its popularity column, when the filtered table is
    not empty and fewer than two features are selected (none, or a list of
    length below 2), [_update_logic] returns the figure that asks to select
    at least 2 features, and [update] passes it on with an empty error
    text; no matrix is computed. *)
Theorem update_insufficient_selection (data : table) (kw : kwargs) (df : table)
  (Hfiltered : filter_data data (filter_kwargs kw) = Ok df)
  (Hnonempty : rows df <> [])
  (Hpopularity : "popularity" ∈ columns data)
  (Hfew : match features kw with
          | None => True
          | Some selected_features => (length selected_features < 2)%nat
          end) :
  exists cards,
    _update_logic str_to_num data kw = Ok (select_at_least_2, cards) /\
    update str_to_num data kw = Ok (select_at_least_2, "", cards).
Proof.
  destruct (summary_cards_filtered frame_cards _ _ _ Hfiltered Hpopularity Hnonempty)
    as (avg & Hcards).
  exists (Cards (len df) avg).
  assert (Hlogic : _update_logic str_to_num data kw =
                   Ok (select_at_least_2, Cards (len df) avg)).
  { unfold _update_logic. rewrite Hfiltered. simpl.
    unfold chart_of, _create_summary_cards. rewrite Hcards. simpl.
    unfold len. destruct (rows df) as [|r rs]; [done|]. simpl.
    destruct (features kw) as [fs|]; [|done].
    apply Nat.ltb_lt in Hfew. by rewrite Hfew. }
  split; [exact Hlogic|]. unfold update. by rewrite Hlogic.
Qed.

(** *** Pearson's coefficient *)

Lemma Qmult_comm_eq (a b : Q) : (a * b)%Q = (b * a)%Q.
Proof. unfold Qmult. f_equal; [apply Z.mul_comm | apply Pos.mul_comm]. Qed.

Lemma dot_comm (a b : list Q) : dot a b = dot b a.
Proof.
  unfold dot. f_equal. revert b.
  induction a as [|x a IH]; intros [|y b]; simpl; try done.
  by rewrite Qmult_comm_eq, IH.
Qed.

Lemma pearson_sym (xs ys : list Q) : pearson xs ys = pearson ys xs.
Proof.
  unfold pearson.
  rewrite (Qmult_comm_eq (dot (deviations xs) (deviations xs))).
  rewrite (dot_comm (deviations xs) (deviations ys)). reflexivity.
Qed.

Lemma Qsqr_nonneg (x : Q) : (0 <= x * x)%Q.
Proof. nra. Qed.

Lemma dot_self_nonneg (d : list Q) : (0 <= dot d d)%Q.
Proof.
  unfold dot. induction d as [|x d IH]; simpl; [apply Qle_refl|].
  apply Qle_trans with (0 + 0)%Q; [apply Qle_refl|].
  apply Qplus_le_compat; [|exact IH]. apply Qsqr_nonneg.
Qed.

Lemma dot_self_zero (d : list Q) :
  (dot d d == 0)%Q -> Forall (fun x => (x == 0)%Q) d.
Proof.
  unfold dot. induction d as [|x d IH]; simpl; intros H; [constructor|].
  pose proof (Qsqr_nonneg x) as Hx. pose proof (dot_self_nonneg d) as Hd.
  unfold dot in Hd.
  assert (Hx0 : (x * x == 0)%Q).
  { apply Qle_antisym; [|exact Hx]. rewrite <- H.
    rewrite <- (Qplus_0_r (x * x)) at 1. apply Qplus_le_compat; [apply Qle_refl|exact Hd]. }
  assert (Hd0 : (Qsum (zip_with Qmult d d) == 0)%Q).
  { rewrite Hx0, Qplus_0_l in H. exact H. }
  constructor; [|auto].
  apply Qmult_integral in Hx0. tauto.
Qed.


Lemma nonconstant_spread (xs : list Q) :
  nonconstant xs -> (0 < dot (deviations xs) (deviations xs))%Q.
Proof.
  intros (a & b & Ha & Hb & Hab).
  destruct (Qlt_le_dec 0 (dot (deviations xs) (deviations xs))) as [|Hle]; [done|].
  exfalso. apply Hab.
  assert (H0 : (dot (deviations xs) (deviations xs) == 0)%Q)
    by (apply Qle_antisym; [exact Hle | apply dot_self_nonneg]).
  apply dot_self_zero in H0. rewrite Forall_forall in H0.
  assert (Hm : forall x, x ∈ xs -> (x == Qmean xs)%Q).
  { intros x Hx. specialize (H0 (x - Qmean xs)%Q).
    assert (Hin : (x - Qmean xs)%Q ∈ deviations xs).
    { unfold deviations. apply list_elem_of_In, in_map_iff. exists x.
      split; [done|]. by apply list_elem_of_In. }
    apply H0 in Hin. simpl in Hin. lra. }
  rewrite (Hm a Ha), (Hm b Hb). reflexivity.
Qed.

Lemma pearson_self (xs : list Q) : nonconstant xs -> pearson xs xs = Some 1%R.
Proof.
  intros H. apply nonconstant_spread in H. unfold pearson.
  set (s := dot (deviations xs) (deviations xs)) in *.
  assert (Hss : (0 < s * s)%Q) by (apply Qmult_lt_0_compat; exact H).
  destruct (Qeq_bool (s * s) 0) eqn:E.
  { apply Qeq_bool_iff in E. rewrite E in Hss. by apply Qlt_irrefl in Hss. }
  f_equal. rewrite Q2R_mult.
  assert (Hs : (0 < Q2R s)%R) by (rewrite <- RMicromega.Q2R_0; by apply Qlt_Rlt).
  rewrite sqrt_square by Lra.lra. field. Lra.lra.
Qed.

Lemma lookup_map_seq {A} (f : nat -> A) (n i : nat) :
  (i < n)%nat -> map f (seq 0 n) !! i = Some (f i).
Proof.
  intros Hi. change (map f (seq 0 n)) with (f <$> seq 0 n).
  rewrite list_lookup_fmap, lookup_seq_lt by done. reflexivity.
Qed.


Lemma corr_entry (n : nat) (d : list (list Q)) (i j : nat) :
  (i < n)%nat -> (j < n)%nat ->
  corr n d !! i ≫= (.!! j) = Some (pearson (column i d) (column j d)).
Proof.
  intros Hi Hj. unfold corr. rewrite lookup_map_seq by done. simpl.
  by rewrite lookup_map_seq.
Qed.

Lemma find_missing_none (df : table) (fs : list string) :
  (forall f, f ∈ fs -> f ∈ columns df) ->
  List.find (fun f => negb (has_column df f)) fs = None.
Proof.
  intros H. induction fs as [|f fs IH]; simpl; [done|].
  assert (Hf : has_column df f = true) by (apply has_column_true, H; left).
  rewrite Hf. simpl. apply IH. intros g Hg. apply H. by right.
Qed.

(** C5: on a dataset with its popularity column, for a selection of at
    least two distinct feature columns each of which still takes two
    different values once the rows with a missing value are dropped,
    [_update_logic] returns the heatmap of the correlation matrix; the
    matrix has one row per feature, entry (i, j) equals entry (j, i), and
    every diagonal entry is 1. *)
Theorem corr_matrix_symmetric_unit_diagonal (data : table) (kw : kwargs) (df : table) (fs : list string)
  (Hfiltered : filter_data data (filter_kwargs kw) = Ok df)
  (Hpopularity : "popularity" ∈ columns data)
  (Hfeatures : features kw = Some fs)
  (Htwo : (2 <= length fs)%nat)
  (Hdistinct : NoDup fs)
  (Hcolumns : forall f, f ∈ fs -> f ∈ columns df)
  (Hvaried : forall i, (i < length fs)%nat ->
     nonconstant (column i (dropna_rows (feature_data str_to_num df fs)))) :
  exists corr_matrix cards,
    _update_logic str_to_num data kw =
      Ok (Chart (HeatmapData corr_matrix fs (bool_decide ("enabled" ∈ significance kw))),
          cards) /\
    length corr_matrix = length fs /\
    (forall i j, (i < length fs)%nat -> (j < length fs)%nat ->
       exists v, corr_matrix !! i ≫= (.!! j) = Some v /\
                 corr_matrix !! j ≫= (.!! i) = Some v) /\
    (forall i, (i < length fs)%nat -> corr_matrix !! i ≫= (.!! i) = Some (Some 1%R)).
Proof.
  set (d := dropna_rows (feature_data str_to_num df fs)) in *.
  assert (Hd : d <> []).
  { destruct (Hvaried 0%nat) as (a & _ & Ha & _); [lia|].
    intros E. rewrite E in Ha. simpl in Ha. by apply elem_of_nil in Ha. }
  assert (Hrows : rows df <> []).
  { intros E. apply Hd. unfold d, feature_data. by rewrite E. }
  destruct (summary_cards_filtered frame_cards _ _ _ Hfiltered Hpopularity Hrows)
    as (avg & Hcards).
  exists (corr (length fs) d), (Cards (len df) avg).
  split; [|split; [|split]].
  - unfold _update_logic. rewrite Hfiltered. simpl.
    unfold chart_of, _create_summary_cards. rewrite Hcards. simpl.
    unfold len. destruct (rows df) as [|r rs] eqn:E; [done|]. simpl length. simpl Nat.eqb.
    cbv iota. rewrite Hfeatures.
    destruct (length fs <? 2)%nat eqn:E2; [apply Nat.ltb_lt in E2; lia|].
    rewrite find_missing_none by done.
    rewrite (bool_decide_eq_true_2 _ Hdistinct). simpl negb. cbv iota.
    fold d. destruct d as [|q d']; [done|]. reflexivity.
  - unfold corr. by rewrite length_map, length_seq.
  - intros i j Hi Hj. exists (pearson (column i d) (column j d)).
    rewrite !corr_entry by done. split; [done|]. by rewrite pearson_sym.
  - intros i Hi. rewrite corr_entry by done. f_equal. apply pearson_self. by apply Hvaried.
Qed.









End Heatmap.

(** ** The tempo and energy chart *)

Section TempoEnergy.
Import Tempo_energy_chart.
Variable str_to_num : string -> option Q.
Variable float_str : Q -> string.

Lemma in_tempo_range_inverted (lo hi : Q) (l : list (Q * Q)) :
  (hi < lo)%Q -> List.filter (in_tempo_range lo hi) l = [].
Proof.
  intros Hlt. induction l as [|p l IH]; simpl; [done|].
  destruct (in_tempo_range lo hi p) eqn:E; [|exact IH].
  unfold in_tempo_range in E. apply andb_true_iff in E as [H1 H2].
  apply Qle_bool_iff in H1, H2. lra.
Qed.

(** With the bounds of the chart's own tempo control swapped, a filtered
    table that has a row gives the figure that says no track is in range,
    and the error text stays empty. *)
Lemma tempo_control_inverted (data : table) (kw : kwargs) (df : table) :
  filter_data data (filter_kwargs kw) = Ok df -> rows df <> [] ->
  "popularity" ∈ columns data -> "tempo" ∈ columns data -> "energy" ∈ columns data ->
  (default 180 (plot_tempo_max kw) < default 60 (plot_tempo_min kw))%Q ->
  exists cards,
    update str_to_num float_str data kw =
      Ok (no_tracks_in_range float_str (default 60%Q (plot_tempo_min kw))
            (default 180%Q (plot_tempo_max kw)), "", cards).
Proof.
  intros Hf Hne Hp Ht He Hinv.
  destruct (summary_cards_filtered frame_cards _ _ _ Hf Hp Hne) as (avg & Hcards).
  destruct (filtered_popularity _ _ _ Hf Hp Hne) as [Hcols _].
  exists (Cards (len df) avg).
  unfold update, _update_logic. rewrite Hf. simpl.
  unfold _create_summary_cards. rewrite Hcards. simpl.
  unfold len. destruct (rows df) as [|r rs] eqn:E; [done|]. simpl length. simpl Nat.eqb.
  cbv iota. rewrite !getitem_has by (by rewrite Hcols). simpl.
  rewrite in_tempo_range_inverted by done. reflexivity.
Qed.

End TempoEnergy.





(** The boundary at work: the missing genres value of the untagged track
    makes the filter raise, and the callback turns that into the error
    figure and a diagnostic text. *)
Lemma update_reports_filter_error :
  exists e,
    Audio_correlation_heatmap_chart._update_logic no_numeral untagged_table pop_inverted
      = Raise e /\
    exc_type e = TypeError /\
    Audio_correlation_heatmap_chart.update no_numeral untagged_table pop_inverted
      = Ok (Audio_correlation_heatmap_chart.empty_fig,
            error_msg e, NoCards).
Proof. eexists. split; [vm_compute; reflexivity|]. split; reflexivity. Qed.

Lemma update_insufficient_selection_witness :
  exists cards,
    Audio_correlation_heatmap_chart._update_logic no_numeral two_tracks one_feature
      = Ok (Audio_correlation_heatmap_chart.select_at_least_2, cards) /\
    Audio_correlation_heatmap_chart.update no_numeral two_tracks one_feature
      = Ok (Audio_correlation_heatmap_chart.select_at_least_2, "", cards).
Proof.
  apply (update_insufficient_selection no_numeral two_tracks one_feature two_tracks).
  - vm_compute. reflexivity.
  - discriminate.
  - decide_closed.
  - simpl. lia.
Defined.

Lemma corr_matrix_symmetric_unit_diagonal_witness :
  exists corr_matrix cards,
    Audio_correlation_heatmap_chart._update_logic no_numeral two_tracks two_features =
      Ok (Chart (Audio_correlation_heatmap_chart.HeatmapData corr_matrix
                   ["energy"; "danceability"] false), cards) /\
    length corr_matrix = 2%nat /\
    (forall i j, (i < 2)%nat -> (j < 2)%nat ->
       exists v, corr_matrix !! i ≫= (.!! j) = Some v /\
                 corr_matrix !! j ≫= (.!! i) = Some v) /\
    (forall i, (i < 2)%nat -> corr_matrix !! i ≫= (.!! i) = Some (Some 1%R)).
Proof.
  apply (corr_matrix_symmetric_unit_diagonal no_numeral two_tracks two_features two_tracks
           ["energy"; "danceability"]).
  - vm_compute. reflexivity.
  - decide_closed.
  - reflexivity.
  - simpl. lia.
  - decide_closed.
  - intros f Hf. apply list_elem_of_In in Hf. simpl in Hf.
    destruct Hf as [<-|[<-|[]]]; decide_closed.
  - intros i Hi. simpl in Hi.
    destruct i as [|[|i]]; [| |lia].
    + exists (1 # 2)%Q, (2 # 10)%Q. vm_compute.
      split; [apply list_elem_of_here|].
      split; [apply list_elem_of_further, list_elem_of_here | discriminate].
    + exists (1 # 2)%Q, (7 # 10)%Q. vm_compute.
      split; [apply list_elem_of_here|].
      split; [apply list_elem_of_further, list_elem_of_here | discriminate].
Defined.

(** ** The normalization of the genre fingerprint *)

Section Normalization.
Import Genre_fingerprint_chart.


Lemma fold_min_le (xs : list Q) (a : Q) :
  (fold_left Qmin xs a <= a)%Q /\ forall v, v ∈ xs -> (fold_left Qmin xs a <= v)%Q.
Proof.
  revert a. induction xs as [|x xs IH]; intros a; simpl.
  - split; [apply Qle_refl|]. intros v Hv. by apply elem_of_nil in Hv.
  - destruct (IH (Qmin a x)) as [H1 H2]. split.
    + eapply Qle_trans; [exact H1|]. apply Q.le_min_l.
    + intros v [->|Hv]%elem_of_cons; [|auto].
      eapply Qle_trans; [exact H1|]. apply Q.le_min_r.
Qed.

Lemma fold_max_ge (xs : list Q) (a : Q) :
  (a <= fold_left Qmax xs a)%Q /\ forall v, v ∈ xs -> (v <= fold_left Qmax xs a)%Q.
Proof.
  revert a. induction xs as [|x xs IH]; intros a; simpl.
  - split; [apply Qle_refl|]. intros v Hv. by apply elem_of_nil in Hv.
  - destruct (IH (Qmax a x)) as [H1 H2]. split.
    + eapply Qle_trans; [|exact H1]. apply Q.le_max_l.
    + intros v [->|Hv]%elem_of_cons; [|auto].
      eapply Qle_trans; [|exact H1]. apply Q.le_max_r.
Qed.

Lemma np_min_max (vs : list Q) :
  vs <> [] ->
  exists lo hi, np_min vs = Ok lo /\ np_max vs = Ok hi /\
    forall v, v ∈ vs -> (lo <= v)%Q /\ (v <= hi)%Q.
Proof.
  destruct vs as [|x xs]; [done|]. intros _.
  exists (fold_left Qmin xs x), (fold_left Qmax xs x).
  split; [done|]. split; [done|]. intros v Hv.
  apply elem_of_cons in Hv as [->|Hv].
  - split; [apply (proj1 (fold_min_le xs x)) | apply (proj1 (fold_max_ge xs x))].
  - split; [by apply (proj2 (fold_min_le xs x)) | by apply (proj2 (fold_max_ge xs x))].
Qed.

Lemma scaled_unit (lo hi v : Q) :
  (lo < hi)%Q -> (lo <= v)%Q -> (v <= hi)%Q ->
  unit_interval ((v - lo) / (hi - lo))%Q.
Proof.
  intros Hlt Hlo Hhi. assert (Hd : (0 < hi - lo)%Q) by lra. split.
  - apply Qle_shift_div_l; [exact Hd|]. lra.
  - apply Qle_shift_div_r; [exact Hd|]. lra.
Qed.

Lemma Qlt_bool_true (a b : Q) : Qlt_bool a b = true <-> (a < b)%Q.
Proof.
  unfold Qlt_bool. rewrite negb_true_iff. split.
  - intros H. apply Qnot_le_lt. intros Hle. apply Qle_bool_iff in Hle. congruence.
  - intros H. destruct (Qle_bool b a) eqn:E; [|done].
    apply Qle_bool_iff in E. lra.
Qed.

Lemma get_column_rect (n w i : nat) (a : matrix) :
  rect n w a -> (i < w)%nat ->
  exists vs, get_column a i = Ok vs /\ length vs = n /\
             Forall2 (fun r v => r !! i = Some v) a vs.
Proof.
  intros [Hn Hw] Hi. revert n Hn. induction Hw as [|r a Hr _ IH]; intros n Hn; simpl in *.
  - exists []. subst. repeat split. constructor.
  - destruct (lookup_lt_is_Some_2 r i) as [v Hv]; [lia|].
    destruct (IH (length a) eq_refl) as (vs & Hvs & Hl & HF).
    exists (v :: vs). rewrite Hv, Hvs. simpl. subst n. repeat split; [by rewrite Hl|].
    by constructor.
Qed.

Lemma set_column_rect (n w i : nat) (vals : list Q) (acc : matrix) :
  rect n w acc -> rect n w (set_column i vals acc).
Proof.
  intros [Hn Hw]. revert n Hn vals.
  induction Hw as [|r a Hr Ha IH]; intros n Hn [|v vals]; simpl in *;
    try (split; [done | by constructor]).
  destruct (IH (length a) eq_refl vals) as [Hl HF].
  split; simpl; [by rewrite Hl|]. constructor; [by rewrite length_insert | done].
Qed.

Lemma set_column_unit (i : nat) (vals : list Q) (acc : matrix) :
  unit_entries acc -> Forall unit_interval vals -> unit_entries (set_column i vals acc).
Proof.
  intros Hacc. revert vals.
  induction Hacc as [|r a Hr Ha IH]; intros [|v vals] Hv; simpl.
  - constructor.
  - constructor.
  - by constructor.
  - inversion Hv; subst. constructor; [by apply Forall_insert | by apply IH].
Qed.

Lemma set_column_other (i j : nat) (vals : list Q) (acc : matrix) :
  i <> j -> Forall2 (fun r r' => r !! j = r' !! j) acc (set_column i vals acc).
Proof.
  intros Hij. revert vals. induction acc as [|r a IH]; intros [|v vals]; simpl.
  - constructor.
  - constructor.
  - apply Forall_Forall2_diag, Forall_forall. done.
  - constructor; [by rewrite list_lookup_insert_ne | apply IH].
Qed.

Lemma fill_column_rect (n w i : nat) (c : Q) (acc : matrix) :
  rect n w acc -> rect n w (fill_column i c acc).
Proof.
  intros [Hn Hw]. unfold fill_column. split; [by rewrite length_map|].
  clear Hn. induction Hw; simpl; [constructor|]. constructor; [by rewrite length_insert | done].
Qed.

Lemma fill_column_unit (i : nat) (c : Q) (acc : matrix) :
  unit_entries acc -> unit_interval c -> unit_entries (fill_column i c acc).
Proof.
  intros Hacc Hc. unfold fill_column.
  induction Hacc; simpl; [constructor|]. constructor; [by apply Forall_insert | done].
Qed.

Lemma fill_column_other (i j : nat) (c : Q) (acc : matrix) :
  i <> j -> Forall2 (fun r r' => r !! j = r' !! j) acc (fill_column i c acc).
Proof.
  intros Hij. unfold fill_column. induction acc; simpl; [constructor|].
  constructor; [|done]. by rewrite list_lookup_insert_ne.
Qed.

Lemma fill_column_at (n w i : nat) (c : Q) (acc : matrix) :
  rect n w acc -> (i < w)%nat -> Forall (fun r => r !! i = Some c) (fill_column i c acc).
Proof.
  intros [_ Hw] Hi. unfold fill_column.
  induction Hw as [|r a Hr _ IH]; simpl; [constructor|].
  constructor; [|done]. apply list_lookup_insert_eq. lia.
Qed.


Lemma Forall2_lookup_Forall {A} (P : A -> Prop) (R : A -> A -> Prop) (l l' : list A) :
  (forall x y, P x -> R x y -> P y) -> Forall P l -> Forall2 R l l' -> Forall P l'.
Proof.
  intros HPR Hl HR. induction HR as [|x y l l' Hxy _ IH]; [constructor|].
  inversion Hl; subst. constructor; eauto.
Qed.

Lemma Forall2_lookup_trans (j : nat) (a b c : matrix) :
  Forall2 (fun r r' => r !! j = r' !! j) a b ->
  Forall2 (fun r r' => r !! j = r' !! j) b c ->
  Forall2 (fun r r' => r !! j = r' !! j) a c.
Proof.
  intros Hab. revert c. induction Hab as [|x y a b Hxy _ IH]; intros c Hbc.
  - inversion Hbc. constructor.
  - inversion Hbc; subst. constructor; [congruence | auto].
Qed.

Lemma normalize_feature_ok (n w i : nat) (heatmap_data acc : matrix) :
  (0 < n)%nat -> rect n w heatmap_data -> rect n w acc -> (i < w)%nat ->
  exists acc',
    normalize_feature heatmap_data acc i = Ok acc' /\
    rect n w acc' /\
    (unit_entries acc -> unit_entries acc') /\
    (forall j, j <> i -> Forall2 (fun r r' => r !! j = r' !! j) acc acc') /\
    (constant_column heatmap_data i -> Forall (fun r => r !! i = Some (1 # 2)%Q) acc').
Proof.
  intros Hn Hm Hacc Hi.
  destruct (get_column_rect n w i heatmap_data Hm Hi) as (vs & Hvs & Hl & _).
  assert (Hne : vs <> []) by (destruct vs; simpl in Hl; [lia | done]).
  destruct (np_min_max vs Hne) as (lo & hi & Hlo & Hhi & Hbounds).
  unfold normalize_feature. rewrite Hvs. simpl. rewrite Hlo. simpl. rewrite Hhi. simpl.
  destruct (Qlt_bool lo hi) eqn:E.
  - apply Qlt_bool_true in E. eexists. split; [reflexivity|].
    split; [by apply set_column_rect|]. split; [|split].
    + intros Hu. apply set_column_unit; [done|].
      apply Forall_forall. intros x Hx.
      apply list_elem_of_In, in_map_iff in Hx as (v & <- & Hv). apply list_elem_of_In in Hv.
      destruct (Hbounds v Hv). by apply scaled_unit.
    + intros j Hj. apply set_column_other. done.
    + intros (vs' & lo' & hi' & Hvs' & Hlo' & Hhi' & Heq). exfalso.
      rewrite Hvs in Hvs'. injection Hvs' as <-.
      rewrite Hlo in Hlo'. injection Hlo' as <-.
      rewrite Hhi in Hhi'. injection Hhi' as <-. lra.
  - eexists. split; [reflexivity|].
    split; [by apply fill_column_rect|]. split; [|split].
    + intros Hu. apply fill_column_unit; [done|]. split; lra.
    + intros j Hj. apply fill_column_other. done.
    + intros _. by eapply fill_column_at.
Qed.

Lemma normalize_loop_ok (n w : nat) (heatmap_data : matrix) (indices : list nat) :
  (0 < n)%nat -> rect n w heatmap_data ->
  Forall (fun i => (i < w)%nat) indices -> NoDup indices ->
  forall acc, rect n w acc ->
  exists acc',
    normalize_loop heatmap_data acc indices = Ok acc' /\
    rect n w acc' /\
    (unit_entries acc -> unit_entries acc') /\
    (forall j, j ∉ indices -> Forall2 (fun r r' => r !! j = r' !! j) acc acc') /\
    (forall i, i ∈ indices -> constant_column heatmap_data i ->
       Forall (fun r => r !! i = Some (1 # 2)%Q) acc').
Proof.
  intros Hn Hm Hlt Hnd. induction indices as [|i rest IH]; intros acc Hacc; simpl.
  - exists acc. split; [done|]. split; [done|]. split; [done|]. split.
    + intros j _. apply Forall_Forall2_diag, Forall_forall. done.
    + intros i Hi. by apply elem_of_nil in Hi.
  - inversion Hlt as [|? ? Hi Hrest]; subst. apply NoDup_cons in Hnd as [Hnotin Hnd].
    destruct (normalize_feature_ok n w i heatmap_data acc Hn Hm Hacc Hi)
      as (acc1 & Hstep & Hrect1 & Hunit1 & Hother1 & Hconst1).
    destruct (IH Hrest Hnd acc1 Hrect1) as (acc' & Hloop & Hrect & Hunit & Hother & Hconst).
    exists acc'. rewrite Hstep. simpl. split; [done|]. split; [done|].
    split; [auto|]. split.
    + intros j Hj. apply not_elem_of_cons in Hj as [Hji Hj].
      eapply Forall2_lookup_trans; eauto.
    + intros k [->|Hk]%elem_of_cons Hc; [|auto].
      eapply Forall2_lookup_Forall; [|exact (Hconst1 Hc)|exact (Hother i Hnotin)].
      simpl. intros x y Hx Hxy. congruence.
Qed.

Lemma zeros_like_rect (n w : nat) (a : matrix) : rect n w a -> rect n w (zeros_like a).
Proof.
  intros [Hn Hw]. unfold zeros_like. split; [by rewrite length_map|].
  clear Hn. induction Hw; simpl; [constructor|].
  constructor; [by rewrite length_map | done].
Qed.

Lemma zeros_like_unit (a : matrix) : unit_entries (zeros_like a).
Proof.
  unfold zeros_like, unit_entries. induction a as [|r a IH]; simpl; [constructor|].
  constructor; [|done]. clear. induction r; simpl; [constructor|].
  constructor; [|done]. unfold unit_interval. split; lra.
Qed.

(** C8: for a matrix of averages with at least one genre and one entry per
    audio feature, the normalization returns a matrix of the same shape
    whose entries all lie between 0 and 1, and in which the column of a
    feature whose maximum equals its minimum holds 1/2 for every genre. *)
Theorem normalize_unit_interval (heatmap_data : matrix)
  (Hgenres : heatmap_data <> [])
  (Hfeatures : Forall (fun r => length r = length audio_features) heatmap_data) :
  exists normalized,
    normalize heatmap_data = Ok normalized /\
    length normalized = length heatmap_data /\
    Forall (fun r => length r = length audio_features) normalized /\
    Forall (Forall (fun v => (0 <= v)%Q /\ (v <= 1)%Q)) normalized /\
    forall i, (i < length audio_features)%nat -> constant_column heatmap_data i ->
      Forall (fun r => r !! i = Some (1 # 2)%Q) normalized.
Proof.
  assert (Hn : (0 < length heatmap_data)%nat)
    by (destruct heatmap_data; [done | simpl; lia]).
  set (n := length heatmap_data) in *. set (w := length audio_features) in *.
  assert (Hm : rect n w heatmap_data) by done.
  destruct (normalize_loop_ok n w heatmap_data (seq 0 w) Hn Hm) with (acc := zeros_like heatmap_data)
    as (acc' & Hloop & [Hl Hw] & Hunit & _ & Hconst).
  - apply Forall_forall. intros i Hi%elem_of_seq. lia.
  - apply NoDup_seq.
  - by apply zeros_like_rect.
  - exists acc'. split; [exact Hloop|]. split; [done|]. split; [done|].
    split; [apply Hunit, zeros_like_unit|].
    intros i Hi. apply Hconst. apply elem_of_seq. lia.
Qed.

End Normalization.

Lemma normalize_unit_interval_witness :
  exists normalized,
    Genre_fingerprint_chart.normalize three_genres = Ok normalized /\
    length normalized = length three_genres /\
    Forall (fun r => length r = length Genre_fingerprint_chart.audio_features) normalized /\
    Forall (Forall (fun v => (0 <= v)%Q /\ (v <= 1)%Q)) normalized /\
    forall i, (i < length Genre_fingerprint_chart.audio_features)%nat ->
      constant_column three_genres i ->
      Forall (fun r => r !! i = Some (1 # 2)%Q) normalized.
Proof.
  apply (normalize_unit_interval three_genres).
  - discriminate.
  - repeat constructor.
Defined.

(** The second feature of the example is constant, and its column comes out
    as 1/2. *)
Lemma three_genres_constant_feature :
  constant_column three_genres 1 /\
  exists normalized,
    Genre_fingerprint_chart.normalize three_genres = Ok normalized /\
    Forall (fun r => r !! 1%nat = Some (1 # 2)%Q) normalized.
Proof.
  split.
  - exists [2 # 10; 2 # 10; 2 # 10]%Q, (2 # 10)%Q, (2 # 10)%Q.
    repeat split; try (vm_compute; reflexivity).
  - eexists. split; [vm_compute; reflexivity|]. repeat constructor.
Qed.

(** ** The bar chart *)

Section BarChart.
Import Bar_chart.

Lemma eq_str_true (x : cell) (l : string) : eq_str x l = true <-> x = CStr l.
Proof.
  destruct x; simpl; try (split; [discriminate|intros [=]]).
  rewrite String.eqb_eq. split; [by intros ->|by intros [= ->]].
Qed.

(** The groups are the labels that occur in the group column, each once,
    in ascending order. *)
Lemma group_labels_spec (keys : list cell) :
  NoDup (group_labels keys) /\
  Sorted str_le (group_labels keys) /\
  forall l, l ∈ group_labels keys <-> CStr l ∈ keys.
Proof.
  unfold group_labels. split; [|split].
  - rewrite merge_sort_Permutation. apply NoDup_remove_dups.
  - apply Sorted_merge_sort. intros a b. unfold str_le.
    destruct (String.leb a b) eqn:E; [by left|right].
    unfold String.leb in *. rewrite String.compare_antisym.
    destruct (String.compare a b); simpl in *; done.
  - intros l. rewrite merge_sort_Permutation, elem_of_remove_dups, list_elem_of_omap.
    split.
    + intros (x & Hx & Hl). destruct x; simpl in Hl; try discriminate. by injection Hl as ->.
    + intros H. exists (CStr l). done.
Qed.

Lemma group_values_Forall (P : cell -> Prop) l keys values :
  Forall P values -> Forall P (group_values l keys values).
Proof.
  intros H. revert keys. induction H as [|x values Hx _ IH]; intros [|k keys]; simpl; try done.
  destruct (eq_str k l); [constructor|]; auto.
Qed.

Lemma group_values_nonempty l keys values :
  CStr l ∈ keys -> length keys = length values -> group_values l keys values <> [].
Proof.
  revert values. induction keys as [|k keys IH]; intros values Hin Hlen.
  - by apply not_elem_of_nil in Hin.
  - destruct values as [|x values]; [discriminate|]. simpl.
    destruct (eq_str k l) eqn:E; [done|].
    apply IH; [|by injection Hlen].
    apply elem_of_cons in Hin as [<-|Hin]; [|done].
    rewrite (proj2 (eq_str_true _ _) eq_refl) in E. discriminate.
Qed.

(** On a column of numbers every group gets a mean. *)
Lemma groupby_mean_numbers keys popularity :
  Forall (fun x => exists q, x = CNum q) popularity ->
  length keys = length popularity ->
  exists grouped,
    groupby_mean keys popularity = Ok (map group_row grouped) /\
    map fst grouped = group_labels keys /\
    Forall (fun g => series_mean (group_values g.1 keys popularity) frame = Ok (Some g.2))
           grouped.
Proof.
  intros Hnum Hlen. unfold groupby_mean.
  assert (Hl : Forall (fun l => CStr l ∈ keys) (group_labels keys)).
  { apply Forall_forall. intros l Hl. by apply group_labels_spec. }
  induction Hl as [|l ls Hin _ (grouped & Hm & Hfst & Hall)].
  - exists []. done.
  - destruct (present_numbers frame _ (group_values_Forall _ l keys _ Hnum))
      as (qs & Hqs & Hlq).
    assert (Hmean : series_mean (group_values l keys popularity) frame = Ok (Some (Qmean qs))).
    { unfold series_mean. rewrite Hqs. simpl. destruct qs as [|q qs]; [|done].
      pose proof (group_values_nonempty l keys popularity Hin Hlen) as Hne.
      destruct (group_values l keys popularity); [done|discriminate]. }
    exists ((l, Qmean qs) :: grouped).
    split; [|split].
    + cbn [mapM]. rewrite Hmean. simpl. rewrite Hm. reflexivity.
    + simpl. by rewrite Hfst.
    + constructor; [exact Hmean|exact Hall].
Qed.

Variable argsort : list Q -> list nat.

Lemma non_nan_present (i : nat) (qs : list Q) :
  non_nan i (map Some qs) = zip (seq i (length qs)) qs /\ nan_idx i (map Some qs) = [].
Proof.
  revert i. induction qs as [|q qs IH]; intros i; simpl; [done|].
  destruct (IH (S i)) as [-> ->]. done.
Qed.

Lemma omap_reverse {A B} (f : A -> option B) (l : list A) :
  omap f (reverse l) = reverse (omap f l).
Proof.
  induction l as [|x l IH]; [done|].
  rewrite reverse_cons, omap_app, IH. simpl.
  destruct (f x); simpl; [by rewrite reverse_cons|by rewrite app_nil_r].
Qed.

Lemma omap_lookup_seq {A} (l : list A) : omap (fun p => l !! p) (seq 0 (length l)) = l.
Proof.
  induction l as [|x l IH] using rev_ind; [done|].
  rewrite length_app. simpl. rewrite Nat.add_1_r, seq_S, omap_app. simpl.
  rewrite list_lookup_middle by done. simpl. f_equal.
  rewrite <- IH at 2. apply list_omap_ext.
  apply Forall2_same_length_lookup. split; [done|].
  intros i p q Hp Hq. assert (p = q) as <- by congruence.
  apply lookup_seq in Hp as [-> Hlt]. simpl. by rewrite lookup_app_l.
Qed.

Lemma omap_lookup_fmap {A B} (f : A -> B) (l : list A) (ps : list nat) :
  omap (fun i => (f <$> l) !! i) ps = f <$> omap (fun i => l !! i) ps.
Proof.
  induction ps as [|p ps IH]; [done|].
  cbn [omap list_omap]. rewrite list_lookup_fmap.
  destruct (l !! p); csimpl; by rewrite IH.
Qed.

(** The rows that the indexer of [nargsort] takes, read from the reversed
    table. *)
Lemma take_reversed {A} `{Inhabited A} (l : list A) (ps : list nat) :
  Forall (fun p => (p < length l)%nat) ps ->
  omap (fun i => l !! i) (map (fun p => reverse (seq 0 (length l)) !!! p) ps)
  = map (fun p => reverse l !!! p) ps /\
  omap (fun p => reverse l !! p) ps = map (fun p => reverse l !!! p) ps.
Proof.
  induction 1 as [|p ps Hp _ [IH1 IH2]]; [done|].
  assert (Hidx : reverse (seq 0 (length l)) !!! p = (length l - S p)%nat).
  { apply list_lookup_total_correct. rewrite reverse_lookup by (by rewrite length_seq).
    rewrite length_seq. apply lookup_seq. lia. }
  destruct (lookup_lt_is_Some_2 l (length l - S p)) as [x Hx]; [lia|].
  assert (Hrev : reverse l !! p = Some x) by (by rewrite reverse_lookup).
  rewrite !map_cons, Hidx, (list_lookup_total_correct _ _ _ Hrev).
  split.
  - rewrite <- IH1. cbn [omap list_omap]. by rewrite Hx.
  - rewrite <- IH2. cbn [omap list_omap]. by rewrite Hrev.
Qed.

(** [sort_values] on groups that all have a mean, when [argsort] sorts the
    array it is given: a rearrangement in which the means descend. *)
Lemma sort_values_sorted (grouped : list (string * Q)) :
  sorts argsort (reverse (map snd grouped)) ->
  exists sorted,
    sort_values argsort (map group_row grouped) = map group_row sorted /\
    sorted ≡ₚ grouped /\
    Sorted (flip Qle) (map snd sorted).
Proof.
  intros [Hperm Hsorted].
  set (P := argsort (reverse (map snd grouped))) in *.
  assert (Hn : length (reverse (map snd grouped)) = length grouped).
  { by rewrite length_reverse, length_map. }
  rewrite Hn in Hperm.
  assert (Hlt : Forall (fun p => (p < length grouped)%nat) P).
  { apply Forall_forall. intros p Hp. rewrite Hperm in Hp.
    apply list_elem_of_In, in_seq in Hp. lia. }
  destruct (take_reversed grouped P Hlt) as [Htake Hlook].
  exists (reverse (map (fun p => reverse grouped !!! p) P)).
  split; [|split].
  - unfold sort_values, nargsort.
    assert (Hitems : map snd (map group_row grouped) = map Some (map snd grouped)).
    { rewrite !map_map. done. }
    rewrite Hitems.
    destruct (non_nan_present 0 (map snd grouped)) as [-> ->].
    rewrite length_map.
    assert (Hfst : map fst (zip (seq 0 (length grouped)) (map snd grouped))
                   = seq 0 (length grouped)).
    { apply fst_zip. rewrite length_seq, length_map. done. }
    assert (Hsnd : map snd (zip (seq 0 (length grouped)) (map snd grouped))
                   = map snd grouped).
    { apply snd_zip. rewrite length_seq, length_map. done. }
    rewrite Hfst, Hsnd. fold P. rewrite app_nil_r, omap_reverse.
    change (map group_row ?l) with (group_row <$> l). rewrite fmap_reverse. f_equal.
    rewrite <- Htake. apply omap_lookup_fmap.
  - rewrite reverse_Permutation, <- Hlook, Hperm.
    rewrite <- (length_reverse grouped), omap_lookup_seq. apply reverse_Permutation.
  - change (map snd ?l) with (snd <$> l). rewrite fmap_reverse.
    apply Sorted_reverse.
    replace (snd <$> map (fun p => reverse grouped !!! p) P)
      with (map (fun p => reverse (map snd grouped) !!! p) P); [exact Hsorted|].
    change (map snd grouped) with (snd <$> grouped).
    rewrite <- fmap_reverse, <- list_fmap_compose.
    apply Forall_fmap_ext_1. eapply Forall_impl; [exact Hlt|].
    intros p Hp. simpl. apply list_lookup_total_fmap. by rewrite length_reverse.
Qed.

Lemma mapM_bar (l : list (string * Q)) : mapM bar (map group_row l) = Ok l.
Proof.
  induction l as [|[a q] l IH]; [done|].
  cbn [map mapM]. simpl. rewrite IH. done.
Qed.

Lemma group_keys_length (df : table) (groupby_value : string) (keys : list cell) :
  group_keys df groupby_value = Ok keys -> length keys = length (rows df).
Proof.
  unfold group_keys. intros H.
  destruct (String.eqb groupby_value "key"); [|destruct (String.eqb groupby_value "mode")].
  - apply bind_Ok in H as (s & Hs & [= <-]). apply getitem_Ok in Hs as [_ ->].
    by rewrite !length_map.
  - apply bind_Ok in H as (s & Hs & [= <-]). apply getitem_Ok in Hs as [_ ->].
    by rewrite !length_map.
  - apply getitem_Ok in H as [_ ->]. by rewrite length_map.
Qed.

(** C6 (amended): on a dataset with its popularity column, when the
    filtered table is not empty, the group column exists and [argsort]
    sorts the array of group means that it is given, the bar chart shows
    the first N rows of a rearrangement of the groups in which the means
    descend; the groups are the labels of the group column in ascending
    order, each with the mean popularity of its rows.  The order of groups
    with equal means is the one that [argsort] produces. *)
Theorem bar_chart_top_groups (data : table) (kw : kwargs) (df : table) (keys : list cell)
  (Hfiltered : filter_data data (filter_kwargs kw) = Ok df)
  (Hnonempty : rows df <> [])
  (Hpopularity : "popularity" ∈ columns data)
  (Hkeys : group_keys df (default "artists" (groupby kw)) = Ok keys)
  (Hargsort : sorts argsort (sorted_column keys (map (at_col "popularity") (rows df)))) :
  exists grouped sorted cards,
    groupby_mean keys (map (at_col "popularity") (rows df)) = Ok (map group_row grouped) /\
    map fst grouped = group_labels keys /\
    Forall (fun g => series_mean
                       (group_values g.1 keys (map (at_col "popularity") (rows df))) frame
                     = Ok (Some g.2)) grouped /\
    sorted ≡ₚ grouped /\
    Sorted (flip Qle) (map snd sorted) /\
    _update_logic argsort data kw
      = Ok (Chart (take (default 15%nat (limit kw)) sorted), cards).
Proof.
  destruct (filtered_popularity _ _ _ Hfiltered Hpopularity Hnonempty) as [Hcols Hnum].
  set (popularity := map (at_col "popularity") (rows df)) in *.
  pose proof (group_keys_length _ _ _ Hkeys) as Hlen.
  destruct (groupby_mean_numbers keys popularity Hnum) as (grouped & Hm & Hfst & Hall).
  { subst popularity. by rewrite length_map. }
  unfold sorted_column in Hargsort. rewrite Hm in Hargsort.
  assert (Hmeans : omap snd (map group_row grouped) = map snd grouped).
  { clear. induction grouped as [|g grouped IH]; [done|]. csimpl. by rewrite IH. }
  rewrite Hmeans in Hargsort.
  destruct (sort_values_sorted grouped Hargsort) as (sorted & Hsv & Hperm & Hdesc).
  destruct (present_numbers frame _ Hnum) as (qs & Hqs & Hlq).
  exists grouped, sorted, (Cards (len df) (Qmean qs)).
  split; [exact Hm|]. split; [exact Hfst|]. split; [exact Hall|].
  split; [exact Hperm|]. split; [exact Hdesc|].
  unfold _update_logic. rewrite Hfiltered. simpl.
  unfold len. destruct (rows df) as [|r rs] eqn:E; [done|]. simpl length. simpl Nat.eqb.
  cbv iota. rewrite getitem_has by (by rewrite Hcols). simpl. rewrite E. fold popularity.
  unfold series_mean. rewrite Hqs. simpl.
  rewrite Hkeys. simpl. rewrite Hm. simpl. rewrite Hsv.
  change (map group_row sorted) with (group_row <$> sorted). rewrite <- fmap_take.
  change (group_row <$> ?l) with (map group_row l). rewrite mapM_bar. simpl.
  destruct qs as [|q qs]; [subst popularity; simpl in Hlq; discriminate|]. done.
Qed.

End BarChart.

(** C6 (counterexample): eighteen artists with one track each and the same
    popularity make eighteen groups with equal means.  With numpy's
    quicksort the ten bars are not the first ten groups: after the first two
    come the seventeenth group down to the tenth. *)
Lemma tied_groups_out_of_order :
  filter_data tied_artists default_filters = Ok tied_artists /\
  Bar_chart.groupby_mean (map (at_col "artists") (rows tied_artists))
    (map (at_col "popularity") (rows tied_artists)) = Ok (map group_row tied_groups) /\
  Bar_chart._update_logic Numpy.argsort tied_artists top_ten
    = Ok (Chart [("a00", 50); ("a01", 50); ("a16", 50); ("a15", 50); ("a14", 50);
                 ("a13", 50); ("a12", 50); ("a11", 50); ("a10", 50); ("a09", 50)]%Q,
          Cards 18 (900 # 18)) /\
  take 10 tied_groups
    = [("a00", 50); ("a01", 50); ("a02", 50); ("a03", 50); ("a04", 50);
       ("a05", 50); ("a06", 50); ("a07", 50); ("a08", 50); ("a09", 50)]%Q /\
  Bar_chart._update_logic Numpy.argsort tied_artists top_ten
    <> Ok (Chart (take 10 tied_groups), Cards 18 (900 # 18)).
Proof.
  split; [vm_compute; reflexivity|]. split; [vm_compute; reflexivity|].
  split; [vm_compute; reflexivity|]. split; [vm_compute; reflexivity|].
  vm_compute. discriminate.
Qed.

Lemma bar_chart_top_groups_witness :
  exists grouped sorted cards,
    Bar_chart.groupby_mean (map (at_col "artists") (rows two_tracks))
      (map (at_col "popularity") (rows two_tracks)) = Ok (map group_row grouped) /\
    map fst grouped = Bar_chart.group_labels (map (at_col "artists") (rows two_tracks)) /\
    Forall (fun g => series_mean
                       (Bar_chart.group_values g.1 (map (at_col "artists") (rows two_tracks))
                          (map (at_col "popularity") (rows two_tracks))) Bar_chart.frame
                     = Ok (Some g.2)) grouped /\
    sorted ≡ₚ grouped /\
    Sorted (flip Qle) (map snd sorted) /\
    Bar_chart._update_logic Numpy.argsort two_tracks by_artist
      = Ok (Chart (take 15 sorted), cards).
Proof.
  apply (bar_chart_top_groups Numpy.argsort two_tracks by_artist two_tracks
           (map (at_col "artists") (rows two_tracks))).
  - vm_compute. reflexivity.
  - discriminate.
  - decide_closed.
  - vm_compute. reflexivity.
  - split; decide_closed.
Defined.

(** * Further properties *)

(** ** The rows that the filter evaluator selects *)

Lemma filter_all {A} (P : A -> Prop) `{Hdec2 : !forall x, Decision (P x)} (l : list A) :
  Forall P l -> filter P l = l.
Proof.
  induction 1 as [|x l Hx _ IH]; [done|].
  rewrite filter_cons_True by done. by rewrite IH.
Qed.

Lemma filter_iff {A} (P Q : A -> Prop) `{Hdec3 : !forall x, Decision (P x)}
  `{Hdec4 : !forall x, Decision (Q x)} (l : list A) :
  (forall x, P x <-> Q x) -> filter P l = filter Q l.
Proof.
  intros Hiff. induction l as [|x l IH]; [done|].
  destruct (decide (P x)) as [HP|HP].
  - rewrite (filter_cons_True P) by done.
    rewrite (filter_cons_True Q) by (by apply Hiff). by rewrite IH.
  - rewrite (filter_cons_False P) by done.
    rewrite (filter_cons_False Q) by (by rewrite <- Hiff). exact IH.
Qed.

Lemma boolean_index_filter (P : row -> Prop) `{Hdec5 : !forall r, Decision (P r)}
  (rs : list row) (mask : list bool) :
  Forall2 (fun r b => b = true <-> P r) rs mask -> boolean_index rs mask = filter P rs.
Proof.
  induction 1 as [|r b rs mask Hb _ IH]; [done|].
  simpl. destruct b.
  - rewrite filter_cons_True by (by apply Hb). by rewrite IH.
  - rewrite filter_cons_False; [exact IH|]. intros HP. apply Hb in HP. discriminate.
Qed.

Lemma mask_filter (f : cell -> result bool) (c : string) (rs : list row) (m : list bool) :
  mapM f (map (at_col c) rs) = Ok m ->
  boolean_index rs m = filter (fun r => f (at_col c r) = Ok true) rs.
Proof.
  intros H. apply mapM_map_Ok in H. apply boolean_index_filter.
  eapply Forall2_impl; [exact H|]. intros r b Hb. simpl. rewrite Hb.
  split; [by intros ->|by intros [= ->]].
Qed.

Lemma selects_bind S1 S2 (P1 P2 : list string -> row -> Prop)
  `{Hdec6 : !forall cols r, Decision (P1 cols r)} `{Hdec7 : !forall cols r, Decision (P2 cols r)} :
  selects S1 P1 -> selects S2 P2 ->
  selects (fun df => S1 df ≫= S2) (fun cols r => P1 cols r /\ P2 cols r).
Proof.
  intros H1 H2 df df' H. apply bind_Ok in H as (d1 & Hd1 & Hd2).
  apply H1 in Hd1 as [Hc1 Hr1]. apply H2 in Hd2 as [Hc2 Hr2].
  rewrite Hc1 in *. split; [done|].
  rewrite Hr2, Hr1, list_filter_filter. apply filter_iff. tauto.
Qed.

Lemma selects_iff S (P P' : list string -> row -> Prop)
  `{Hdec8 : !forall cols r, Decision (P cols r)} `{Hdec9 : !forall cols r, Decision (P' cols r)} :
  (forall cols r, P cols r <-> P' cols r) -> selects S P -> selects S P'.
Proof.
  intros HP H df df' HS. apply H in HS as [Hc Hr]. split; [done|].
  rewrite Hr. by apply filter_iff.
Qed.

Lemma filter_artist_selects f : selects (filter_artist f) (artist_ok f).
Proof.
  intros df df'. unfold filter_artist. destruct (active _) eqn:Hact.
  - intros H. apply bind_Ok in H as (s & Hs & [= <-]).
    apply getitem_Ok in Hs as [Hc ->]. split; [done|]. simpl.
    apply boolean_index_filter.
    rewrite map_map. apply Forall2_fmap_r, Forall_Forall2_diag, Forall_forall.
    intros r _. unfold artist_ok. rewrite Hact. split; [auto|]. intros H. by apply H.
  - intros [= <-]. split; [done|]. symmetry. apply filter_all, Forall_forall.
    intros r _. unfold artist_ok. rewrite Hact. done.
Qed.

Lemma filter_range_selects c lo hi : selects (filter_range c lo hi) (range_ok c lo hi).
Proof.
  intros df df'. unfold filter_range. destruct (has_column df c) eqn:Hc.
  - apply has_column_true in Hc. intros H.
    apply bind_Ok in H as (s & Hs & H). apply getitem_Ok in Hs as [_ ->].
    apply bind_Ok in H as (m & Hm & H).
    apply bind_Ok in H as (s' & Hs' & H). apply getitem_Ok in Hs' as [_ ->].
    apply bind_Ok in H as (m' & Hm' & [= <-]). simpl in *.
    split; [done|].
    apply mask_filter in Hm. rewrite Hm in *. apply mask_filter in Hm'.
    rewrite Hm', list_filter_filter. apply filter_iff. intros r.
    unfold range_ok. rewrite (in_range_cmp lo hi frame). tauto.
  - intros [= <-]. split; [done|]. symmetry. apply filter_all, Forall_forall.
    intros r _ Hin. apply has_column_true in Hin. congruence.
Qed.

Lemma duration_mask_filter lo hi c fr (rs : list row) ds m1 m2 :
  mapM (div_cell 1000 fr) (map (at_col c) rs) = Ok ds ->
  mapM (cmp_cell Qge_bool ">=" lo fr) ds = Ok m1 ->
  mapM (cmp_cell Qle_bool "<=" hi fr) ds = Ok m2 ->
  boolean_index rs (mask_and m1 m2)
  = filter (fun r => in_range lo hi (seconds (at_col c r)) = true) rs.
Proof.
  revert ds m1 m2. induction rs as [|r rs IH]; intros ds m1 m2 Hd H1 H2; simpl in *.
  { done. }
  apply bind_Ok in Hd as (d & Hd & Hds). apply bind_Ok in Hds as (ds' & Hds & [= <-]).
  simpl in H1, H2.
  apply bind_Ok in H1 as (b1 & Hb1 & H1). apply bind_Ok in H1 as (m1' & H1 & [= <-]).
  apply bind_Ok in H2 as (b2 & Hb2 & H2). apply bind_Ok in H2 as (m2' & H2 & [= <-]).
  apply div_cell_seconds in Hd as ->. simpl.
  specialize (IH _ _ _ Hds H1 H2).
  destruct (decide (in_range lo hi (seconds (at_col c r)) = true)) as [Hin|Hin].
  - rewrite filter_cons_True by done.
    apply (in_range_cmp lo hi fr) in Hin as [Hge Hle].
    rewrite Hge in Hb1. rewrite Hle in Hb2. injection Hb1 as <-. injection Hb2 as <-.
    simpl. by rewrite IH.
  - rewrite filter_cons_False by done.
    destruct b1, b2; simpl; try exact IH.
    destruct Hin. apply (in_range_cmp lo hi fr). auto.
Qed.

Lemma filter_duration_selects lo hi : selects (filter_duration lo hi) (duration_ok lo hi).
Proof.
  intros df df'. unfold filter_duration.
  destruct (has_column df "duration_ms") eqn:Hc.
  - apply has_column_true in Hc. intros H.
    apply bind_Ok in H as (s & Hs & H). apply getitem_Ok in Hs as [_ ->].
    apply bind_Ok in H as (ds & Hds & H).
    apply bind_Ok in H as (m1 & Hm1 & H).
    apply bind_Ok in H as (m2 & Hm2 & [= <-]). simpl.
    split; [done|].
    rewrite (duration_mask_filter lo hi _ _ _ _ _ _ Hds Hm1 Hm2).
    apply filter_iff. intros r. unfold duration_ok. tauto.
  - intros [= <-]. split; [done|]. symmetry. apply filter_all, Forall_forall.
    intros r _ Hin. apply has_column_true in Hin. congruence.
Qed.

Lemma filter_rest_selects f : selects (filter_rest f) (rest_ok f).
Proof.
  pose proof (selects_bind _ _ _ _ (filter_artist_selects f)
    (selects_bind _ _ _ _
       (filter_range_selects "popularity" (popularity_min f) (popularity_max f))
    (selects_bind _ _ _ _ (filter_range_selects "energy" (energy_min f) (energy_max f))
    (selects_bind _ _ _ _
       (filter_range_selects "danceability" (danceability_min f) (danceability_max f))
    (selects_bind _ _ _ _ (filter_range_selects "valence" (valence_min f) (valence_max f))
    (selects_bind _ _ _ _ (filter_range_selects "tempo" (tempo_min f) (tempo_max f))
       (filter_duration_selects (duration_min f) (duration_max f)))))))) as Hs.
  eapply selects_iff; [|exact Hs]. intros cols r. unfold rest_ok. tauto.
Qed.

Lemma filter_genre_rows f df df' :
  filter_genre f df = Ok df' -> rows df' = filter (genre_ok f (columns df)) (rows df).
Proof.
  unfold filter_genre. destruct (active _) eqn:Hact.
  - intros H. apply bind_Ok in H as (s & Hs & H).
    apply bind_Ok in H as (key & Hkey & H).
    apply getitem_Ok in Hs as [Hc ->].
    destruct (rows df) as [|r rs] eqn:Hrows.
    + simpl in Hkey. injection Hkey as <-. simpl in H. injection H as <-.
      unfold take_columns. rewrite Hrows. done.
    + simpl map in Hkey. unfold series_apply in Hkey.
      apply bind_Ok in Hkey as (m & Hm & [= <-]). simpl in H. injection H as <-.
      change (mapM _ (_ :: _)) with
        (mapM (genre_lambda (genre_multiselect_filter f))
           (map (at_col "genres") (r :: rs))) in Hm.
      apply mask_filter in Hm. simpl rows. rewrite Hrows, Hm.
      apply filter_iff. intros x. unfold genre_ok. rewrite Hact.
      split; [auto|]. intros H. by apply H.
  - intros [= <-]. symmetry. apply filter_all, Forall_forall.
    intros r _. unfold genre_ok. rewrite Hact. done.
Qed.

(** The rows that the evaluator returns are exactly the rows of the input
    that satisfy every predicate of the filter set, in their order and with
    their repetitions. *)
Lemma filter_data_rows (T T' : table) (F : filters) :
  filter_data T F = Ok T' -> rows T' = filter (row_ok F (columns T)) (rows T).
Proof.
  intros H. pose proof H as H'. apply filter_data_keeps in H' as [Hsub Hkeep].
  destruct (rows T) as [|r0 rs] eqn:Hrows.
  { apply sublist_nil_r in Hsub. by rewrite Hsub. }
  rewrite <- Hrows in *.
  rewrite filter_data_stages in H. apply bind_Ok in H as (T1 & H1 & H2).
  pose proof H1 as H1'. apply filter_genre_sound in H1' as [_ Hk1].
  destruct Hk1 as (Hc1 & _); [right; rewrite Hrows; done|].
  apply filter_genre_rows in H1. apply filter_rest_selects in H2 as [_ H2].
  rewrite H2, H1, Hc1, list_filter_filter. apply filter_iff.
  intros r. unfold row_ok, rest_ok. tauto.
Qed.

Lemma filter_data_twice_rows (T T1 T12 : table) (F1 F2 : filters) :
  filter_data T F1 = Ok T1 -> filter_data T1 F2 = Ok T12 ->
  rows T12 = filter (fun r => row_ok F2 (columns T) r /\ row_ok F1 (columns T) r) (rows T).
Proof.
  intros H1 H2. pose proof (filter_data_rows _ _ _ H1) as Hr1.
  pose proof (filter_data_rows _ _ _ H2) as Hr2.
  rewrite <- (list_filter_filter (row_ok F2 (columns T)) (row_ok F1 (columns T))).
  rewrite <- Hr1, Hr2.
  destruct (rows T1) as [|r rs] eqn:E; [done|]. rewrite <- E.
  apply filter_data_keeps in H1 as [Hsub Hkeep].
  destruct Hkeep as (-> & _); [|done].
  right. eapply sublist_nonempty; [exact Hsub|]. by rewrite E.
Qed.

(** X1: the rows that [filter_data] returns are exactly the rows of the
    input on which every predicate of the filter set holds (the genre test,
    the artist test and, for each numeric column that the table has, a
    present number inside the bounds), in their order and with their
    repetitions. *)
Theorem filter_data_exact (T T' : table) (F : filters)
  (H : filter_data T F = Ok T') :
  rows T' = filter (row_ok F (columns T)) (rows T) /\
  (forall r, r ∈ rows T' <-> r ∈ rows T /\ row_ok F (columns T) r).
Proof.
  pose proof (filter_data_rows _ _ _ H) as Hr. split; [exact Hr|].
  intros r. rewrite Hr, list_elem_of_filter. tauto.
Qed.

Lemma filter_data_exact_witness :
  rows small_table = filter (row_ok default_filters (columns fast_table)) (rows fast_table) /\
  (forall r, r ∈ rows small_table <->
             r ∈ rows fast_table /\ row_ok default_filters (columns fast_table) r).
Proof.
  apply (filter_data_exact fast_table small_table default_filters).
  vm_compute. reflexivity.
Defined.

(** X2: filtering a filtered table with a second filter set returns
    the rows of the original table that satisfy both sets, so the two sets
    can be applied in either order. *)
Theorem filter_data_compose (T T1 T12 T2 T21 : table) (F1 F2 : filters)
  (H1 : filter_data T F1 = Ok T1) (H12 : filter_data T1 F2 = Ok T12)
  (H2 : filter_data T F2 = Ok T2) (H21 : filter_data T2 F1 = Ok T21) :
  rows T12 = filter (fun r => row_ok F2 (columns T) r /\ row_ok F1 (columns T) r) (rows T) /\
  rows T21 = rows T12.
Proof.
  pose proof (filter_data_twice_rows _ _ _ _ _ H1 H12) as Ha.
  pose proof (filter_data_twice_rows _ _ _ _ _ H2 H21) as Hb.
  split; [exact Ha|]. rewrite Ha, Hb. apply filter_iff. tauto.
Qed.

Lemma filter_data_compose_witness :
  rows calm_table
  = filter (fun r => row_ok default_filters (columns two_tracks) r /\
                     row_ok slow_only (columns two_tracks) r) (rows two_tracks) /\
  rows calm_table = rows calm_table.
Proof.
  apply (filter_data_compose two_tracks calm_table calm_table two_tracks calm_table
           slow_only default_filters); vm_compute; reflexivity.
Defined.

(** ** Columns that the table lacks *)

(** X3: an active genre filter on a table without the genres column
    raises [KeyError: 'genres']; the check that guards the numeric filters
    does not guard it. *)
Theorem filter_data_missing_genres (T : table) (F : filters)
  (Hactive : active (genre_multiselect_filter F) = true)
  (Hmissing : "genres" ∉ columns T) :
  filter_data T F = Raise (Exn KeyError "'genres'" Filter_component.frame).
Proof.
  unfold filter_data, filter_genre, getitem, has_column. rewrite Hactive.
  by rewrite bool_decide_eq_false_2.
Qed.

Lemma filter_data_missing_genres_witness :
  filter_data numbers_only pop_only = Raise (Exn KeyError "'genres'" Filter_component.frame).
Proof.
  apply (filter_data_missing_genres numbers_only pop_only).
  - reflexivity.
  - apply (proj1 (bool_decide_eq_true _)). vm_compute. reflexivity.
Defined.

Lemma filter_genre_columns f df df' :
  filter_genre f df = Ok df' -> columns df' ⊆ columns df.
Proof.
  intros H. destruct (rows df) as [|r rs] eqn:E.
  - unfold filter_genre in H. destruct (active _).
    + apply bind_Ok in H as (s & Hs & H). apply getitem_Ok in Hs as [_ ->].
      rewrite E in H. simpl in H. injection H as <-. simpl. apply list_subseteq_nil.
    + by injection H as <-.
  - apply filter_genre_sound in H as [_ H]. destruct H as (-> & _); [|done].
    right. by rewrite E.
Qed.

(** X4: when the genre stage returns, an active artist filter on a
    table without the artists column raises [KeyError: 'artists']. *)
Theorem filter_data_missing_artists (T T1 : table) (F : filters)
  (Hgenre : filter_genre F T = Ok T1)
  (Hactive : active (artist_multiselect_filter F) = true)
  (Hmissing : "artists" ∉ columns T) :
  filter_data T F = Raise (Exn KeyError "'artists'" Filter_component.frame).
Proof.
  unfold filter_data. rewrite Hgenre. simpl.
  unfold filter_artist, getitem, has_column. rewrite Hactive.
  rewrite bool_decide_eq_false_2; [done|].
  intros Hin. apply Hmissing. by apply (filter_genre_columns _ _ _ Hgenre).
Qed.

Lemma filter_data_missing_artists_witness :
  filter_data numbers_only abba_only
  = Raise (Exn KeyError "'artists'" Filter_component.frame).
Proof.
  apply (filter_data_missing_artists numbers_only numbers_only abba_only).
  - reflexivity.
  - reflexivity.
  - apply (proj1 (bool_decide_eq_true _)). vm_compute. reflexivity.
Defined.

Lemma bind_ext_Ok {A B} (m : result A) (k k' : A -> result B) :
  (forall a, m = Ok a -> k a = k' a) -> m ≫= k = m ≫= k'.
Proof. intros H. destruct m as [a|e]; simpl; [by apply H | done]. Qed.

Lemma same_on_subseteq cols cols' f f' :
  cols' ⊆ cols -> same_on cols f f' -> same_on cols' f f'.
Proof.
  intros Hsub (? & ? & Hp & He & Hd & Hv & Ht & Hdur).
  unfold same_on. repeat split; auto;
    match goal with Hin : _ ∈ cols' |- _ => apply Hsub in Hin end; tauto.
Qed.

Lemma filter_range_columns c lo hi df df' :
  filter_range c lo hi df = Ok df' -> columns df' = columns df.
Proof. intros H. by apply (rf_sound _ _ _ (filter_range_spec c lo hi)) in H as [? _]. Qed.

Lemma filter_range_same c lo hi lo' hi' df :
  (c ∈ columns df -> lo = lo' /\ hi = hi') ->
  filter_range c lo hi df = filter_range c lo' hi' df.
Proof.
  intros H. unfold filter_range. destruct (has_column df c) eqn:Hc; [|done].
  apply has_column_true in Hc. by destruct (H Hc) as [-> ->].
Qed.

(** X5: bounds for a numeric column that the table lacks are never
    read: two filter sets with the same selections and the same bounds for
    the numeric columns that the table has give the same result, be it a
    table or an exception. *)
Theorem filter_data_ignores_absent_columns (T : table) (F F' : filters)
  (Hsame : same_on (columns T) F F') :
  filter_data T F = filter_data T F'.
Proof.
  unfold filter_data.
  assert (Hg : filter_genre F T = filter_genre F' T).
  { unfold filter_genre. by destruct Hsame as (-> & _). }
  rewrite <- Hg. apply bind_ext_Ok. intros T1 H1.
  apply filter_genre_columns in H1.
  pose proof (same_on_subseteq _ _ _ _ H1 Hsame) as (_ & Ha & Hp & He & Hd & Hv & Ht & Hdur).
  assert (Hart : filter_artist F T1 = filter_artist F' T1).
  { unfold filter_artist. by rewrite Ha. }
  rewrite <- Hart. apply bind_ext_Ok. intros T2 H2.
  apply (rf_sound _ _ _ (filter_artist_spec F)) in H2 as [Hc2 _]. rewrite <- Hc2 in *.
  rewrite <- (filter_range_same "popularity" _ _ _ _ T2 Hp).
  apply bind_ext_Ok. intros T3 H3. apply filter_range_columns in H3. rewrite <- H3 in *.
  rewrite <- (filter_range_same "energy" _ _ _ _ T3 He).
  apply bind_ext_Ok. intros T4 H4. apply filter_range_columns in H4. rewrite <- H4 in *.
  rewrite <- (filter_range_same "danceability" _ _ _ _ T4 Hd).
  apply bind_ext_Ok. intros T5 H5. apply filter_range_columns in H5. rewrite <- H5 in *.
  rewrite <- (filter_range_same "valence" _ _ _ _ T5 Hv).
  apply bind_ext_Ok. intros T6 H6. apply filter_range_columns in H6. rewrite <- H6 in *.
  rewrite <- (filter_range_same "tempo" _ _ _ _ T6 Ht).
  apply bind_ext_Ok. intros T7 H7. apply filter_range_columns in H7. rewrite <- H7 in *.
  unfold filter_duration. destruct (has_column T7 "duration_ms") eqn:Hc; [|done].
  apply has_column_true in Hc. by destruct (Hdur Hc) as [-> ->].
Qed.

Lemma filter_data_ignores_absent_columns_witness :
  filter_data no_tempo_table inverted_tempo = filter_data no_tempo_table pop_only.
Proof.
  apply (filter_data_ignores_absent_columns no_tempo_table inverted_tempo pop_only).
  split; [reflexivity|]. split; [reflexivity|].
  split; [intros _; split; reflexivity|]. split; [intros _; split; reflexivity|].
  split; [intros _; split; reflexivity|]. split; [intros _; split; reflexivity|].
  split; [|intros _; split; reflexivity].
  intros Hin. exfalso. revert Hin.
  apply (proj1 (bool_decide_eq_true _)). vm_compute. reflexivity.
Defined.

(** ** The genre test *)

Lemma prefix_spec (sub s : string) :
  String.prefix sub s = true <-> exists after, s = sub +:+ after.
Proof.
  revert s. induction sub as [|a sub IH]; intros s.
  - split; [intros _; by exists s | intros _; by destruct s].
  - destruct s as [|b s]; simpl.
    { split; [discriminate | intros (after & H); discriminate]. }
    destruct (ascii_dec a b) as [<-|Hne].
    + rewrite IH. split; intros (after & H); exists after.
      * by rewrite H.
      * by injection H.
    + split; [discriminate|]. intros (after & H). injection H as ? _. congruence.
Qed.

Lemma str_contains_eq (sub s : string) :
  str_contains sub s =
  if String.prefix sub s then true
  else match s with
       | EmptyString => false
       | String _ s' => str_contains sub s'
       end.
Proof. by destruct s. Qed.

Lemma str_contains_spec (sub s : string) :
  str_contains sub s = true <-> occurs_in sub s.
Proof.
  split.
  - induction s as [|a s IH]; rewrite str_contains_eq.
    + destruct (String.prefix sub "") eqn:E; [|discriminate].
      apply prefix_spec in E as (after & E). intros _. by exists "", after.
    + destruct (String.prefix sub (String a s)) eqn:E.
      * apply prefix_spec in E as (after & E). intros _. by exists "", after.
      * intros H. destruct (IH H) as (before & after & ->).
        by exists (String a before), after.
  - intros (before & after & ->). induction before as [|a before IH];
      rewrite str_contains_eq.
    + assert (E : String.prefix sub ("" +:+ sub +:+ after) = true).
      { apply prefix_spec. by exists after. }
      by rewrite E.
    + destruct (String.prefix sub _); [done | exact IH].
Qed.

Lemma any_genre_in_existsb (selected_genres : list string) (s : string) :
  any_genre_in selected_genres (CStr s)
  = Ok (existsb (fun genre => str_contains genre s) selected_genres).
Proof.
  induction selected_genres as [|g gs IH]; simpl; [done|].
  destruct (str_contains g s); simpl; [done | exact IH].
Qed.

Lemma genre_lambda_spec (selected_genres : list string) (s : string) :
  genre_lambda selected_genres (CStr s) = Ok true <->
  s <> "" /\ s <> "[]" /\ exists genre, genre ∈ selected_genres /\ occurs_in genre s.
Proof.
  unfold genre_lambda. simpl.
  destruct (String.eqb_spec s "") as [->|Hne]; simpl.
  { split; [discriminate | tauto]. }
  destruct (String.eqb_spec s "[]") as [->|Hne']; simpl.
  { split; [discriminate | tauto]. }
  rewrite any_genre_in_existsb. split.
  - intros [= H]. apply existsb_exists in H as (g & Hg & H).
    split; [done|]. split; [done|]. exists g.
    split; [by apply list_elem_of_In | by apply str_contains_spec].
  - intros (_ & _ & g & Hg & H). f_equal. apply existsb_exists. exists g.
    split; [by apply list_elem_of_In | by apply str_contains_spec].
Qed.

(** X6: the genre test is a substring test on the text of the list: a
    track passes exactly when its genres text is neither empty nor the text
    of the empty list and some selected genre occurs in it, anywhere. *)
Theorem genre_test_is_substring (selected_genres : list string) (s : string) :
  genre_lambda selected_genres (CStr s) = Ok true <->
  s <> "" /\ s <> "[]" /\ exists genre, genre ∈ selected_genres /\ occurs_in genre s.
Proof. apply genre_lambda_spec. Qed.

(** ** Strings *)

Lemma run_refl {A} (l : list A) : run l l.
Proof. exists [], []. by rewrite app_nil_r. Qed.

Lemma run_trans {A} (k l m : list A) : run k l -> run l m -> run k m.
Proof.
  intros (a & b & ->) (a' & b' & ->). exists (a' ++ a)%list, (b ++ b')%list.
  by rewrite <- !app_assoc.
Qed.

Lemma drop_while_suffix {A} (p : A -> bool) (l : list A) :
  exists a, l = (a ++ drop_while p l)%list /\ Forall (fun x => p x = true) a.
Proof.
  induction l as [|x l (a & IH & Ha)]; simpl.
  - exists []. done.
  - destruct (p x) eqn:E.
    + exists (x :: a). split; [by rewrite IH at 1 | by constructor].
    + exists []. done.
Qed.

Lemma drop_while_head {A} (p : A -> bool) (l : list A) (x : A) (k : list A) :
  drop_while p l = x :: k -> p x = false.
Proof.
  induction l as [|y l IH]; simpl; [done|].
  destruct (p y) eqn:E; [exact IH|]. by intros [= <- _].
Qed.

Lemma stripped_run {A} (p : A -> bool) (l : list A) : run (stripped p l) l.
Proof.
  unfold stripped. destruct (drop_while_suffix p l) as (a & Ha & _).
  destruct (drop_while_suffix p (rev (drop_while p l))) as (b & Hb & _).
  exists a, (rev b). rewrite Ha at 1. f_equal.
  rewrite <- (rev_involutive (drop_while p l)) at 1. rewrite Hb at 1.
  by rewrite rev_app_distr.
Qed.

Lemma stripped_last {A} (p : A -> bool) (l k : list A) (x : A) :
  stripped p l = (k ++ [x])%list -> p x = false.
Proof.
  unfold stripped. intros H. apply (f_equal (@rev A)) in H.
  rewrite rev_involutive, rev_app_distr in H. simpl in H.
  by apply drop_while_head in H.
Qed.

Lemma stripped_head {A} (p : A -> bool) (l k : list A) (x : A) :
  stripped p l = x :: k -> p x = false.
Proof.
  unfold stripped. intros H.
  destruct (drop_while p l) as [|y m] eqn:E.
  { simpl in H. discriminate. }
  pose proof (drop_while_head _ _ _ _ E) as Hy.
  destruct (drop_while_suffix p (rev (y :: m))) as (b & Hb & _).
  apply (f_equal (@rev A)) in Hb. rewrite rev_involutive, rev_app_distr, H in Hb.
  simpl in Hb. injection Hb as -> _. exact Hy.
Qed.

Lemma strip_chars_stripped (chars s : string) :
  list_ascii_of_string (strip_chars chars s)
  = stripped (mem_ascii (list_ascii_of_string chars)) (list_ascii_of_string s).
Proof. unfold strip_chars. by rewrite list_ascii_of_string_of_list_ascii. Qed.

Lemma list_ascii_app (s t : string) :
  list_ascii_of_string (s +:+ t) = (list_ascii_of_string s ++ list_ascii_of_string t)%list.
Proof. induction s as [|a s IH]; simpl; [done|]. by rewrite IH. Qed.

Lemma string_of_list_app (l k : list ascii) :
  string_of_list_ascii (l ++ k)%list = string_of_list_ascii l +:+ string_of_list_ascii k.
Proof. induction l as [|a l IH]; simpl; [done|]. by rewrite IH. Qed.

Lemma occurs_in_run (sub s : string) :
  occurs_in sub s <-> run (list_ascii_of_string sub) (list_ascii_of_string s).
Proof.
  split.
  - intros (b & a & ->). exists (list_ascii_of_string b), (list_ascii_of_string a).
    by rewrite !list_ascii_app.
  - intros (b & a & H). exists (string_of_list_ascii b), (string_of_list_ascii a).
    rewrite <- (string_of_list_ascii_of_string s), H, !string_of_list_app.
    by rewrite string_of_list_ascii_of_string.
Qed.

Lemma strip_chars_occurs (chars s : string) : occurs_in (strip_chars chars s) s.
Proof. apply occurs_in_run. rewrite strip_chars_stripped. apply stripped_run. Qed.

Lemma occurs_in_trans (a b c : string) : occurs_in a b -> occurs_in b c -> occurs_in a c.
Proof. rewrite !occurs_in_run. apply run_trans. Qed.

Lemma split_on_nonempty (sep : ascii) (l : list ascii) : split_on sep l <> [].
Proof. induction l as [|a l IH]; simpl; [done|]. destruct (Ascii.eqb a sep); [done|].
  destruct (split_on sep l); done. Qed.

(** The pieces of [split] are runs of the text and hold no separator. *)
Lemma split_on_pieces (sep : ascii) (l : list ascii) :
  exists p ps, split_on sep l = p :: ps /\ (exists y, l = (p ++ y)%list) /\
    Forall (fun q => run q l /\ sep ∉ q) (p :: ps).
Proof.
  induction l as [|a l (p & ps & E & (y & Hy) & IH)]; simpl.
  - exists [], []. split; [done|]. split; [by exists []|].
    constructor; [|constructor]. split; [apply run_refl | apply not_elem_of_nil].
  - assert (Htl : Forall (fun q => run q (a :: l) /\ sep ∉ q) (p :: ps)).
    { eapply Forall_impl; [exact IH|]. intros q [(x & z & ->) Hq]. split; [|done].
      by exists (a :: x), z. }
    rewrite E. destruct (Ascii.eqb_spec a sep) as [->|Hne].
    + exists [], (p :: ps). split; [done|]. split; [by exists (sep :: l)|].
      constructor; [|exact Htl]. split; [|apply not_elem_of_nil].
      by exists [], (sep :: l).
    + exists (a :: p), ps. split; [done|]. split; [exists y; by rewrite Hy at 1|].
      apply Forall_cons in IH as [[_ Hp] _]. apply Forall_cons in Htl as [_ Hps].
      constructor; [|exact Hps]. split.
      * exists [], y. simpl. by rewrite Hy at 1.
      * rewrite not_elem_of_cons. split; [congruence | done].
Qed.

Lemma mem_ascii_true (cs : list ascii) (a : ascii) : mem_ascii cs a = true <-> a ∈ cs.
Proof.
  unfold mem_ascii. rewrite existsb_exists. split.
  - intros (x & Hx & E). apply Ascii.eqb_eq in E as ->. by apply list_elem_of_In.
  - intros H. exists a. split; [by apply list_elem_of_In | apply Ascii.eqb_refl].
Qed.

Lemma run_elem_of {A} (k l : list A) (x : A) : run k l -> x ∈ k -> x ∈ l.
Proof. intros (a & b & ->) H. rewrite !elem_of_app. auto. Qed.

Lemma strip_chars_head (chars s t : string) (q : ascii) :
  strip_chars chars s = String q t -> ~ has_char q chars.
Proof.
  intros H Hq. apply (f_equal list_ascii_of_string) in H.
  rewrite strip_chars_stripped in H. simpl in H. apply stripped_head in H.
  apply mem_ascii_true in Hq. congruence.
Qed.

Lemma strip_chars_last (chars s t : string) (q : ascii) :
  strip_chars chars s = t +:+ String q EmptyString -> ~ has_char q chars.
Proof.
  intros H Hq. apply (f_equal list_ascii_of_string) in H.
  rewrite strip_chars_stripped, list_ascii_app in H. simpl in H.
  apply stripped_last in H. apply mem_ascii_true in Hq. congruence.
Qed.

(** The tokens that the parsers cut out of the text between the brackets. *)
Lemma tokens_clean (body t : string) :
  t ∈ List.filter nonempty
        (map (fun g => strip_chars quotes (strip g)) (split ","%char body)) ->
  clean_token t /\ occurs_in t body.
Proof.
  intros Ht. apply list_elem_of_In, filter_In in Ht as [Ht Hne].
  apply in_map_iff in Ht as (piece & <- & Hpiece).
  unfold split in Hpiece. apply in_map_iff in Hpiece as (p & <- & Hp).
  destruct (split_on_pieces ","%char (list_ascii_of_string body))
    as (p0 & ps & E & _ & Hall).
  rewrite E in Hp. rewrite Forall_forall in Hall.
  destruct (Hall p) as [Hrun Hsep]; [by apply list_elem_of_In|].
  set (piece := string_of_list_ascii p) in *.
  assert (Hpiece : occurs_in piece body).
  { apply occurs_in_run. subst piece. by rewrite list_ascii_of_string_of_list_ascii. }
  assert (Htok : occurs_in (strip_chars quotes (strip piece)) piece).
  { eapply occurs_in_trans; apply strip_chars_occurs. }
  split; [|by eapply occurs_in_trans].
  split; [|split].
  - intros E'. rewrite E' in Hne. discriminate.
  - intros Hc. apply Hsep. apply occurs_in_run in Htok.
    subst piece. rewrite list_ascii_of_string_of_list_ascii in Htok.
    by eapply run_elem_of.
  - intros q Hq. split.
    + intros (t' & E'). by eapply strip_chars_head.
    + intros (t' & E'). by eapply strip_chars_last.
Qed.

Lemma filter_twice {A} (p : A -> bool) (l : list A) :
  List.filter p (List.filter p l) = List.filter p l.
Proof.
  induction l as [|x l IH]; simpl; [done|].
  destruct (p x) eqn:E; simpl; rewrite ?E, IH; done.
Qed.

(** ** The copies of the genre parser *)

Lemma parsers_agree (c : cell) :
  Genre_Evolution_line_chart.parse c = Filter_component_genres.entry_genres c.
Proof.
  unfold Genre_Evolution_line_chart.parse, Genre_Evolution_line_chart.row_genres_body,
    Filter_component_genres.entry_genres, Filter_component_genres.entry_genres_body.
  destruct c as [s|q| |]; simpl; try done.
  - destruct (String.eqb_spec s "") as [->|Hne]; [done|]. simpl.
    destruct (String.eqb_spec s "[]") as [->|Hne']; [done|]. simpl.
    destruct (nonempty (strip_chars "[]" s)); simpl; [|done].
    by rewrite filter_twice.
  - by destruct (negb (Qeq_bool q 0)).
Qed.

Lemma row_getitem_has (df : table) (r : row) (c fr : string) :
  c ∈ columns df -> row_getitem df r c fr = Ok (at_col c r).
Proof. intros H. unfold row_getitem. by rewrite (proj2 (has_column_true df c) H). Qed.

Lemma mapM_row_getitem (df : table) (r : row) (cs : list string) (fr : string) :
  Forall (fun c => c ∈ columns df) cs ->
  mapM (fun c => row_getitem df r c fr) cs = Ok (map (fun c => at_col c r) cs).
Proof.
  induction 1 as [|c cs Hc _ IH]; simpl; [done|].
  rewrite (row_getitem_has _ _ _ _ Hc). simpl. by rewrite IH.
Qed.

Lemma mapM_pair_Ok {A B} (f : A -> B) (l : list A) :
  mapM (fun x => Ok (x, f x)) l = Ok (map (fun x => (x, f x)) l) :> result (list (A * B)).
Proof. induction l as [|x l IH]; simpl; [done|]. by rewrite IH. Qed.

(** X7: the three copies of the genre parser agree.  The copies in the
    sparklines chart and in the filter component return the same tokens for
    every cell; and for a row of a table that has the genres column and the
    feature columns, the loop of the fingerprint chart makes one entry for
    each of these tokens, in their order, with the feature values of the
    row. *)
Theorem genre_parsers_agree (df : table) (r : row)
  (Hcols : Forall (fun c => c ∈ columns df)
             ("genres" :: Genre_fingerprint_tracks.track_features)) :
  (forall c, Genre_Evolution_line_chart.parse c = Filter_component_genres.entry_genres c) /\
  exists tokens,
    Genre_Evolution_line_chart.parse (at_col "genres" r) = Ok tokens /\
    Genre_fingerprint_tracks.row_tracks df r
    = Ok (map (fun genre =>
                 (genre, map (fun c => at_col c r) Genre_fingerprint_tracks.track_features))
              tokens).
Proof.
  split; [exact parsers_agree|].
  apply Forall_cons in Hcols as [Hg Hf].
  unfold Genre_fingerprint_tracks.row_tracks, Genre_fingerprint_tracks.row_tracks_body,
    Genre_Evolution_line_chart.parse, Genre_Evolution_line_chart.row_genres_body.
  rewrite (row_getitem_has _ _ _ _ Hg).
  set (feats := Genre_fingerprint_tracks.track_features) in *. clearbody feats. simpl.
  destruct (at_col "genres" r) as [s|q| |]; simpl.
  - destruct (String.eqb_spec s "") as [->|Hne]; [by exists []|]. simpl.
    destruct (String.eqb_spec s "[]") as [->|Hne']; [by exists []|]. simpl.
    destruct (nonempty (strip_chars "[]" s)); simpl; [|by exists []].
    eexists. split; [reflexivity|]. rewrite filter_twice.
    rewrite (mapM_row_getitem _ _ _ _ Hf). simpl.
    by rewrite (mapM_pair_Ok (fun _ => map (fun c => at_col c r) feats)).
  - exists []. by destruct (negb (Qeq_bool q 0)).
  - by exists [].
  - by exists [].
Qed.

Lemma genre_parsers_agree_witness :
  (forall c, Genre_Evolution_line_chart.parse c = Filter_component_genres.entry_genres c) /\
  exists tokens,
    Genre_Evolution_line_chart.parse (at_col "genres" profiled_track) = Ok tokens /\
    Genre_fingerprint_tracks.row_tracks profiled_table profiled_track
    = Ok (map (fun genre =>
                 (genre, map (fun c => at_col c profiled_track)
                           Genre_fingerprint_tracks.track_features))
              tokens).
Proof.
  apply (genre_parsers_agree profiled_table profiled_track).
  apply (proj1 (bool_decide_eq_true _)). vm_compute. reflexivity.
Defined.

Lemma entry_genres_tokens (x : cell) (tokens : list string) (t : string) :
  Filter_component_genres.entry_genres x = Ok tokens -> t ∈ tokens ->
  exists s, x = CStr s /\ s <> "" /\ s <> "[]" /\ clean_token t /\ occurs_in t s.
Proof.
  unfold Filter_component_genres.entry_genres, Filter_component_genres.entry_genres_body.
  destruct x as [s|q| |]; simpl.
  - destruct (String.eqb_spec s "") as [->|Hne]; simpl.
    { intros [= <-] Ht. by apply elem_of_nil in Ht. }
    destruct (String.eqb_spec s "[]") as [->|Hne']; simpl.
    { intros [= <-] Ht. by apply elem_of_nil in Ht. }
    destruct (nonempty (strip_chars "[]" s)); simpl.
    + intros [= <-] Ht. apply tokens_clean in Ht as [Hclean Hocc].
      exists s. split; [done|]. split; [done|]. split; [done|]. split; [exact Hclean|].
      eapply occurs_in_trans; [exact Hocc | apply strip_chars_occurs].
    + intros [= <-] Ht. by apply elem_of_nil in Ht.
  - destruct (negb (Qeq_bool q 0)); simpl; intros [= <-] Ht; by apply elem_of_nil in Ht.
  - intros [= <-] Ht. by apply elem_of_nil in Ht.
  - intros [= <-] Ht. by apply elem_of_nil in Ht.
Qed.

(** X8: a token that the parser returns is clean (not empty, without a
    comma, neither beginning nor ending with a quote) and occurs in the text
    that was parsed. *)
Theorem parser_tokens_clean (s : string) (tokens : list string)
  (H : Genre_Evolution_line_chart.parse (CStr s) = Ok tokens) :
  Forall (fun t => clean_token t /\ occurs_in t s) tokens.
Proof.
  rewrite parsers_agree in H. apply Forall_forall. intros t Ht.
  destruct (entry_genres_tokens _ _ _ H Ht) as (s' & [= <-] & _ & _ & ? & ?). done.
Qed.

Lemma parser_tokens_clean_witness :
  Forall (fun t => clean_token t /\ occurs_in t "['pop', 'rock']") ["pop"; "rock"].
Proof.
  apply (parser_tokens_clean "['pop', 'rock']" ["pop"; "rock"]).
  vm_compute. reflexivity.
Defined.

Lemma all_genres_tokens (df : table) (gs : list string) (g : string) :
  Filter_component_genres.all_genres df = Ok gs -> g ∈ gs ->
  clean_token g /\
  exists r, r ∈ rows df /\ genre_lambda [g] (at_col "genres" r) = Ok true.
Proof.
  unfold Filter_component_genres.all_genres. intros H Hg.
  apply bind_Ok in H as (genres & Hgenres & H). apply getitem_Ok in Hgenres as [_ ->].
  apply bind_Ok in H as (per_entry & Hper & [= <-]).
  apply mapM_Ok in Hper.
  apply list_elem_of_In, in_concat in Hg as (tokens & Htokens & Hg).
  apply list_elem_of_In in Htokens, Hg.
  apply list_elem_of_lookup in Htokens as (i & Hi).
  destruct (Forall2_lookup_r _ _ _ _ _ Hper Hi) as (x & Hx & Hentry).
  destruct (entry_genres_tokens _ _ _ Hentry Hg) as (s & -> & Hne & Hne' & Hclean & Hocc).
  split; [done|].
  apply list_elem_of_lookup_2 in Hx. unfold dropna in Hx.
  apply list_elem_of_In, filter_In in Hx as [Hx _].
  apply in_map_iff in Hx as (r & Hr & Hin). exists r.
  split; [by apply list_elem_of_In|]. rewrite Hr.
  apply genre_lambda_spec. split; [done|]. split; [done|].
  exists g. split; [apply list_elem_of_here | done].
Qed.

Lemma str_le_total : Total Bar_chart.str_le.
Proof.
  intros a b. unfold Bar_chart.str_le.
  destruct (String.leb a b) eqn:E; [by left|right].
  unfold String.leb in *. rewrite String.compare_antisym.
  destruct (String.compare a b); simpl in *; done.
Qed.

(** X9: the options of the genre dropdown are "all" followed by the
    genres of the dataset; these are distinct, in ascending order and clean
    tokens, and each of them, selected alone, passes the genre test of the
    filter on at least one track. *)
Theorem genre_options_match (df : table) (options : list string)
  (H : Filter_component_options.genre_options df = Ok options) :
  exists unique_genres,
    options = "all" :: unique_genres /\
    NoDup unique_genres /\
    Sorted Bar_chart.str_le unique_genres /\
    Forall clean_token unique_genres /\
    Forall (fun g => exists r, r ∈ rows df /\
                       genre_lambda [g] (at_col "genres" r) = Ok true) unique_genres.
Proof.
  unfold Filter_component_options.genre_options,
    Filter_component_options.unique_genres in H.
  apply bind_Ok in H as (gs & H & [= <-]).
  apply bind_Ok in H as (all_genres & Hall & [= <-]).
  eexists. split; [reflexivity|].
  unfold Filter_component_options.sorted.
  split; [|split].
  - rewrite merge_sort_Permutation. apply NoDup_remove_dups.
  - apply Sorted_merge_sort, str_le_total.
  - rewrite <- Forall_and. apply Forall_forall. intros g Hg.
    rewrite merge_sort_Permutation, elem_of_remove_dups in Hg.
    by apply (all_genres_tokens df all_genres).
Qed.

Lemma genre_options_match_witness :
  exists unique_genres,
    ["all"; "ambient"; "pop"; "rock"] = "all" :: unique_genres /\
    NoDup unique_genres /\
    Sorted Bar_chart.str_le unique_genres /\
    Forall clean_token unique_genres /\
    Forall (fun g => exists r, r ∈ rows two_tracks /\
                       genre_lambda [g] (at_col "genres" r) = Ok true) unique_genres.
Proof.
  apply (genre_options_match two_tracks ["all"; "ambient"; "pop"; "rock"]).
  vm_compute. reflexivity.
Defined.

Lemma mapM_Raise {A B} (f : A -> result B) (l : list A) (x : A) :
  x ∈ l -> (exists e, f x = Raise e) -> exists e, mapM f l = Raise e.
Proof.
  intros Hx (e & He). induction l as [|y l IH]; [by apply elem_of_nil in Hx|].
  apply elem_of_cons in Hx as [<-|Hx]; simpl.
  - rewrite He. simpl. eauto.
  - destruct (f y) as [b|e']; simpl; [|eauto].
    destruct (IH Hx) as (e'' & ->). simpl. eauto.
Qed.

Lemma mapM_const {A B} (f : A -> result B) (l : list A) (y : B) :
  (forall x, f x = Ok y) -> mapM f l = Ok (map (fun _ => y) l).
Proof.
  intros H. induction l as [|x l IH]; [done|]. cbn [mapM map].
  rewrite H. simpl. by rewrite IH.
Qed.

Lemma concat_nils {A B} (l : list A) : concat (map (fun _ => @nil B) l) = [].
Proof. induction l; simpl; auto. Qed.

Lemma row_tracks_missing (df : table) (r : row) (c : string) :
  c ∈ "genres" :: Genre_fingerprint_tracks.track_features -> c ∉ columns df ->
  Genre_fingerprint_tracks.row_tracks df r = Ok [].
Proof.
  intros Hc Hmissing.
  assert (Hraise : exists e, row_getitem df r c Genre_fingerprint_tracks.frame = Raise e).
  { unfold row_getitem, has_column. rewrite bool_decide_eq_false_2 by done.
    unfold raise. eauto. }
  unfold Genre_fingerprint_tracks.row_tracks, Genre_fingerprint_tracks.row_tracks_body.
  apply elem_of_cons in Hc as [->|Hc].
  { destruct Hraise as (e & ->). done. }
  destruct (mapM_Raise (fun c => row_getitem df r c Genre_fingerprint_tracks.frame)
              _ c Hc Hraise) as (e & He).
  set (feats := Genre_fingerprint_tracks.track_features) in *. clearbody feats.
  destruct (row_getitem df r "genres" _) as [x|e']; simpl; [|done].
  destruct (truthy x && negb (eq_str x "[]")); [|done].
  destruct (cell_strip x "[]" _) as [body|e']; simpl; [|done].
  destruct (nonempty body); [|done].
  destruct (List.filter _ _) as [|g gs]; [done|].
  cbn [mapM]. rewrite He. done.
Qed.

(** X10: the loop of the fingerprint chart swallows a missing column: on
    a table that lacks the genres column or one of the feature columns it
    collects no entry, and the chart shows "No genre data available"
    instead of an error, whatever the rows hold. *)
Theorem fingerprint_missing_column_is_silent (P : Type)
  (heatmap_of : table -> list Genre_fingerprint_tracks.genre_track ->
                result (figure P * summary))
  (data df : table) (f : filters) (c : string)
  (Hfiltered : filter_data data f = Ok df)
  (Hnonempty : rows df <> [])
  (Hc : c ∈ "genres" :: Genre_fingerprint_tracks.track_features)
  (Hmissing : c ∉ columns data) :
  Genre_fingerprint_tracks.genre_tracks df = Ok [] /\
  Genre_fingerprint_tracks._update_logic P heatmap_of data f
  = Ok (Genre_fingerprint_tracks.no_genre_data P, NoCards).
Proof.
  pose proof Hfiltered as Hk. apply filter_data_keeps in Hk as [Hsub Hk].
  destruct Hk as (Hcols & _).
  { right. by eapply sublist_nonempty. }
  assert (Htracks : Genre_fingerprint_tracks.genre_tracks df = Ok []).
  { unfold Genre_fingerprint_tracks.genre_tracks.
    rewrite (mapM_const (Genre_fingerprint_tracks.row_tracks df) (rows df) []).
    - simpl. by rewrite concat_nils.
    - intros r. apply (row_tracks_missing df r c Hc). by rewrite Hcols. }
  split; [exact Htracks|].
  unfold Genre_fingerprint_tracks._update_logic. rewrite Hfiltered. simpl.
  unfold len. destruct (rows df) eqn:E; [done|]. simpl.
  by rewrite Htracks.
Qed.

Lemma fingerprint_missing_column_is_silent_witness :
  Genre_fingerprint_tracks.genre_tracks two_tracks = Ok [] /\
  Genre_fingerprint_tracks._update_logic unit (fun _ _ => Ok (Chart tt, NoCards))
    two_tracks default_filters
  = Ok (Genre_fingerprint_tracks.no_genre_data unit, NoCards).
Proof.
  apply (fingerprint_missing_column_is_silent unit (fun _ _ => Ok (Chart tt, NoCards))
           two_tracks two_tracks default_filters "acousticness").
  - vm_compute. reflexivity.
  - discriminate.
  - apply (proj1 (bool_decide_eq_true _)). vm_compute. reflexivity.
  - apply (proj1 (bool_decide_eq_true _)). vm_compute. reflexivity.
Defined.

(** ** Averages of filtered columns *)

Lemma present_in_range (lo hi : Q) (fr : string) (s : list cell) :
  Forall (fun x => in_range lo hi x = true) s ->
  exists qs, present s fr = Ok qs /\ length qs = length s.
Proof.
  induction 1 as [|x s Hx _ (qs & Hqs & Hl)]; simpl.
  - exists []. done.
  - apply in_range_spec in Hx as (q & -> & _ & _).
    exists (q :: qs). rewrite Hqs. simpl. split; [done|]. by rewrite Hl.
Qed.

(** The mean of a column that a range filter has read is a number: the
    column holds no text and no missing value. *)
Lemma series_mean_number (lo hi : Q) (fr : string) (s : list cell) :
  s <> [] -> Forall (fun x => in_range lo hi x = true) s ->
  exists m, series_mean s fr = Ok (Some m).
Proof.
  intros Hne Hall. destruct (present_in_range lo hi fr s Hall) as (qs & Hqs & Hl).
  assert (Hqne : qs <> []).
  { destruct qs; [|done]. destruct s; [done|discriminate]. }
  exists (Qmean qs). unfold series_mean. rewrite Hqs. simpl. by destruct qs.
Qed.

(** The rows of a filtered table with a row: the columns are those of the
    data and every row satisfies the filter set. *)
Lemma filter_data_nonempty (data df : table) (F : filters) :
  filter_data data F = Ok df -> rows df <> [] ->
  columns df = columns data /\ Forall (row_ok F (columns data)) (rows df).
Proof.
  intros H Hne. apply filter_data_keeps in H as [Hsub H].
  destruct H as (? & _ & ?); [|done]. right. by eapply sublist_nonempty.
Qed.

Lemma column_in_range (c : string) (lo hi : Q) (cols : list string) (rs : list row) :
  c ∈ cols -> Forall (range_ok c lo hi cols) rs ->
  Forall (fun x => in_range lo hi x = true) (map (at_col c) rs).
Proof.
  intros Hc H. apply Forall_fmap. eapply Forall_impl; [exact H|].
  intros r Hr. by apply Hr.
Qed.

(** ** The data cards *)

(** X11: on a dataset with the popularity and the duration column the
    cards read "Error" only when the filter raises and "No Data" only when
    no track passes it; when the filtered table has a row, they show the
    number of its rows, which is not above the number of tracks of the
    dataset, and two averages. *)
Theorem data_cards_outcomes (data : table) (F : filters)
  (Hpopularity : "popularity" ∈ columns data)
  (Hduration : "duration_ms" ∈ columns data) :
  (forall e, filter_data data F = Raise e -> Data_cards.update data F = Ok Data_cards.Error) /\
  (forall df, filter_data data F = Ok df -> rows df = [] ->
     Data_cards.update data F = Ok Data_cards.NoData) /\
  (forall df, filter_data data F = Ok df -> rows df <> [] ->
     (0 < len df <= len data)%nat /\
     exists p d, Data_cards.update data F = Ok (Data_cards.Values (len df) p d)).
Proof.
  split; [|split].
  - intros e He. unfold Data_cards.update, Data_cards.update_try. by rewrite He.
  - intros df Hfiltered Hempty.
    unfold Data_cards.update, Data_cards.update_try. rewrite Hfiltered. simpl.
    unfold len. by rewrite Hempty.
  - intros df Hfiltered Hnonempty.
    destruct (filter_data_nonempty _ _ _ Hfiltered Hnonempty) as [Hcols Hok].
    pose proof Hfiltered as Hsub. apply filter_data_keeps in Hsub as [Hsub _].
    split.
    { unfold len. apply sublist_length in Hsub. destruct (rows df); [done|]. simpl in *. lia. }
    assert (Hpop : Forall (range_ok "popularity" (popularity_min F) (popularity_max F)
                             (columns data)) (rows df)).
    { eapply Forall_impl; [exact Hok|]. intros r Hr. apply Hr. }
    assert (Hdur : Forall (duration_ok (duration_min F) (duration_max F) (columns data))
                     (rows df)).
    { eapply Forall_impl; [exact Hok|]. intros r Hr. apply Hr. }
    assert (Hne : forall c, map (at_col c) (rows df) <> []).
    { intros c. destruct (rows df); [done|discriminate]. }
    destruct (series_mean_number _ _ Data_cards.frame _ (Hne "popularity")
                (column_in_range _ _ _ _ _ Hpopularity Hpop)) as (p & Hp).
    assert (Hms : Forall (fun x => in_range (duration_min F * 1000) (duration_max F * 1000) x
                                   = true) (map (at_col "duration_ms") (rows df))).
    { apply Forall_fmap. eapply Forall_impl; [exact Hdur|]. intros r Hr. simpl.
      specialize (Hr Hduration). apply in_range_spec in Hr as (q & Hq & Hlo & Hhi).
      destruct (at_col "duration_ms" r) as [|ms| |]; try discriminate.
      injection Hq as <-. simpl. apply Qle_bool_iff in Hlo, Hhi.
      change (ms / 1000)%Q with (ms * (1 # 1000))%Q in Hlo, Hhi.
      apply andb_true_iff. split; apply Qle_bool_iff; lra. }
    destruct (series_mean_number _ _ Data_cards.frame _ (Hne "duration_ms") Hms)
      as (m & Hm).
    exists p, (m / 60000)%Q.
    assert (Hlen : (len df =? 0)%nat = false).
    { unfold len. by destruct (rows df). }
    unfold Data_cards.update, Data_cards.update_try. rewrite Hfiltered. simpl.
    rewrite Hlen. rewrite !getitem_has by (by rewrite Hcols).
    simpl. rewrite Hp. simpl. rewrite Hm. done.
Qed.

Lemma data_cards_outcomes_witness :
  (forall e, filter_data two_tracks default_filters = Raise e ->
     Data_cards.update two_tracks default_filters = Ok Data_cards.Error) /\
  (forall df, filter_data two_tracks default_filters = Ok df -> rows df = [] ->
     Data_cards.update two_tracks default_filters = Ok Data_cards.NoData) /\
  (forall df, filter_data two_tracks default_filters = Ok df -> rows df <> [] ->
     (0 < len df <= len two_tracks)%nat /\
     exists p d, Data_cards.update two_tracks default_filters
                 = Ok (Data_cards.Values (len df) p d)).
Proof.
  apply (data_cards_outcomes two_tracks default_filters).
  - decide_closed.
  - decide_closed.
Defined.

Lemma getitem_missing (df : table) (c fr : string) :
  c ∉ columns df -> getitem df c fr = Raise (Exn KeyError ("'" +:+ c +:+ "'") fr).
Proof. intros H. unfold getitem, has_column. by rewrite bool_decide_eq_false_2. Qed.

(** X12: the cards read the popularity and the duration column without
    the check that guards the filters: on a dataset that lacks one of them
    the filter still returns, and when its result has a row all three cards
    read "Error". *)
Theorem data_cards_missing_column (data df : table) (F : filters)
  (Hfiltered : filter_data data F = Ok df)
  (Hnonempty : rows df <> [])
  (Hmissing : "popularity" ∉ columns data \/ "duration_ms" ∉ columns data) :
  Data_cards.update data F = Ok Data_cards.Error.
Proof.
  destruct (filter_data_nonempty _ _ _ Hfiltered Hnonempty) as [Hcols Hok].
  assert (Hlen : (len df =? 0)%nat = false).
  { unfold len. by destruct (rows df). }
  unfold Data_cards.update, Data_cards.update_try. rewrite Hfiltered. simpl. rewrite Hlen.
  destruct (decide ("popularity" ∈ columns data)) as [Hpop|Hpop].
  - destruct Hmissing as [?|Hdur]; [done|].
    assert (Hp : Forall (range_ok "popularity" (popularity_min F) (popularity_max F)
                           (columns data)) (rows df)).
    { eapply Forall_impl; [exact Hok|]. intros r Hr. apply Hr. }
    assert (Hne : map (at_col "popularity") (rows df) <> []).
    { destruct (rows df); [done|discriminate]. }
    destruct (series_mean_number (popularity_min F) (popularity_max F) Data_cards.frame
                _ Hne (column_in_range _ _ _ _ _ Hpop Hp)) as (p & Hmean).
    rewrite (getitem_has df "popularity") by (by rewrite Hcols).
    simpl. rewrite Hmean. simpl.
    rewrite (getitem_missing df "duration_ms") by (by rewrite Hcols). done.
  - rewrite (getitem_missing df "popularity") by (by rewrite Hcols). done.
Qed.

Lemma data_cards_missing_column_witness :
  Data_cards.update (Table ["popularity"] [pop_track]) default_filters = Ok Data_cards.Error.
Proof.
  apply (data_cards_missing_column (Table ["popularity"] [pop_track])
           (Table ["popularity"] [pop_track]) default_filters).
  - vm_compute. reflexivity.
  - discriminate.
  - right. apply (proj1 (bool_decide_eq_true _)). vm_compute. reflexivity.
Defined.

(** ** The bars of the bar chart *)

Section Bars.
Import Bar_chart.

Variable argsort : list Q -> list nat.

Lemma dict_get_in (names : list (Z * string)) (k : Z) (name : string) :
  dict_get names k = Some name -> name ∈ map snd names.
Proof.
  induction names as [|[k' n] names IH]; simpl; [done|].
  destruct (k =? k')%Z.
  - intros [= ->]. apply list_elem_of_here.
  - intros H. apply list_elem_of_further. auto.
Qed.

Lemma map_names_label (names : list (Z * string)) (x : cell) (l : string) :
  map_names names x = CStr l -> l ∈ map snd names.
Proof.
  destruct x as [s|q| |]; simpl; try discriminate.
  destruct (Qeq_bool _ _); [|discriminate].
  destruct (dict_get names (Qfloor q)) eqn:E; [|discriminate].
  intros [= <-]. by eapply dict_get_in.
Qed.

Lemma group_keys_label (data df : table) (kw : kwargs) (keys : list cell) (l : string) :
  sublist (rows df) (rows data) ->
  group_keys df (default "artists" (groupby kw)) = Ok keys ->
  CStr l ∈ keys -> bar_label kw data l.
Proof.
  intros Hsub Hkeys Hl. unfold bar_label, group_keys in *.
  destruct (String.eqb _ "key"); [|destruct (String.eqb _ "mode")].
  - apply bind_Ok in Hkeys as (s & _ & [= <-]).
    apply list_elem_of_In, in_map_iff in Hl as (x & Hx & _). by eapply map_names_label.
  - apply bind_Ok in Hkeys as (s & _ & [= <-]).
    apply list_elem_of_In, in_map_iff in Hl as (x & Hx & _). by eapply map_names_label.
  - apply getitem_Ok in Hkeys as [_ ->].
    apply list_elem_of_In, in_map_iff in Hl as (r & Hr & Hin). exists r.
    split; [|done]. eapply elem_of_sublist; [|exact Hsub]. by apply list_elem_of_In.
Qed.

Lemma sort_values_elem (grouped : list (string * option Q)) (g : string * option Q) :
  g ∈ sort_values argsort grouped -> g ∈ grouped.
Proof.
  unfold sort_values. rewrite list_elem_of_omap. intros (i & _ & Hi).
  by eapply list_elem_of_lookup_2.
Qed.

Lemma groupby_mean_elem (keys popularity : list cell) grouped (l : string) (m : option Q) :
  groupby_mean keys popularity = Ok grouped -> (l, m) ∈ grouped ->
  CStr l ∈ keys /\ series_mean (group_values l keys popularity) frame = Ok m.
Proof.
  unfold groupby_mean. intros H Hg. apply mapM_Ok in H.
  apply list_elem_of_lookup in Hg as (i & Hi).
  destruct (Forall2_lookup_r _ _ _ _ _ H Hi) as (l' & Hl' & Hm).
  apply bind_Ok in Hm as (m' & Hm' & [= <- <-]).
  split; [|done]. apply group_labels_spec. by eapply list_elem_of_lookup_2.
Qed.

(** X13: whatever order [argsort] returns, the chart shows at most N
    bars (15 when the limit is empty), and every bar carries a label of the
    chosen grouping: a pitch-class name, Minor or Major, or the artist of a
    track of the dataset. *)
Theorem bar_chart_bars (data : table) (kw : kwargs) (bars : list (string * Q))
  (cards : summary)
  (H : _update_logic argsort data kw = Ok (Chart bars, cards)) :
  (length bars <= default 15%nat (limit kw))%nat /\
  Forall (fun b => bar_label kw data b.1) bars.
Proof.
  unfold _update_logic in H. apply bind_Ok in H as (df & Hfiltered & H).
  destruct (len df =? 0)%nat eqn:Hlen; [discriminate|].
  pose proof Hfiltered as Hsub. apply filter_data_keeps in Hsub as [Hsub _].
  apply bind_Ok in H as (popularity & Hpop & H). apply getitem_Ok in Hpop as [Hc ->].
  apply bind_Ok in H as (avg & _ & H).
  apply bind_Ok in H as (keys & Hkeys & H).
  apply bind_Ok in H as (grouped & Hgrouped & H).
  apply bind_Ok in H as (bs & Hbars & H).
  assert (bs = bars) as -> by (destruct avg; [by injection H | discriminate]).
  clear H. apply mapM_Ok in Hbars.
  split.
  - rewrite <- (Forall2_length _ _ _ Hbars), length_take. lia.
  - apply Forall_forall. intros [l m] Hb.
    apply list_elem_of_lookup in Hb as (i & Hi).
    destruct (Forall2_lookup_r _ _ _ _ _ Hbars Hi) as ([l' m'] & Hg & Hbar).
    unfold bar in Hbar. simpl in Hbar. destruct m' as [m'|]; [|discriminate].
    injection Hbar as -> ->.
    apply list_elem_of_lookup_2 in Hg.
    eapply elem_of_sublist in Hg; [|apply sublist_take].
    apply sort_values_elem in Hg.
    destruct (groupby_mean_elem _ _ _ _ _ Hgrouped Hg) as [Hl _].
    simpl. by eapply group_keys_label.
Qed.

End Bars.

Lemma bar_chart_bars_witness :
  (length [("C", 120 # 2); ("A", 35%Q)] <= default 15%nat (Bar_chart.limit by_key))%nat /\
  Forall (fun b => bar_label by_key keyed_table b.1) [("C", 120 # 2); ("A", 35%Q)].
Proof.
  apply (bar_chart_bars Numpy.argsort keyed_table by_key [("C", 120 # 2); ("A", 35%Q)]
           (Cards 3 (155 # 3))).
  vm_compute. reflexivity.
Defined.

(** X14: when the column that the bars are grouped by is missing from
    the dataset, the callback of the bar chart returns the figure "Error in
    chart", the diagnostic of [KeyError] with the name of the column, and
    no summary card. *)
Theorem bar_chart_missing_group_column (argsort : list Q -> list nat)
  (data df : table) (kw : Bar_chart.kwargs)
  (Hfiltered : filter_data data (Bar_chart.filter_kwargs kw) = Ok df)
  (Hnonempty : rows df <> [])
  (Hpopularity : "popularity" ∈ columns data)
  (Hmissing : group_column kw ∉ columns data) :
  Bar_chart.update argsort data kw
  = Ok (Bar_chart.empty_fig,
        error_msg (Exn KeyError ("'" +:+ group_column kw +:+ "'") Bar_chart.frame),
        NoCards).
Proof.
  destruct (filter_data_nonempty _ _ _ Hfiltered Hnonempty) as [Hcols Hok].
  assert (Hlen : (len df =? 0)%nat = false).
  { unfold len. by destruct (rows df). }
  assert (Hp : Forall (range_ok "popularity" (popularity_min (Bar_chart.filter_kwargs kw))
                         (popularity_max (Bar_chart.filter_kwargs kw)) (columns data))
                 (rows df)).
  { eapply Forall_impl; [exact Hok|]. intros r Hr. apply Hr. }
  assert (Hne : map (at_col "popularity") (rows df) <> []).
  { destruct (rows df); [done|discriminate]. }
  destruct (series_mean_number _ _ Bar_chart.frame _ Hne
              (column_in_range _ _ _ _ _ Hpopularity Hp)) as (p & Hmean).
  assert (Hkeys : Bar_chart.group_keys df (default "artists" (Bar_chart.groupby kw))
                  = Raise (Exn KeyError ("'" +:+ group_column kw +:+ "'") Bar_chart.frame)).
  { unfold Bar_chart.group_keys, group_column in *. rewrite <- Hcols in Hmissing.
    destruct (String.eqb _ "key"); [|destruct (String.eqb _ "mode")];
      by rewrite getitem_missing. }
  unfold Bar_chart.update, Bar_chart._update_logic. rewrite Hfiltered. simpl.
  rewrite Hlen. rewrite (getitem_has df "popularity") by (by rewrite Hcols).
  simpl. rewrite Hmean. simpl. rewrite Hkeys. done.
Qed.

Lemma bar_chart_missing_group_column_witness :
  Bar_chart.update Numpy.argsort two_tracks by_key
  = Ok (Bar_chart.empty_fig,
        error_msg (Exn KeyError ("'" +:+ group_column by_key +:+ "'") Bar_chart.frame),
        NoCards).
Proof.
  apply (bar_chart_missing_group_column Numpy.argsort two_tracks two_tracks by_key).
  - vm_compute. reflexivity.
  - discriminate.
  - decide_closed.
  - apply (proj1 (bool_decide_eq_true _)). vm_compute. reflexivity.
Defined.

(** ** What a drawn correlation heatmap tells *)

Section HeatmapShape.
Import Audio_correlation_heatmap_chart.
Variable str_to_num : string -> option Q.





End HeatmapShape.


Section UnknownFeature.
Import Audio_correlation_heatmap_chart.
Variable str_to_num : string -> option Q.

(** X16: when two or more features are selected and one of them is not a
    column of the dataset, the callback of the correlation heatmap returns
    the figure "Error in chart" with the diagnostic of a [KeyError], and no
    summary card, although the cards were computed before the failure. *)
Theorem heatmap_unknown_feature (data df : table) (kw : kwargs) (fs : list string)
  (f : string)
  (Hfiltered : filter_data data (filter_kwargs kw) = Ok df)
  (Hnonempty : rows df <> [])
  (Hpopularity : "popularity" ∈ columns data)
  (Hfeatures : features kw = Some fs)
  (Hmany : (2 <= length fs)%nat)
  (Hf : f ∈ fs)
  (Hmissing : f ∉ columns data) :
  exists e, exc_type e = KeyError /\
    update str_to_num data kw = Ok (empty_fig, error_msg e, NoCards).
Proof.
  destruct (summary_cards_filtered frame_cards _ _ _ Hfiltered Hpopularity Hnonempty)
    as (avg & Hcards).
  destruct (filter_data_nonempty _ _ _ Hfiltered Hnonempty) as [Hcols _].
  destruct (find (fun f => negb (has_column df f)) fs) as [f'|] eqn:Hfind.
  2:{ exfalso. apply list_elem_of_In in Hf. apply (find_none _ _ Hfind f) in Hf.
      apply negb_false_iff, has_column_true in Hf. rewrite Hcols in Hf. done. }
  exists (Exn KeyError ("['" +:+ f' +:+ "'] not in index") frame).
  split; [done|].
  unfold update, _update_logic. rewrite Hfiltered. simpl.
  unfold chart_of, _create_summary_cards. rewrite Hcards. simpl.
  assert (Hlen : (len df =? 0)%nat = false).
  { unfold len. by destruct (rows df). }
  rewrite Hlen, Hfeatures.
  assert (Hlt : (length fs <? 2)%nat = false) by (apply Nat.ltb_ge; lia).
  rewrite Hlt, Hfind. done.
Qed.

End UnknownFeature.

Lemma heatmap_unknown_feature_witness :
  exists e, exc_type e = KeyError /\
    Audio_correlation_heatmap_chart.update no_numeral two_tracks unknown_feature
    = Ok (Audio_correlation_heatmap_chart.empty_fig, error_msg e, NoCards).
Proof.
  apply (heatmap_unknown_feature no_numeral two_tracks two_tracks unknown_feature
           ["energy"; "loudness"] "loudness").
  - vm_compute. reflexivity.
  - discriminate.
  - decide_closed.
  - reflexivity.
  - simpl. lia.
  - decide_closed.
  - apply (proj1 (bool_decide_eq_true _)). vm_compute. reflexivity.
Defined.

(** ** The points of the tempo and energy chart *)

Section TempoPoints.
Import Tempo_energy_chart.
Variable str_to_num : string -> option Q.
Variable float_str : Q -> string.

Lemma dropna_pairs_in_range (lo hi lo' hi' : Q) (rs : list row) :
  Forall (fun r => in_range lo hi (at_col "tempo" r) = true /\
                   in_range lo' hi' (at_col "energy" r) = true) rs ->
  dropna_pairs (map (to_numeric str_to_num) (map (at_col "tempo") rs))
               (map (to_numeric str_to_num) (map (at_col "energy") rs))
  = map (fun r => (default 0%Q (to_numeric str_to_num (at_col "tempo" r)),
                   default 0%Q (to_numeric str_to_num (at_col "energy" r)))) rs /\
  Forall (fun p => (lo <= p.1 /\ p.1 <= hi) /\ (lo' <= p.2 /\ p.2 <= hi'))%Q
    (dropna_pairs (map (to_numeric str_to_num) (map (at_col "tempo") rs))
                  (map (to_numeric str_to_num) (map (at_col "energy") rs))).
Proof.
  induction 1 as [|r rs [Ht He] _ [IH1 IH2]]; [done|].
  apply in_range_spec in Ht as (t & Ht & Htl & Hth).
  apply in_range_spec in He as (e & He & Hel & Heh).
  cbn [map]. rewrite Ht, He. cbn [to_numeric dropna_pairs default].
  split; [by rewrite IH1|]. constructor; [|exact IH2].
  apply Qle_bool_iff in Htl, Hth, Hel, Heh. done.
Qed.

(** X17: when the density chart is drawn it has at least one point and at
    most one for each filtered track; the tempo of every point lies
    between the bounds of the chart (60 and 180 when the inputs are empty)
    and between the tempo bounds of the filter, and its energy between the
    energy bounds of the filter. *)
Theorem tempo_energy_points (data : table) (kw : kwargs) (d : density) (cards : summary)
  (H : _update_logic str_to_num float_str data kw = Ok (Chart d, cards)) :
  let F := filter_kwargs kw in
  let tempo_min' := default 60%Q (plot_tempo_min kw) in
  let tempo_max' := default 180%Q (plot_tempo_max kw) in
  exists df,
    filter_data data F = Ok df /\
    (0 < length (points d) <= len df)%nat /\
    Forall (fun p =>
              (tempo_min' <= p.1 /\ p.1 <= tempo_max') /\
              (tempo_min F <= p.1 /\ p.1 <= tempo_max F) /\
              (energy_min F <= p.2 /\ p.2 <= energy_max F))%Q (points d).
Proof.
  intros F tmin tmax. unfold _update_logic in H.
  apply bind_Ok in H as (df & Hfiltered & H). exists df. split; [exact Hfiltered|].
  apply bind_Ok in H as (cards' & _ & H).
  destruct (len df =? 0)%nat eqn:Hlen; [discriminate|].
  assert (Hne : rows df <> []).
  { unfold len in Hlen. by destruct (rows df). }
  destruct (filter_data_nonempty _ _ _ Hfiltered Hne) as [Hcols Hok].
  apply bind_Ok in H as (tempo & Htempo & H). apply getitem_Ok in Htempo as [Hct ->].
  apply bind_Ok in H as (energy & Henergy & H). apply getitem_Ok in Henergy as [Hce ->].
  rewrite Hcols in Hct, Hce.
  destruct (dropna_pairs_in_range (tempo_min F) (tempo_max F) (energy_min F) (energy_max F)
              (rows df)) as [Hpairs Hall].
  { eapply Forall_impl; [exact Hok|]. intros r (_ & _ & _ & He & _ & _ & Ht & _).
    split; [by apply Ht | by apply He]. }
  fold tmin tmax in H.
  destruct (length _ =? 0)%nat eqn:Hpts; [discriminate|].
  injection H as <- _. simpl.
  split; [split|].
  - apply Nat.eqb_neq in Hpts. lia.
  - etrans; [apply List.filter_length_le|]. rewrite Hpairs, length_map. done.
  - apply Forall_forall. intros p Hp. apply list_elem_of_In, filter_In in Hp as [Hin Hr].
    apply list_elem_of_In in Hin. rewrite Forall_forall in Hall.
    destruct (Hall p Hin) as [Ht He]. split; [|done].
    unfold in_tempo_range in Hr. apply andb_true_iff in Hr as [H1 H2].
    by apply Qle_bool_iff in H1, H2.
Qed.

End TempoPoints.

Lemma tempo_energy_points_witness :
  exists df,
    filter_data two_tracks default_filters = Ok df /\
    (0 < length [(120, 1 # 2); (80, 2 # 10)]%Q <= len df)%nat /\
    Forall (fun p =>
              (60 <= p.1 /\ p.1 <= 180) /\
              (tempo_min default_filters <= p.1 /\ p.1 <= tempo_max default_filters) /\
              (energy_min default_filters <= p.2 /\ p.2 <= energy_max default_filters))%Q
      [(120, 1 # 2); (80, 2 # 10)]%Q.
Proof.
  apply (tempo_energy_points no_numeral no_digits two_tracks tempo_defaults
           (Tempo_energy_chart.Density [(120, 1 # 2); (80, 2 # 10)]%Q false)
           (Cards 2 (85 # 2))).
  vm_compute. reflexivity.
Defined.

(** ** What the normalization does to a feature that varies *)

Section Scaling.
Import Genre_fingerprint_chart.

Lemma Qmin_case (a b : Q) : Qmin a b = a \/ Qmin a b = b.
Proof. unfold Qmin, GenericMinMax.gmin. destruct (a ?= b)%Q; auto. Qed.

Lemma Qmax_case (a b : Q) : Qmax a b = a \/ Qmax a b = b.
Proof. unfold Qmax, GenericMinMax.gmax. destruct (a ?= b)%Q; auto. Qed.

Lemma fold_left_case (f : Q -> Q -> Q) (xs : list Q) (x : Q) :
  (forall a b, f a b = a \/ f a b = b) -> fold_left f xs x ∈ x :: xs.
Proof.
  intros Hf. revert x. induction xs as [|y xs IH]; intros x; simpl.
  - apply list_elem_of_here.
  - specialize (IH (f x y)). apply elem_of_cons in IH as [IH|IH].
    + rewrite IH. destruct (Hf x y) as [->| ->].
      * apply list_elem_of_here.
      * apply list_elem_of_further, list_elem_of_here.
    + by do 2 apply list_elem_of_further.
Qed.

(** The minimum and the maximum are entries of the array. *)
Lemma np_min_elem (vs : list Q) (lo : Q) : np_min vs = Ok lo -> lo ∈ vs.
Proof.
  destruct vs as [|x xs]; [discriminate|]. intros [= <-].
  apply fold_left_case, Qmin_case.
Qed.

Lemma np_max_elem (vs : list Q) (hi : Q) : np_max vs = Ok hi -> hi ∈ vs.
Proof.
  destruct vs as [|x xs]; [discriminate|]. intros [= <-].
  apply fold_left_case, Qmax_case.
Qed.

Lemma set_column_at (n w i : nat) (vals : list Q) (acc : matrix) :
  rect n w acc -> length vals = n -> (i < w)%nat ->
  Forall2 (fun r v => r !! i = Some v) (set_column i vals acc) vals.
Proof.
  intros [Hn Hw] Hl Hi. revert n Hn vals Hl.
  induction Hw as [|r a Hr _ IH]; intros n Hn vals Hl; simpl in *.
  - subst n. destruct vals; [constructor | discriminate].
  - subst n. destruct vals as [|v vals]; [discriminate|]. simpl.
    constructor; [apply list_lookup_insert_eq; lia|].
    apply (IH (length a) eq_refl). by injection Hl.
Qed.

Lemma column_carried (i : nat) (a b : matrix) (vals : list Q) :
  Forall2 (fun r v => r !! i = Some v) a vals ->
  Forall2 (fun r r' => r !! i = r' !! i) a b ->
  Forall2 (fun r v => r !! i = Some v) b vals.
Proof.
  intros Ha. revert b. induction Ha as [|r v a vals Hr _ IH]; intros b Hab.
  - inversion Hab. constructor.
  - inversion Hab; subst. constructor; [congruence | auto].
Qed.

Lemma normalize_loop_scaled (n w : nat) (heatmap_data : matrix) (indices : list nat)
  (i : nat) (vs : list Q) (lo hi : Q) :
  (0 < n)%nat -> rect n w heatmap_data ->
  Forall (fun i => (i < w)%nat) indices -> NoDup indices -> i ∈ indices ->
  get_column heatmap_data i = Ok vs -> np_min vs = Ok lo -> np_max vs = Ok hi ->
  (lo < hi)%Q ->
  forall acc, rect n w acc ->
  exists acc',
    normalize_loop heatmap_data acc indices = Ok acc' /\
    Forall2 (fun r v => r !! i = Some ((v - lo) / (hi - lo))%Q) acc' vs.
Proof.
  intros Hn Hm Hlt Hnd Hi Hvs Hlo Hhi Hlohi.
  induction indices as [|j rest IH]; intros acc Hacc; [by apply elem_of_nil in Hi|].
  apply Forall_cons in Hlt as [Hj Hrest]. apply NoDup_cons in Hnd as [Hnotin Hnd].
  destruct (normalize_feature_ok n w j heatmap_data acc Hn Hm Hacc Hj)
    as (acc1 & Hstep & Hrect1 & _).
  cbn [normalize_loop]. rewrite Hstep. simpl.
  apply elem_of_cons in Hi as [->|Hi]; [|by apply IH].
  destruct (normalize_loop_ok n w heatmap_data rest Hn Hm Hrest Hnd acc1 Hrect1)
    as (acc' & Hloop & _ & _ & Hother & _).
  exists acc'. split; [exact Hloop|].
  assert (Hacc1 : acc1 = set_column j
            (map (fun v => ((v - lo) / (hi - lo))%Q) vs) acc).
  { unfold normalize_feature in Hstep. rewrite Hvs in Hstep. simpl in Hstep.
    rewrite Hlo in Hstep. simpl in Hstep. rewrite Hhi in Hstep. simpl in Hstep.
    rewrite (proj2 (Qlt_bool_true lo hi) Hlohi) in Hstep. by injection Hstep. }
  destruct (get_column_rect n w j heatmap_data Hm Hj) as (vs' & Hvs' & Hl & _).
  rewrite Hvs in Hvs'. injection Hvs' as <-.
  assert (Hset : Forall2 (fun r v => r !! j = Some v) acc1
                   (map (fun v => ((v - lo) / (hi - lo))%Q) vs)).
  { rewrite Hacc1. apply (set_column_at n w); [done | by rewrite length_map | done]. }
  pose proof (column_carried j acc1 acc' _ Hset (Hother j Hnotin)) as Hfinal.
  by apply Forall2_fmap_r in Hfinal.
Qed.

(** X18: for a feature whose values differ between the genres, the
    normalization replaces every value [v] of its column by
    [(v - min) / (max - min)]: the minimum and the maximum are values of the
    column and become 0 and 1, and the order of the genres under the
    feature is kept. *)
Theorem normalize_scales_feature (heatmap_data : matrix) (i : nat) (vs : list Q)
  (lo hi : Q)
  (Hgenres : heatmap_data <> [])
  (Hfeatures : Forall (fun r => length r = length audio_features) heatmap_data)
  (Hi : (i < length audio_features)%nat)
  (Hvs : get_column heatmap_data i = Ok vs)
  (Hlo : np_min vs = Ok lo) (Hhi : np_max vs = Ok hi)
  (Hvaries : (lo < hi)%Q) :
  exists normalized,
    normalize heatmap_data = Ok normalized /\
    Forall2 (fun r v => r !! i = Some ((v - lo) / (hi - lo))%Q) normalized vs /\
    lo ∈ vs /\ hi ∈ vs /\
    ((lo - lo) / (hi - lo) == 0)%Q /\ ((hi - lo) / (hi - lo) == 1)%Q /\
    forall u v, (u <= v)%Q -> ((u - lo) / (hi - lo) <= (v - lo) / (hi - lo))%Q.
Proof.
  assert (Hn : (0 < length heatmap_data)%nat)
    by (destruct heatmap_data; [done | simpl; lia]).
  destruct (normalize_loop_scaled (length heatmap_data) (length audio_features)
              heatmap_data (seq 0 (length audio_features)) i vs lo hi Hn)
    with (acc := zeros_like heatmap_data) as (acc' & Hloop & Hcol); try done.
  - apply Forall_forall. intros j Hj%elem_of_seq. lia.
  - apply NoDup_seq.
  - apply elem_of_seq. lia.
  - by apply zeros_like_rect.
  - exists acc'. split; [exact Hloop|]. split; [exact Hcol|].
    split; [by apply np_min_elem|]. split; [by apply np_max_elem|].
    split; [|split].
    + field. lra.
    + field. lra.
    + intros u v Huv. apply Qmult_le_compat_r; [lra|].
      apply Qlt_le_weak, Qinv_lt_0_compat. lra.
Qed.

End Scaling.

Lemma normalize_scales_feature_witness :
  exists normalized,
    Genre_fingerprint_chart.normalize three_genres = Ok normalized /\
    Forall2 (fun r v => r !! 0%nat = Some ((v - (1 # 10)) / ((3 # 10) - (1 # 10)))%Q)
      normalized [1 # 10; 3 # 10; 2 # 10]%Q /\
    (1 # 10)%Q ∈ [1 # 10; 3 # 10; 2 # 10]%Q /\ (3 # 10)%Q ∈ [1 # 10; 3 # 10; 2 # 10]%Q /\
    (((1 # 10) - (1 # 10)) / ((3 # 10) - (1 # 10)) == 0)%Q /\
    (((3 # 10) - (1 # 10)) / ((3 # 10) - (1 # 10)) == 1)%Q /\
    forall u v, (u <= v)%Q ->
      ((u - (1 # 10)) / ((3 # 10) - (1 # 10)) <= (v - (1 # 10)) / ((3 # 10) - (1 # 10)))%Q.
Proof.
  apply (normalize_scales_feature three_genres 0 [1 # 10; 3 # 10; 2 # 10]%Q
           (1 # 10)%Q (3 # 10)%Q).
  - discriminate.
  - repeat constructor.
  - simpl. lia.
  - reflexivity.
  - reflexivity.
  - reflexivity.
  - reflexivity.
Defined.

(** ** The radar chart *)

Section Radar.
Import Artist_spotlight_radar_chart Py_str.

Lemma Forall2_elem_l {A B} (R : A -> B -> Prop) (l : list A) (k : list B) :
  Forall2 R l k -> Forall2 (fun x y => x ∈ l /\ R x y) l k.
Proof.
  induction 1 as [|x y l k Hxy _ IH]; constructor.
  - split; [apply list_elem_of_here | done].
  - eapply Forall2_impl; [exact IH|]. intros a b [Ha Hab].
    split; [by apply list_elem_of_further | done].
Qed.

Lemma averages_spec (df : table) (features : list string) (vals : list (option Q))
  (labels : list string) :
  averages df features = Ok (vals, labels) ->
  labels = map title (List.filter (has_column df) features) /\
  Forall2 (fun feature v => series_mean (map (at_col feature) (rows df)) frame = Ok v)
    (List.filter (has_column df) features) vals.
Proof.
  revert vals labels. induction features as [|f features IH]; intros vals labels; simpl.
  - intros [= <- <-]. split; [done | constructor].
  - destruct (has_column df f) eqn:Hc; [|apply IH].
    intros H. apply bind_Ok in H as (col & Hcol & H). apply getitem_Ok in Hcol as [_ ->].
    apply bind_Ok in H as (avg & Havg & H).
    apply bind_Ok in H as ([vs ls] & Hrest & [= <- <-]).
    destruct (IH _ _ Hrest) as [-> HF]. simpl. split; [done|]. by constructor.
Qed.

Lemma radar_bounds_title (F : filters) (feature : string) :
  feature ∈ audio_features -> radar_bounds F (title feature) = feature_bounds F feature.
Proof.
  intros H. apply list_elem_of_In in H. simpl in H.
  repeat (destruct H as [<-|H]; [reflexivity|]). done.
Qed.

Lemma feature_bounds_range (F : filters) (cols : list string) (r : row) (feature : string)
  (lo hi : Q) :
  row_ok F cols r -> feature_bounds F feature = Some (lo, hi) ->
  range_ok feature lo hi cols r.
Proof.
  intros (_ & _ & _ & He & Hd & Hv & _) H. unfold feature_bounds in H.
  destruct (String.eqb_spec feature "danceability") as [->|_]; [by injection H as <- <-|].
  destruct (String.eqb_spec feature "energy") as [->|_]; [by injection H as <- <-|].
  destruct (String.eqb_spec feature "valence") as [->|_]; [by injection H as <- <-|].
  discriminate.
Qed.

(** The averages of a table whose rows passed the filter. *)
Lemma averages_numbers (F : filters) (cols : list string) (df : table)
  (vals : list (option Q)) (labels : list string) :
  columns df = cols -> rows df <> [] -> Forall (row_ok F cols) (rows df) ->
  averages df audio_features = Ok (vals, labels) ->
  labels = map title (List.filter (fun f => bool_decide (f ∈ cols)) audio_features) /\
  Forall2 (fun label v => is_Some (radar_bounds F label) -> is_Some v) labels vals.
Proof.
  intros Hcols Hne Hok H. apply averages_spec in H as [-> HF].
  assert (Hfilter : List.filter (has_column df) audio_features
                    = List.filter (fun f => bool_decide (f ∈ cols)) audio_features).
  { apply filter_ext. intros f. unfold has_column. by rewrite Hcols. }
  rewrite Hfilter in *. split; [done|].
  apply Forall2_fmap_l.
  eapply Forall2_impl; [apply (Forall2_elem_l _ _ _ HF)|].
  intros f v [Hf Hmean] [[lo hi] Hb].
  {
    apply list_elem_of_In, filter_In in Hf as [Hin Hc]. apply bool_decide_eq_true in Hc.
    rewrite radar_bounds_title in Hb by (by apply list_elem_of_In).
    assert (Hrange : Forall (fun x => in_range lo hi x = true) (map (at_col f) (rows df))).
    { apply (column_in_range _ _ _ cols); [done|].
      eapply Forall_impl; [exact Hok|]. intros r Hr. by eapply feature_bounds_range. }
    assert (Hne' : map (at_col f) (rows df) <> []) by (destruct (rows df); done).
    destruct (series_mean_number lo hi frame _ Hne' Hrange) as (m & Hm).
    rewrite Hm in Hmean. injection Hmean as <-. by eexists. }
Qed.

(** X19: when the radar is drawn, it is the radar of the selected
    artist, who has a track in the dataset; its axes are the audio features
    that are columns of the dataset, in the order of the source and with
    title-case labels, with one value of the artist for each axis; and on
    the axes that the filter bounds (danceability, energy and valence) the
    average of the artist, and the average of the filtered table when the
    comparison is drawn, is a number and not [nan]. *)
Theorem radar_traces (data : table) (kw : kwargs) (rd : radar)
  (H : _update_logic data kw = Ok (Chart rd)) :
  let is_number := fun label (v : option Q) =>
    is_Some (radar_bounds (filter_kwargs kw) label) -> is_Some v in
  artist kw = Some (name rd) /\
  (exists t, t ∈ rows data /\ at_col "artists" t = CStr (name rd)) /\
  theta rd = map title (List.filter (fun f => bool_decide (f ∈ columns data)) audio_features) /\
  Forall2 is_number (theta rd) (r rd) /\
  forall ds, dataset_average rd = Some ds -> Forall2 is_number (theta rd) ds.
Proof.
  intros is_number. unfold _update_logic in H.
  apply bind_Ok in H as (df & Hfiltered & H).
  destruct (len df =? 0)%nat eqn:Hlen; [discriminate|].
  assert (Hne : rows df <> []).
  { unfold len in Hlen. by destruct (rows df). }
  destruct (filter_data_nonempty _ _ _ Hfiltered Hne) as [Hcols Hok].
  pose proof Hfiltered as Hsub. apply filter_data_keeps in Hsub as [Hsub _].
  apply bind_Ok in H as (compare_enabled & _ & H).
  destruct (artist kw) as [a|] eqn:Ha; [|discriminate].
  destruct (negb (nonempty a)); [discriminate|].
  apply bind_Ok in H as (artists & Hartists & H). apply getitem_Ok in Hartists as [_ ->].
  set (artist_df := getitem_mask df _) in H.
  destruct (len artist_df =? 0)%nat eqn:Hlen'; [discriminate|].
  assert (Hne' : rows artist_df <> []).
  { unfold len in Hlen'. by destruct (rows artist_df). }
  assert (Hsub' : sublist (rows artist_df) (rows df))
    by apply (map_mask_sound (fun x => eq_str x a) "artists" (rows df)).
  assert (Hmask : Forall (fun t => eq_str (at_col "artists" t) a = true) (rows artist_df))
    by apply (map_mask_sound (fun x => eq_str x a) "artists" (rows df)).
  assert (Hok' : Forall (row_ok (filter_kwargs kw) (columns data)) (rows artist_df)).
  { eapply Forall_sublist; [exact Hsub' | exact Hok]. }
  apply bind_Ok in H as ([vals labels] & Hav & H).
  destruct (averages_numbers (filter_kwargs kw) (columns data) artist_df vals labels)
    as [Hlabels Hvals]; try done.
  assert (Htrack : exists t, t ∈ rows data /\ at_col "artists" t = CStr a).
  { destruct (rows artist_df) as [|t ts] eqn:E; [done|]. exists t.
    apply Forall_cons in Hmask as [Ht _]. split.
    - eapply elem_of_sublist; [|exact Hsub].
      eapply elem_of_sublist; [|exact Hsub']. apply list_elem_of_here.
    - destruct (at_col "artists" t); simpl in Ht; try discriminate.
      by apply String.eqb_eq in Ht as ->. }
  destruct vals as [|v vals]; [discriminate|].
  destruct compare_enabled.
  - apply bind_Ok in H as ([gvals glabels] & Hg & H).
    destruct (averages_numbers (filter_kwargs kw) (columns data) df gvals glabels)
      as [Hglabels Hgvals]; try done.
    simpl in H. destruct gvals as [|g gvals]; injection H as <-; simpl;
      (split; [done|]); (split; [done|]); (split; [done|]); (split; [done|]).
    + intros ds [=].
    + intros ds [= <-]. by rewrite Hlabels, <- Hglabels.
  - injection H as <-. simpl.
    split; [done|]. split; [done|]. split; [done|]. split; [done|]. intros ds [=].
Qed.

(** X20: when the artist filter is active and does not select the
    artist of the radar, no track of that artist passes the filter, and the
    chart says that it has no data for the artist. *)
Theorem radar_artist_filtered_out (data df : table) (kw : kwargs) (a : string)
  (values : list string)
  (Hfiltered : filter_data data (filter_kwargs kw) = Ok df)
  (Hnonempty : rows df <> [])
  (Hartist : artist kw = Some a)
  (Hcompare : compare kw = Some values)
  (Hname : a <> "")
  (Hactive : active (artist_multiselect_filter (filter_kwargs kw)) = true)
  (Hexcluded : a ∉ artist_multiselect_filter (filter_kwargs kw)) :
  _update_logic data kw = Ok (no_data_for a).
Proof.
  destruct (filter_data_nonempty _ _ _ Hfiltered Hnonempty) as [Hcols Hok].
  pose proof Hfiltered as Hk. apply filter_data_keeps in Hk as [Hsub Hk].
  destruct Hk as (_ & [_ Hac] & _); [right; by eapply sublist_nonempty|].
  assert (Hlen : (len df =? 0)%nat = false).
  { unfold len. by destruct (rows df). }
  unfold _update_logic. rewrite Hfiltered. simpl. rewrite Hlen, Hcompare, Hartist. simpl.
  assert (Hn : nonempty a = true).
  { unfold nonempty. by destruct (String.eqb_spec a ""). }
  rewrite Hn. simpl.
  rewrite (getitem_has df "artists") by (rewrite Hcols; by apply Hac). simpl.
  assert (Hnone : boolean_index (rows df)
                    (map (fun x => eq_str x a) (map (at_col "artists") (rows df))) = []).
  { clear -Hok Hactive Hexcluded. induction Hok as [|t ts Ht _ IH]; [done|].
    simpl. destruct Ht as (_ & Ha & _). specialize (Ha Hactive).
    destruct (at_col "artists" t) as [s| | |]; simpl in *; try done.
    destruct (String.eqb_spec s a) as [->|_]; [|exact IH].
    apply bool_decide_eq_true in Ha. done. }
  unfold len. simpl. by rewrite Hnone.
Qed.

End Radar.

Lemma radar_traces_witness :
  let is_number := fun label (v : option Q) =>
    is_Some (radar_bounds default_filters label) -> is_Some v in
  Some "Abba" = Some "Abba" /\
  (exists t, t ∈ rows two_tracks /\ at_col "artists" t = CStr "Abba") /\
  ["Danceability"; "Energy"; "Valence"]
  = map Py_str.title
      (List.filter (fun f => bool_decide (f ∈ columns two_tracks))
         Artist_spotlight_radar_chart.audio_features) /\
  Forall2 is_number ["Danceability"; "Energy"; "Valence"]
    [Some (1 # 2); Some (1 # 2); Some (1 # 2)]%Q /\
  forall ds, Some [Some (24 # 40); Some (14 # 40); Some (18 # 40)]%Q = Some ds ->
    Forall2 is_number ["Danceability"; "Energy"; "Valence"] ds.
Proof.
  apply (radar_traces two_tracks abba_compared
           (Artist_spotlight_radar_chart.Radar "Abba"
              [Some (1 # 2); Some (1 # 2); Some (1 # 2)]%Q
              ["Danceability"; "Energy"; "Valence"]
              (Some [Some (24 # 40); Some (14 # 40); Some (18 # 40)]%Q))).
  vm_compute. reflexivity.
Defined.

Lemma radar_artist_filtered_out_witness :
  Artist_spotlight_radar_chart._update_logic two_tracks moby_among_abba
  = Ok (Artist_spotlight_radar_chart.no_data_for "Moby").
Proof.
  apply (radar_artist_filtered_out two_tracks small_table moby_among_abba "Moby" []).
  - vm_compute. reflexivity.
  - discriminate.
  - reflexivity.
  - reflexivity.
  - discriminate.
  - reflexivity.
  - apply (proj1 (bool_decide_eq_true _)). vm_compute. reflexivity.
Defined.

(** ** The box plot *)

Section BoxPlot.
Import Audio_feature_box_plot_chart.

Lemma bind_Raise {A B} (m : result A) (k : A -> result B) :
  (forall a, m = Ok a -> exists e, k a = Raise e) -> exists e, m ≫= k = Raise e.
Proof. intros H. destruct m as [a|e]; simpl; [by apply H | eauto]. Qed.

(** X21: the box plot reads the genres of every filtered track without
    a guard for a missing value: when genres are selected for the comparison
    and some track that passed the filter has no genres value, the callback
    returns the error figure with a diagnostic and "0" for both counts. *)
Theorem box_plot_missing_genres (data df : table) (kw : kwargs) (r : row)
  (g : string) (gs : list string)
  (Hfiltered : filter_data data (filter_kwargs kw) = Ok df)
  (Hrow : r ∈ rows df)
  (Hmissing : isna (at_col "genres" r) = true)
  (Hselected : genres kw = Some (g :: gs)) :
  exists e, update data kw = Ok (empty_fig, error_msg e, Zeros).
Proof.
  assert (Hraise : exists e, _update_logic data kw = Raise e).
  { unfold _update_logic. rewrite Hfiltered. simpl.
    assert (Hlen : (len df =? 0)%nat = false).
    { unfold len. destruct (rows df); [by apply elem_of_nil in Hrow | done]. }
    rewrite Hlen. apply bind_Raise. intros popularity _.
    apply bind_Raise. intros avg _. rewrite Hselected.
    apply bind_Raise. intros per_row Hper. exfalso.
    apply mapM_Ok in Hper. apply list_elem_of_lookup in Hrow as (i & Hi).
    destruct (Forall2_lookup_l _ _ _ _ _ Hper Hi) as (pts & _ & Hpts).
    unfold row_points, row_getitem in Hpts.
    destruct (has_column df "genres"); [|discriminate]. simpl in Hpts.
    destruct (at_col "genres" r); simpl in *; discriminate. }
  destruct Hraise as (e & He). exists e. unfold update. by rewrite He.
Qed.

Lemma row_points_genres (df : table) (feature : string) (selected : list string)
  (r : row) (pts : list point) :
  row_points df feature selected r = Ok pts ->
  Forall (fun p => genre p ∈ selected /\
                   feature_value p = at_col feature r /\ artist p = at_col "artists" r) pts.
Proof.
  unfold row_points. intros H. apply bind_Ok in H as (genre_str & _ & H).
  destruct (negb _); [|injection H as <-; constructor].
  apply bind_Ok in H as (gs & _ & H). apply bind_Ok in H as (per & Hper & [= <-]).
  apply mapM_Ok in Hper. apply Forall_concat.
  induction Hper as [|g ps gs per Hg _ IH]; constructor; [|exact IH].
  destruct (bool_decide (g ∈ selected)) eqn:E; [|injection Hg as <-; constructor].
  apply bool_decide_eq_true in E.
  apply bind_Ok in Hg as (v & Hv & Hg). apply bind_Ok in Hg as (a & Ha & [= <-]).
  unfold row_getitem in Hv, Ha.
  destruct (has_column df feature); [|discriminate].
  destruct (has_column df "artists"); [|discriminate].
  injection Hv as <-. injection Ha as <-. repeat constructor. done.
Qed.

(** X22: every point of the box plot belongs to a selected genre, and
    carries the value of the selected feature (valence when the dropdown is
    empty) and the artist of a track that passed the filter. *)
Theorem box_plot_points (data : table) (kw : kwargs) (pts : list point) (c : counts)
  (H : _update_logic data kw = Ok (Chart pts, c)) :
  exists df selected,
    filter_data data (filter_kwargs kw) = Ok df /\
    genres kw = Some selected /\
    pts <> [] /\
    Forall (fun p => genre p ∈ selected /\
              exists r, r ∈ rows df /\
                feature_value p = at_col (default "valence" (feature kw)) r /\
                artist p = at_col "artists" r) pts.
Proof.
  unfold _update_logic in H. apply bind_Ok in H as (df & Hfiltered & H).
  exists df. destruct (len df =? 0)%nat; [discriminate|].
  apply bind_Ok in H as (popularity & _ & H). apply bind_Ok in H as (avg & _ & H).
  destruct (genres kw) as [[|g gs]|] eqn:Hg.
  - apply bind_Ok in H as (c' & _ & [=]).
  - exists (g :: gs). split; [done|]. split; [done|].
    apply bind_Ok in H as (per_row & Hper & H).
    destruct (concat per_row) as [|p ps] eqn:Hpts.
    { apply bind_Ok in H as (c' & _ & [=]). }
    apply bind_Ok in H as (c' & _ & [= <- _]). split; [done|].
    rewrite <- Hpts. apply mapM_Ok in Hper. apply Forall_concat.
    clear Hpts. induction Hper as [|r pts rs per Hr _ IH]; constructor.
    + apply row_points_genres in Hr. eapply Forall_impl; [exact Hr|].
      intros q (? & ? & ?). split; [done|]. exists r. split; [apply list_elem_of_here|done].
    + eapply Forall_impl; [exact IH|]. intros l Hl.
      eapply Forall_impl; [exact Hl|]. intros q (? & r' & ? & ?). split; [done|].
      exists r'. split; [by apply list_elem_of_further | done].
  - apply bind_Ok in H as (c' & _ & [=]).
Qed.

End BoxPlot.

Lemma box_plot_missing_genres_witness :
  exists e,
    Audio_feature_box_plot_chart.update untagged_table pop_and_rock
    = Ok (Audio_feature_box_plot_chart.empty_fig, error_msg e,
          Audio_feature_box_plot_chart.Zeros).
Proof.
  apply (box_plot_missing_genres untagged_table untagged_table pop_and_rock untagged_track
           "pop" ["rock"]).
  - vm_compute. reflexivity.
  - apply list_elem_of_further, list_elem_of_here.
  - reflexivity.
  - reflexivity.
Defined.

Lemma box_plot_points_witness :
  exists df selected,
    filter_data two_tracks default_filters = Ok df /\
    Some ["pop"; "rock"] = Some selected /\
    [Audio_feature_box_plot_chart.Point "pop" (CNum (1 # 2)) (CStr "Abba");
     Audio_feature_box_plot_chart.Point "rock" (CNum (1 # 2)) (CStr "Abba")] <> [] /\
    Forall (fun p => Audio_feature_box_plot_chart.genre p ∈ selected /\
              exists r, r ∈ rows df /\
                Audio_feature_box_plot_chart.feature_value p = at_col "valence" r /\
                Audio_feature_box_plot_chart.artist p = at_col "artists" r)
      [Audio_feature_box_plot_chart.Point "pop" (CNum (1 # 2)) (CStr "Abba");
       Audio_feature_box_plot_chart.Point "rock" (CNum (1 # 2)) (CStr "Abba")].
Proof.
  apply (box_plot_points two_tracks pop_and_rock
           [Audio_feature_box_plot_chart.Point "pop" (CNum (1 # 2)) (CStr "Abba");
            Audio_feature_box_plot_chart.Point "rock" (CNum (1 # 2)) (CStr "Abba")]
           (Audio_feature_box_plot_chart.Counts 2 (85 # 2))).
  vm_compute. reflexivity.
Defined.

(** ** The data table *)

Section DataTable.
Import Data_table.
Variable dtype : string -> kind.

Lemma column_defs_spec (n : nat) (cols : list string) :
  sublist (map field (column_defs dtype n cols)) cols /\
  Forall (fun d => String.prefix "_" (field d) = false /\ field d <> "index")
    (column_defs dtype n cols) /\
  (forall c, c ∈ important_columns -> c ∈ cols -> c ∈ map field (column_defs dtype n cols)) /\
  (length (List.filter (fun d => negb (bool_decide (field d ∈ important_columns)))
             (column_defs dtype n cols)) <= 15 - n)%nat.
Proof.
  assert (Hfield : forall col, field (make_col_def dtype col) = col).
  { intros col. unfold make_col_def. by destruct (dtype col). }
  revert n. induction cols as [|col rest IH]; intros n; simpl.
  - split; [done|]. split; [constructor|]. split; [|lia].
    intros c _ Hc. by apply elem_of_nil in Hc.
  - destruct (String.prefix "_" col || String.eqb col "index") eqn:Hskip.
    + destruct (IH n) as (Hs & Hf & Hi & Hl).
      split; [by apply sublist_cons|]. split; [done|]. split; [|done].
      intros c Hc Hin. apply elem_of_cons in Hin as [->|Hin]; [|auto].
      exfalso. apply list_elem_of_In in Hc. simpl in Hc.
      repeat (destruct Hc as [<-|Hc]; [discriminate|]). done.
    + apply orb_false_iff in Hskip as [Hp He]. apply String.eqb_neq in He.
      destruct (bool_decide (col ∈ important_columns)) eqn:Himp; simpl.
      * destruct (IH (S n)) as (Hs & Hf & Hi & Hl). rewrite Hfield.
        split; [by apply sublist_skip|]. split.
        { constructor; [by rewrite Hfield | done]. }
        split.
        { intros c Hc Hin. apply elem_of_cons in Hin as [->|Hin];
            [apply list_elem_of_here | apply list_elem_of_further; auto]. }
        rewrite Himp. simpl. lia.
      * destruct (n <? 15)%nat eqn:Hn.
        -- destruct (IH (S n)) as (Hs & Hf & Hi & Hl). simpl. rewrite Hfield.
           split; [by apply sublist_skip|]. split.
           { constructor; [by rewrite Hfield | done]. }
           split.
           { intros c Hc Hin. apply elem_of_cons in Hin as [->|Hin].
             - apply bool_decide_eq_false in Himp. done.
             - apply list_elem_of_further. auto. }
           rewrite Himp. simpl. apply Nat.ltb_lt in Hn. lia.
        -- destruct (IH n) as (Hs & Hf & Hi & Hl).
           split; [by apply sublist_cons|]. split; [done|]. split; [|done].
           intros c Hc Hin. apply elem_of_cons in Hin as [->|Hin]; [|auto].
           apply bool_decide_eq_false in Himp. done.
Qed.

Lemma clean_not_nan (col : string) (x : cell) : clean dtype col x <> CNaN.
Proof.
  unfold clean. destruct (dtype col); destruct x as [s|q| |]; simpl; try done;
    destruct (String.eqb s ""); simpl; done.
Qed.

(** X23: the grid gets one definition for each column of the dataset in
    its order, skipping the columns whose name begins with an underscore or
    is "index" and, among the columns that are not marked important, all
    but the first ones: every important column of the dataset has a
    definition and at most 15 others have one.  It gets at most 10000
    records, each with a value for every column of the dataset, in which
    no [nan] is left. *)
Theorem data_table_grid (data : table) (f : filters) (defs : list col_def)
  (row_data : list (gmap string cell))
  (H : _update_logic dtype data f = Ok (defs, row_data)) :
  sublist (map field defs) (columns data) /\
  Forall (fun d => String.prefix "_" (field d) = false /\ field d <> "index") defs /\
  (row_data <> [] ->
   forall c, c ∈ important_columns -> c ∈ columns data -> c ∈ map field defs) /\
  (length (List.filter (fun d => negb (bool_decide (field d ∈ important_columns))) defs)
   <= 15)%nat /\
  (length row_data <= 100 * 100)%nat /\
  Forall (fun record => dom record = list_to_set (columns data) /\
                        map_Forall (fun _ v => v <> CNaN) record) row_data.
Proof.
  unfold _update_logic in H. apply bind_Ok in H as (df & Hfiltered & H).
  destruct (len df =? 0)%nat eqn:Hlen.
  { injection H as <- <-. split; [apply sublist_nil_l|]. split; [constructor|].
    split; [done|]. split; [simpl; lia|]. split; [simpl; lia | constructor]. }
  assert (Hne : rows df <> []).
  { unfold len in Hlen. by destruct (rows df). }
  destruct (filter_data_nonempty _ _ _ Hfiltered Hne) as [Hcols _].
  injection H as <- <-. cbn [head columns rows]. rewrite Hcols.
  destruct (column_defs_spec 0 (columns data)) as (Hs & Hf & Hi & Hl).
  split; [done|]. split; [done|]. split; [auto|]. split; [lia|]. split.
  - unfold records. cbn [rows head]. rewrite length_map, length_take. lia.
  - unfold records. cbn [rows columns head]. rewrite Hcols.
    apply Forall_fmap, Forall_forall. intros r _. simpl. split.
    + rewrite dom_list_to_map_L. f_equal.
      change (map fst (map (fun col => (col, clean dtype col (at_col col r))) (columns data))
              = columns data).
      rewrite map_map. simpl. apply map_id.
    + intros k v Hkv. apply elem_of_list_to_map_2 in Hkv.
      apply list_elem_of_In, in_map_iff in Hkv as (c & [= <- <-] & _).
      apply clean_not_nan.
Qed.

End DataTable.

(** X24: the summary over the grid guards the popularity column: on a
    dataset without it, when the filtered table has a row, the summary
    shows the number of rows and 0 as the average popularity, where the
    data cards show "Error". *)
Theorem data_table_summary_guard (data df : table) (f : filters)
  (Hfiltered : filter_data data f = Ok df)
  (Hnonempty : rows df <> [])
  (Hmissing : "popularity" ∉ columns data) :
  Data_table.update_summary data f = Ok (Data_table.SummaryCards (len df) 0) /\
  Data_cards.update data f = Ok Data_cards.Error.
Proof.
  destruct (filter_data_nonempty _ _ _ Hfiltered Hnonempty) as [Hcols _].
  assert (Hlen : (len df =? 0)%nat = false).
  { unfold len. by destruct (rows df). }
  split.
  - unfold Data_table.update_summary, Data_table.update_summary_try.
    rewrite Hfiltered. simpl. rewrite Hlen.
    unfold has_column. rewrite bool_decide_eq_false_2 by (by rewrite Hcols). done.
  - unfold Data_cards.update, Data_cards.update_try. rewrite Hfiltered. simpl.
    rewrite Hlen. rewrite (getitem_missing df "popularity") by (by rewrite Hcols). done.
Qed.

Lemma data_table_grid_witness :
  sublist (map Data_table.field (Data_table.column_defs track_dtype 0 (columns two_tracks)))
    (columns two_tracks) /\
  Forall (fun d => String.prefix "_" (Data_table.field d) = false /\
                   Data_table.field d <> "index")
    (Data_table.column_defs track_dtype 0 (columns two_tracks)) /\
  (Data_table.records track_dtype two_tracks <> [] ->
   forall c, c ∈ Data_table.important_columns -> c ∈ columns two_tracks ->
     c ∈ map Data_table.field (Data_table.column_defs track_dtype 0 (columns two_tracks))) /\
  (length (List.filter
             (fun d => negb (bool_decide (Data_table.field d ∈ Data_table.important_columns)))
             (Data_table.column_defs track_dtype 0 (columns two_tracks))) <= 15)%nat /\
  (length (Data_table.records track_dtype two_tracks) <= 100 * 100)%nat /\
  Forall (fun record => dom record = list_to_set (columns two_tracks) /\
                        map_Forall (fun _ v => v <> CNaN) record)
    (Data_table.records track_dtype two_tracks).
Proof.
  apply (data_table_grid track_dtype two_tracks default_filters
           (Data_table.column_defs track_dtype 0 (columns two_tracks))
           (Data_table.records track_dtype two_tracks)).
  vm_cast_no_check
    (eq_refl (Ok (Data_table.column_defs track_dtype 0 (columns two_tracks),
                  Data_table.records track_dtype two_tracks))).
Defined.

Lemma data_table_summary_guard_witness :
  Data_table.update_summary (Table ["duration_ms"] [pop_track]) default_filters
  = Ok (Data_table.SummaryCards (len (Table ["duration_ms"] [pop_track])) 0) /\
  Data_cards.update (Table ["duration_ms"] [pop_track]) default_filters
  = Ok Data_cards.Error.
Proof.
  apply (data_table_summary_guard (Table ["duration_ms"] [pop_track])
           (Table ["duration_ms"] [pop_track]) default_filters).
  - vm_compute. reflexivity.
  - discriminate.
  - apply (proj1 (bool_decide_eq_true _)). vm_compute. reflexivity.
Defined.
